(** * The voxel engine of concept_stack: model and properties

    A shallow embedding of [src/services/VoxelEngine.ts] (the simulation
    and state controller), of the JSON import boundary in [src/App.tsx]
    ([handleJsonImport]) and of the data types of [src/types.ts].  It is
    followed by the templates of [src/utils/voxelGenerators.ts]
    ([setBlock], [getSafeColor], [Templates.Tower], [Templates.Pyramid]),
    by the handlers of the lesson game in [src/App.tsx] with the conditions
    under which [src/components/UIOverlay.tsx] offers them, and by
    [findJsonPayload].  [Generators.Eagle] and [Templates.Spiral] place
    their blocks with [Math.sin] and [Math.cos] and are parameters;
    [generateSphere] is called by [Generators.Eagle] only and is left out.

    Conventions of the embedding.
    - A JavaScript [number] is an exact rational, [NaN], or a signed
      infinity.  Rounding of IEEE doubles and the sign of zero are not
      modelled.
    - A [Set<number>] of voxel indices is a [gset nat].
    - The engine object is a record that every method takes and returns.
    - [Math.random()] reads the next entry of a fixed sequence; the number
      of calls made so far is part of the engine record.
    - The callbacks [onStateChange] and [onCountChange] append to a log.
    - Scene, renderer, mesh and [draw()] are output only and are left out;
      the camera appears as the projection used by [getStepCentroids].
    - Calls of the methods, animation frames and the passing of time are
      events; a [setTimeout] callback fires when the clock reaches the time
      it is due.
    - A JSON text is its syntax tree; [THREE.Color] values are the calls
      that built them, and [Color.getHex] and the runtime's conversions of
      strings and arrays to numbers are parameters.
    - A [Map<string, VoxelData>] is the list of its keys and values in
      insertion order.
    - The React state of [App] is a record; the handlers run one at a
      time, each on the state the one before has left.

    The definitions come first, the lemmas and theorems after them. *)

From Stdlib Require Import QArith Qcanon Qround ZArith Lqa Ascii String.
From stdpp Require Import base numbers gmap list strings countable.

#[local] Set Warnings "-register-all,-clear-no-such-hyp".

Local Open Scope Qc_scope.

(** ** JavaScript numbers *)

Module JS.

(** A decimal literal of the source, as a canonical rational. *)
Definition dec (x : Q) : Qc := Q2Qc x.

Definition Qcltb (x y : Qc) : bool :=
  match x ?= y with Lt => true | _ => false end.

Definition Qceqb (x y : Qc) : bool :=
  match x ?= y with Eq => true | _ => false end.

Inductive number : Type :=
  | Num (x : Qc)
  | NaN
  | Inf (negative : bool).

#[global] Instance number_eq_dec : EqDecision number.
Proof. solve_decision. Defined.

Definition lit (x : Q) : number := Num (dec x).

Definition isFinite (a : number) : bool :=
  match a with Num _ => true | _ => false end.

Definition isNaN (a : number) : bool :=
  match a with NaN => true | _ => false end.

(** Unary minus. *)
Definition neg (a : number) : number :=
  match a with
  | Num x => Num (- x)
  | NaN => NaN
  | Inf s => Inf (negb s)
  end.

(** [a + b]. *)
Definition add (a b : number) : number :=
  match a, b with
  | Num x, Num y => Num (x + y)
  | NaN, _ | _, NaN => NaN
  | Inf s, Inf s' => if eqb s s' then Inf s else NaN
  | Inf s, Num _ | Num _, Inf s => Inf s
  end.

(** [a - b]. *)
Definition sub (a b : number) : number := add a (neg b).

(** [a * b]. *)
Definition mul (a b : number) : number :=
  match a, b with
  | Num x, Num y => Num (x * y)
  | NaN, _ | _, NaN => NaN
  | Inf s, Inf s' => Inf (xorb s s')
  | Inf s, Num x | Num x, Inf s =>
      if Qceqb x 0 then NaN else Inf (xorb s (Qcltb x 0))
  end.

(** [a / b]. *)
Definition div (a b : number) : number :=
  match a, b with
  | Num x, Num y =>
      if Qceqb y 0
      then (if Qceqb x 0 then NaN else Inf (Qcltb x 0))
      else Num (x / y)
  | NaN, _ | _, NaN => NaN
  | Inf _, Inf _ => NaN
  | Inf s, Num y => Inf (xorb s (Qcltb y 0))
  | Num _, Inf _ => Num 0
  end.

(** [a < b]: false as soon as one side is [NaN]. *)
Definition lt (a b : number) : bool :=
  match a, b with
  | Num x, Num y => Qcltb x y
  | NaN, _ | _, NaN => false
  | Inf true, Inf true => false
  | Inf true, _ => true
  | _, Inf true => false
  | Inf false, _ => false
  | Num _, Inf false => true
  end.

(** [a > b]. *)
Definition gt (a b : number) : bool := lt b a.

(** [a === b] on numbers: [NaN] differs from itself. *)
Definition strictEq (a b : number) : bool :=
  match a, b with
  | Num x, Num y => Qceqb x y
  | Inf s, Inf s' => eqb s s'
  | _, _ => false
  end.

(** [a !== b]. *)
Definition strictNe (a b : number) : bool := negb (strictEq a b).


(** [Math.abs]. *)
Definition abs (a : number) : number :=
  match a with
  | Num x => Num (if Qcltb x 0 then - x else x)
  | NaN => NaN
  | Inf _ => Inf false
  end.

(** Truthiness of a number, as tested by [||] and [if]. *)
Definition truthy (a : number) : bool :=
  match a with
  | Num x => negb (Qceqb x 0)
  | NaN => false
  | Inf _ => true
  end.

(** The number of a natural: array indices, lengths and counters. *)
Definition ofNat (n : nat) : number := Num (Qc_of_Z (Z.of_nat n)).

Definition ofZ (n : Z) : number := Num (Qc_of_Z n).

End JS.

Export JS.

Declare Scope js_scope.
Delimit Scope js_scope with js.
Infix "+" := add : js_scope.
Infix "-" := sub : js_scope.
Infix "*" := mul : js_scope.
Infix "/" := div : js_scope.
Notation "- x" := (neg x) : js_scope.
Infix "<" := lt : js_scope.
Infix ">" := gt : js_scope.
Infix ">=" := ge : js_scope.
Infix "===" := strictEq (at level 70, no associativity) : js_scope.
Infix "!==" := strictNe (at level 70, no associativity) : js_scope.

(** ** [src/types.ts] *)

Inductive AppState : Type :=
  | STABLE
  | DISMANTLING
  | REBUILDING
  | INTERACTIVE_REBUILD
  | REJECTING.

#[global] Instance AppState_eq_dec : EqDecision AppState.
Proof. solve_decision. Defined.

(** [THREE.Color] values are kept as the calls that built them: the
    constructor applied to the number of the voxel spec, followed by
    [offsetHSL]. *)
Inductive Color : Type :=
  | NewColor (hex : number)
  | OffsetHSL (c : Color) (h s l : number).

#[global] Instance Color_eq_dec : EqDecision Color.
Proof. solve_decision. Defined.

(** [stepIndex?: number]: [None] is an absent ([undefined]) field. *)
Record VoxelData : Type := mkVoxelData {
  d_x : number;
  d_y : number;
  d_z : number;
  d_color : number;
  d_stepIndex : option number
}.

#[global] Instance VoxelData_eq_dec : EqDecision VoxelData.
Proof. solve_decision. Defined.

Record SimulationVoxel : Type := mkVoxel {
  id : nat;
  x : number;
  y : number;
  z : number;
  color : Color;
  stepIndex : number;
  originalX : number;
  originalY : number;
  originalZ : number;
  vx : number;
  vy : number;
  vz : number;
  rx : number;
  ry : number;
  rz : number;
  rvx : number;
  rvy : number;
  rvz : number
}.

#[global] Instance SimulationVoxel_eq_dec : EqDecision SimulationVoxel.
Proof. solve_decision. Defined.

Record RebuildTarget : Type := mkTarget {
  t_x : number;
  t_y : number;
  t_z : number;
  t_delay : number;
  t_isRubble : option bool
}.

#[global] Instance RebuildTarget_eq_dec : EqDecision RebuildTarget.
Proof. solve_decision. Defined.

Record ScreenPosition : Type := mkScreen {
  s_x : number;
  s_y : number;
  s_visible : bool
}.

#[global] Instance ScreenPosition_eq_dec : EqDecision ScreenPosition.
Proof. solve_decision. Defined.

(** ** The engine object *)

Inductive Notification : Type :=
  | StateChange (s : AppState)
  | CountChange (count : nat).

#[global] Instance Notification_eq_dec : EqDecision Notification.
Proof. solve_decision. Defined.

Record Engine : Type := mkEngine {
  voxels : list SimulationVoxel;
  rebuildTargets : list RebuildTarget;
  activeRebuildIndices : gset nat;
  rejectingIndices : gset nat;
  state : AppState;
  (** [controls.target.y], the only camera datum a command writes *)
  controlsTargetY : number;
  (** calls of [onStateChange] and [onCountChange], oldest first *)
  notifications : list Notification;
  (** number of [Math.random()] calls made so far *)
  randomCalls : nat
}.

#[global] Instance Engine_eq_dec : EqDecision Engine.
Proof. solve_decision. Defined.

(** The engine as the constructor leaves it. *)
Definition newEngine : Engine :=
  {| voxels := [];
     rebuildTargets := [];
     activeRebuildIndices := ∅;
     rejectingIndices := ∅;
     state := STABLE;
     controlsTargetY := lit 10;
     notifications := [];
     randomCalls := 0 |}.

(** ** [src/services/VoxelEngine.ts] *)

Local Open Scope js_scope.

(** [Array.prototype.forEach((v, i) => ...)] over a loop state. *)
Fixpoint forEachFrom {A St : Type} (body : A -> nat -> St -> St)
    (i : nat) (l : list A) (s : St) : St :=
  match l with
  | [] => s
  | a :: l' => forEachFrom body (S i) l' (body a i s)
  end.

Definition forEach {A St : Type} (body : A -> nat -> St -> St)
    (l : list A) (s : St) : St :=
  forEachFrom body 0 l s.

(** [Set.prototype.forEach(i => ...)] where the body updates [this.voxels[i]]
    in place.  An index without a voxel does not occur in a reachable engine
    (lemma [reachable_indices]); [alter] leaves the array alone there. *)
Definition forEachIndex (body : nat -> SimulationVoxel -> SimulationVoxel)
    (indices : gset nat) (vs : list SimulationVoxel) : list SimulationVoxel :=
  foldl (fun vs i => alter (body i) i vs) vs (elements indices).

Definition setState (s : AppState) (e : Engine) : Engine :=
  {| voxels := voxels e;
     rebuildTargets := rebuildTargets e;
     activeRebuildIndices := activeRebuildIndices e;
     rejectingIndices := rejectingIndices e;
     state := s;
     controlsTargetY := controlsTargetY e;
     notifications := notifications e ++ [StateChange s];
     randomCalls := randomCalls e |}.

Definition setVoxels (vs : list SimulationVoxel) (e : Engine) : Engine :=
  {| voxels := vs;
     rebuildTargets := rebuildTargets e;
     activeRebuildIndices := activeRebuildIndices e;
     rejectingIndices := rejectingIndices e;
     state := state e;
     controlsTargetY := controlsTargetY e;
     notifications := notifications e;
     randomCalls := randomCalls e |}.

Definition setPosition (px py pz : number) (v : SimulationVoxel) : SimulationVoxel :=
  {| id := id v; x := px; y := py; z := pz; color := color v;
     stepIndex := stepIndex v;
     originalX := originalX v; originalY := originalY v; originalZ := originalZ v;
     vx := vx v; vy := vy v; vz := vz v;
     rx := rx v; ry := ry v; rz := rz v;
     rvx := rvx v; rvy := rvy v; rvz := rvz v |}.

Definition setVelocity (ux uy uz : number) (v : SimulationVoxel) : SimulationVoxel :=
  {| id := id v; x := x v; y := y v; z := z v; color := color v;
     stepIndex := stepIndex v;
     originalX := originalX v; originalY := originalY v; originalZ := originalZ v;
     vx := ux; vy := uy; vz := uz;
     rx := rx v; ry := ry v; rz := rz v;
     rvx := rvx v; rvy := rvy v; rvz := rvz v |}.

Definition setRotation (ax ay az : number) (v : SimulationVoxel) : SimulationVoxel :=
  {| id := id v; x := x v; y := y v; z := z v; color := color v;
     stepIndex := stepIndex v;
     originalX := originalX v; originalY := originalY v; originalZ := originalZ v;
     vx := vx v; vy := vy v; vz := vz v;
     rx := ax; ry := ay; rz := az;
     rvx := rvx v; rvy := rvy v; rvz := rvz v |}.

Definition setSpin (wx wy wz : number) (v : SimulationVoxel) : SimulationVoxel :=
  {| id := id v; x := x v; y := y v; z := z v; color := color v;
     stepIndex := stepIndex v;
     originalX := originalX v; originalY := originalY v; originalZ := originalZ v;
     vx := vx v; vy := vy v; vz := vz v;
     rx := rx v; ry := ry v; rz := rz v;
     rvx := wx; rvy := wy; rvz := wz |}.

Section Engine.

(** [CONFIG.FLOOR_Y], a constant declared in [src/utils/voxelConstants];
    the engine is modelled for any value of it. *)
Variable FLOOR_Y : number.

(** The values [Math.random()] returns, in call order. *)
Variable random : nat -> Qc.

(** *** [createVoxels] (lines 107-142) *)

Definition createVoxel (calls : nat) (i : nat) (v : VoxelData) : SimulationVoxel :=
  let c := OffsetHSL (NewColor (d_color v)) (lit 0) (lit 0)
             (Num (random (calls + i)%nat) * lit 0.05 - lit 0.025) in
  {| id := i;
     x := d_x v; y := d_y v; z := d_z v;
     originalX := d_x v; originalY := d_y v; originalZ := d_z v;
     color := c;
     stepIndex := match d_stepIndex v with Some s => s | None => lit (-1) end;
     vx := lit 0; vy := lit 0; vz := lit 0;
     rx := lit 0; ry := lit 0; rz := lit 0;
     rvx := lit 0; rvy := lit 0; rvz := lit 0 |}.

Definition createVoxels (e : Engine) (data : list VoxelData) : Engine :=
  {| voxels := imap (createVoxel (randomCalls e)) data;
     rebuildTargets := rebuildTargets e;
     activeRebuildIndices := activeRebuildIndices e;
     rejectingIndices := rejectingIndices e;
     state := state e;
     controlsTargetY := controlsTargetY e;
     notifications := notifications e;
     randomCalls := (randomCalls e + length data)%nat |}.

(** *** [loadInitialModel] (lines 86-105) *)

Definition minY (data : list VoxelData) : number :=
  foldl (fun m d => if d_y d < m then d_y d else m) (Inf false) data.

Definition maxY (data : list VoxelData) : number :=
  foldl (fun m d => if d_y d > m then d_y d else m) (Inf true) data.

Definition loadInitialModel (e : Engine) (data : list VoxelData) : Engine :=
  let e1 := createVoxels e data in
  {| voxels := voxels e1;
     rebuildTargets := [];
     activeRebuildIndices := ∅;
     rejectingIndices := ∅;
     state := STABLE;
     controlsTargetY :=
       if bool_decide (0 < length data)%nat
       then (minY data + maxY data) / lit 2
       else controlsTargetY e1;
     notifications :=
       notifications e1 ++ [CountChange (length (voxels e1)); StateChange STABLE];
     randomCalls := randomCalls e1 |}.

(** *** [dismantle] (lines 157-181) *)

Definition originalTarget (v : SimulationVoxel) : RebuildTarget :=
  {| t_x := originalX v; t_y := originalY v; t_z := originalZ v;
     t_delay := lit 0; t_isRubble := Some false |}.

(** The body of the second loop of [dismantle]; [k] is the number of
    [Math.random()] calls made before this voxel's six. *)
Definition explode (k : nat) (v : SimulationVoxel) : SimulationVoxel :=
  setSpin
    ((Num (random (k + 3)%nat) - lit 0.5) * lit 0.4)
    ((Num (random (k + 4)%nat) - lit 0.5) * lit 0.4)
    ((Num (random (k + 5)%nat) - lit 0.5) * lit 0.4)
    (setVelocity
       ((Num (random k) - lit 0.5) * lit 2)
       (Num (random (k + 1)%nat) * lit 1.5 + lit 0.5)
       ((Num (random (k + 2)%nat) - lit 0.5) * lit 2)
       v).

Definition dismantle (e : Engine) : Engine :=
  if bool_decide (state e ≠ STABLE) then e
  else
    {| voxels := imap (fun i v => explode (randomCalls e + 6 * i)%nat v) (voxels e);
       rebuildTargets := originalTarget <$> voxels e;
       activeRebuildIndices := ∅;
       rejectingIndices := ∅;
       state := DISMANTLING;
       controlsTargetY := controlsTargetY e;
       notifications := notifications e ++ [StateChange DISMANTLING];
       randomCalls := (randomCalls e + 6 * length (voxels e))%nat |}.

(** *** [rebuildLayer] (lines 183-198) *)

(** Loop state of [rebuildLayer]: the two index sets and [found]. *)
Definition rebuildBody (stepIdx : number) (v : SimulationVoxel) (i : nat)
    (s : gset nat * gset nat * nat) : gset nat * gset nat * nat :=
  let '(active, rejecting, found) := s in
  if stepIndex v === stepIdx
  then ({[i]} ∪ active, rejecting ∖ {[i]}, S found)
  else s.

Definition rebuildLayer (e : Engine) (stepIdx : number) : bool * Engine :=
  let e1 := setState INTERACTIVE_REBUILD e in
  let '(active, rejecting, found) :=
    forEach (rebuildBody stepIdx) (voxels e1)
      (activeRebuildIndices e1, rejectingIndices e1, 0%nat) in
  (bool_decide (0 < found)%nat,
   {| voxels := voxels e1;
      rebuildTargets := rebuildTargets e1;
      activeRebuildIndices := active;
      rejectingIndices := rejecting;
      state := state e1;
      controlsTargetY := controlsTargetY e1;
      notifications := notifications e1;
      randomCalls := randomCalls e1 |}).

(** *** [rejectLayer] (lines 200-222) *)

(** Loop state of [rejectLayer]: the rejecting set, the voxels already
    visited (in reverse) and the count of [Math.random()] calls. *)
Definition rejectBody (stepIdx : number) (v : SimulationVoxel) (i : nat)
    (s : gset nat * list SimulationVoxel * nat)
    : gset nat * list SimulationVoxel * nat :=
  let '(rejecting, done, calls) := s in
  if stepIndex v === stepIdx
  then ({[i]} ∪ rejecting,
        setVelocity
          ((Num (random calls) - lit 0.5) * lit 0.5)
          (lit 0.5)
          ((Num (random (calls + 1)%nat) - lit 0.5) * lit 0.5)
          v :: done,
        (calls + 2)%nat)
  else (rejecting, v :: done, calls).

(** The part of [rejectLayer] that runs at once; the callback it hands to
    [setTimeout] is [rejectTimeout]. *)
Definition rejectLayer (e : Engine) (stepIdx : number) : Engine :=
  let e1 := setState REJECTING e in
  let '(rejecting, done, calls) :=
    forEach (rejectBody stepIdx) (voxels e1)
      (rejectingIndices e1, [], randomCalls e1) in
  {| voxels := rev done;
     rebuildTargets := rebuildTargets e1;
     activeRebuildIndices := activeRebuildIndices e1;
     rejectingIndices := rejecting;
     state := state e1;
     controlsTargetY := controlsTargetY e1;
     notifications := notifications e1;
     randomCalls := calls |}.

(** The delay passed to [setTimeout], in milliseconds. *)
Definition REJECT_DELAY : nat := 800.

(** The callback of [rejectLayer]'s [setTimeout]. *)
Definition rejectTimeout (e : Engine) : Engine :=
  if bool_decide (state e = REJECTING)
  then
    let e1 := setState INTERACTIVE_REBUILD e in
    {| voxels := voxels e1;
       rebuildTargets := rebuildTargets e1;
       activeRebuildIndices := activeRebuildIndices e1;
       rejectingIndices := ∅;
       state := state e1;
       controlsTargetY := controlsTargetY e1;
       notifications := notifications e1;
       randomCalls := randomCalls e1 |}
  else e.

(** *** [updatePhysics] (lines 259-341) *)

(** Branch 1, for a voxel in neither index set. *)
Definition rubble (v : SimulationVoxel) : SimulationVoxel :=
  let vy1 := vy v - lit 0.04 in
  let x1 := x v + vx v in
  let y1 := y v + vy1 in
  let z1 := z v + vz v in
  let v1 :=
    setVelocity (vx v * lit 0.98) (vy1 * lit 0.99) (vz v * lit 0.98)
      (setRotation (rx v + rvx v) (ry v + rvy v) (rz v + rvz v)
         (setPosition x1 y1 z1 v)) in
  if y v1 < FLOOR_Y + lit 0.5 then
    let vy2 := vy v1 * lit (-0.5) in
    setVelocity (vx v1 * lit 0.8)
      (if abs vy2 < lit 0.1 then lit 0 else vy2)
      (vz v1 * lit 0.8)
      (setSpin (rvx v1 * lit 0.8) (rvy v1 * lit 0.8) (rvz v1 * lit 0.8)
         (setPosition (x v1) (FLOOR_Y + lit 0.5) (z v1) v1))
  else v1.

(** [this.rebuildTargets[i] || { x: v.originalX, ... }], as its position. *)
Definition targetOf (targets : list RebuildTarget) (i : nat)
    (v : SimulationVoxel) : number * number * number :=
  match targets !! i with
  | Some t => (t_x t, t_y t, t_z t)
  | None => (originalX v, originalY v, originalZ v)
  end.

(** Branch 2, for a voxel of the active set. *)
Definition flight (targets : list RebuildTarget) (i : nat)
    (v : SimulationVoxel) : SimulationVoxel :=
  let '(tx, ty, tz) := targetOf targets i v in
  let dx := tx - x v in
  let dy := ty - y v in
  let dz := tz - z v in
  let distSq := dx * dx + dy * dy + dz * dz in
  if distSq > lit 0.05 then
    let speed := lit 0.12 in
    setRotation
      (rx v + (lit 0 - rx v) * speed)
      (ry v + (lit 0 - ry v) * speed)
      (rz v + (lit 0 - rz v) * speed)
      (setPosition (x v + dx * speed) (y v + dy * speed) (z v + dz * speed) v)
  else if x v !== tx then
    setRotation (lit 0) (lit 0) (lit 0) (setPosition tx ty tz v)
  else v.

(** Branch 3, for a voxel of the rejecting set. *)
Definition bounce (v : SimulationVoxel) : SimulationVoxel :=
  let vy1 := vy v - lit 0.04 in
  let v1 :=
    setPosition (x v + vx v) (y v + vy1) (z v + vz v)
      (setVelocity (vx v) vy1 (vz v) v) in
  if y v1 < FLOOR_Y + lit 0.5 then
    setVelocity (vx v1) (vy v1 * lit (-0.4)) (vz v1)
      (setPosition (x v1) (FLOOR_Y + lit 0.5) (z v1) v1)
  else v1.

Definition rubblePass (e : Engine) : list SimulationVoxel :=
  imap (fun i v =>
          if negb (bool_decide (i ∈ activeRebuildIndices e))
             && negb (bool_decide (i ∈ rejectingIndices e))
          then rubble v else v)
       (voxels e).

Definition flightPass (e : Engine) (vs : list SimulationVoxel)
    : list SimulationVoxel :=
  if bool_decide (state e = INTERACTIVE_REBUILD) || bool_decide (state e = REJECTING)
  then forEachIndex (flight (rebuildTargets e)) (activeRebuildIndices e) vs
  else vs.

Definition bouncePass (e : Engine) (vs : list SimulationVoxel)
    : list SimulationVoxel :=
  if bool_decide (state e = REJECTING)
  then forEachIndex (fun _ => bounce) (rejectingIndices e) vs
  else vs.

Definition updatePhysics (e : Engine) : Engine :=
  if bool_decide (state e = STABLE) then e
  else setVoxels (bouncePass e (flightPass e (rubblePass e))) e.

End Engine.

(** *** [getStepCentroids] (lines 224-257) *)

#[global] Instance number_countable : Countable number.
Proof.
  refine (inj_countable'
    (fun n => match n with
              | Num q => inl q
              | NaN => inr None
              | Inf s => inr (Some s)
              end)
    (fun c => match c with
              | inl q => Num q
              | inr None => NaN
              | inr (Some s) => Inf s
              end) _).
  intros [ | | ]; reflexivity.
Defined.






Section Centroids.

(** [vec.project(this.camera)] on the coordinates of [vec]. *)
Variable project : number * number * number -> number * number * number.

(** [this.container.clientWidth] and [clientHeight]. *)
Variable clientWidth clientHeight : number.




End Centroids.

(** ** Commands, frames and the timer of [rejectLayer] *)

Inductive Command : Type :=
  | LoadInitialModel (data : list VoxelData)
  | Dismantle
  | RebuildLayer (stepIdx : number)
  | RejectLayer (stepIdx : number).

(** What happens to an engine: a call from the user interface, an animation
    frame, or the passing of time. *)
Inductive Event : Type :=
  | Call (c : Command)
  | Frame
  | Elapse (ms : nat).

(** The engine with the clock (in milliseconds) and the times at which the
    pending [setTimeout] callbacks are due, oldest first. *)
Record World : Type := mkWorld {
  engine : Engine;
  clock : nat;
  timers : list nat
}.

#[global] Instance World_eq_dec : EqDecision World.
Proof. solve_decision. Defined.

Section Run.

Variable FLOOR_Y : number.
Variable random : nat -> Qc.

Definition execute (c : Command) (e : Engine) : Engine :=
  match c with
  | LoadInitialModel data => loadInitialModel random e data
  | Dismantle => dismantle random e
  | RebuildLayer t => snd (rebuildLayer e t)
  | RejectLayer t => rejectLayer random e t
  end.

Definition schedules (c : Command) (now : nat) : list nat :=
  match c with
  | RejectLayer _ => [(now + REJECT_DELAY)%nat]
  | _ => []
  end.

(** Runs the callbacks due by [now], in the order they were scheduled. *)
Definition fireDue (now : nat) (due : list nat) (e : Engine) : Engine :=
  foldl (fun e t => if bool_decide (t ≤ now)%nat then rejectTimeout e else e)
        e due.

Definition step (w : World) (ev : Event) : World :=
  match ev with
  | Call c =>
      {| engine := execute c (engine w);
         clock := clock w;
         timers := timers w ++ schedules c (clock w) |}
  | Frame =>
      {| engine := updatePhysics FLOOR_Y (engine w);
         clock := clock w;
         timers := timers w |}
  | Elapse ms =>
      let now := (clock w + ms)%nat in
      {| engine := fireDue now (timers w) (engine w);
         clock := now;
         timers := filter (fun t => now < t)%nat (timers w) |}
  end.

Definition run (w : World) (evs : list Event) : World := foldl step w evs.

Definition newWorld : World :=
  {| engine := newEngine; clock := 0; timers := [] |}.

(** The engines some sequence of events leads to from a new engine. *)
Definition reachable (e : Engine) : Prop :=
  exists evs, engine (run newWorld evs) = e.

End Run.

(** ** JSON export and import *)

(** JavaScript values as [JSON.parse] builds them and [getJsonData] hands
    them to [JSON.stringify]. *)
Inductive value : Type :=
  | VUndefined
  | VNull
  | VBool (b : bool)
  | VNumber (n : number)
  | VString (s : string)
  | VArray (items : list value)
  | VObject (props : list (string * value)).

(** A JSON text, as its syntax tree.  A JSON number is finite. *)
Inductive json : Type :=
  | JNull
  | JBool (b : bool)
  | JNumber (q : Qc)
  | JString (s : string)
  | JArray (items : list json)
  | JObject (members : list (string * json)).

(** [JSON.parse] of a well-formed text. *)
Fixpoint JSON_parse (j : json) : value :=
  match j with
  | JNull => VNull
  | JBool b => VBool b
  | JNumber q => VNumber (Num q)
  | JString s => VString s
  | JArray items => VArray (List.map JSON_parse items)
  | JObject members =>
      VObject (List.map (fun m => (fst m, JSON_parse (snd m))) members)
  end.

(** [JSON.stringify]: [None] stands for [undefined], which an array writes
    as [null] and an object leaves out; a number that is not finite is
    written [null]. *)
Fixpoint JSON_stringify (v : value) : option json :=
  match v with
  | VUndefined => None
  | VNull => Some JNull
  | VBool b => Some (JBool b)
  | VNumber (Num q) => Some (JNumber q)
  | VNumber _ => Some JNull
  | VString s => Some (JString s)
  | VArray items =>
      Some (JArray (List.map (fun i => default JNull (JSON_stringify i)) items))
  | VObject props =>
      Some (JObject
              (List.flat_map
                 (fun p => match JSON_stringify (snd p) with
                           | Some j => [(fst p, j)]
                           | None => []
                           end)
                 props))
  end.

(** The own property [k] of an object literal; of duplicate keys the last
    one counts. *)
Fixpoint ownProperty (k : string) (props : list (string * value)) : option value :=
  match props with
  | [] => None
  | (k', v) :: rest =>
      match ownProperty k rest with
      | Some v' => Some v'
      | None => if bool_decide (k' = k) then Some v else None
      end
  end.

(** [v.k] for the property names [handleJsonImport] reads ([c], [color],
    [x], [y], [z], [stepIndex]), none of which a prototype defines.
    [None] is the [TypeError] of reading a property of [null] or
    [undefined]. *)
Definition getProperty (v : value) (k : string) : option value :=
  match v with
  | VUndefined | VNull => None
  | VObject props => Some (default VUndefined (ownProperty k props))
  | _ => Some VUndefined
  end.

(** Truthiness of a value, as [||] tests it. *)
Definition truthyValue (v : value) : bool :=
  match v with
  | VUndefined | VNull => false
  | VBool b => b
  | VNumber n => truthy n
  | VString s => negb (bool_decide (s = EmptyString))
  | VArray _ | VObject _ => true
  end.

(** *** [parseInt(s, 16)] *)

Definition isWhiteSpace (c : ascii) : bool :=
  let n := nat_of_ascii c in
  bool_decide (n = 9 \/ n = 10 \/ n = 11 \/ n = 12 \/ n = 13 \/ n = 32)%nat.

Fixpoint trimStart (s : string) : string :=
  match s with
  | String c s' => if isWhiteSpace c then trimStart s' else s
  | EmptyString => s
  end.

Definition hexDigit (c : ascii) : option N :=
  let n := N_of_ascii c in
  if bool_decide (48 ≤ n ≤ 57)%N then Some (n - 48)%N
  else if bool_decide (97 ≤ n ≤ 102)%N then Some (n - 87)%N
  else if bool_decide (65 ≤ n ≤ 70)%N then Some (n - 55)%N
  else None.

(** The value of the longest prefix of hexadecimal digits; [acc] is [None]
    as long as no digit was read. *)
Fixpoint hexPrefix (s : string) (acc : option N) : option N :=
  match s with
  | String c s' =>
      match hexDigit c with
      | Some d => hexPrefix s' (Some (16 * default 0 acc + d)%N)
      | None => acc
      end
  | EmptyString => acc
  end.

Definition parseInt16 (s : string) : number :=
  let s1 := trimStart s in
  let '(negative, s2) :=
    match s1 with
    | String "-" r => (true, r)
    | String "+" r => (false, r)
    | _ => (false, s1)
    end in
  let s3 :=
    match s2 with
    | String "0" (String "x" r) => r
    | String "0" (String "X" r) => r
    | _ => s2
    end in
  match hexPrefix s3 None with
  | None => NaN
  | Some n =>
      Num (Qc_of_Z (if negative then - Z.of_N n else Z.of_N n))
  end.

(** *** [THREE.Color.getHexString] *)

Definition hexChar (d : N) : ascii :=
  ascii_of_N (if bool_decide (d < 10)%N then 48 + d else 87 + d)%N.

(** The last six hexadecimal digits of [n] with zeros to the left:
    [('000000' + n.toString(16)).slice(-6)]. *)
Definition hex6 (n : N) : string :=
  String (hexChar (n / 1048576 mod 16)%N)
 (String (hexChar (n / 65536 mod 16)%N)
 (String (hexChar (n / 4096 mod 16)%N)
 (String (hexChar (n / 256 mod 16)%N)
 (String (hexChar (n / 16 mod 16)%N)
 (String (hexChar (n mod 16)%N) EmptyString))))).

Section Json.

(** [Color.getHex()]: the 24-bit value three.js computes for a colour. *)
Variable getHex : Color -> N.

Definition getHexString (c : Color) : string := hex6 (getHex c).

(** The conversions of strings and arrays to numbers, which belong to the
    JavaScript runtime: [Number(s)] for a string [s], and the string an
    array is first turned into. *)
Variable StringToNumber : string -> number.
Variable ArrayToString : list value -> string.

(** [Number(v)]. *)
Definition Number (v : value) : number :=
  match v with
  | VUndefined => NaN
  | VNull => lit 0
  | VBool b => if b then lit 1 else lit 0
  | VNumber n => n
  | VString s => StringToNumber s
  | VArray items => StringToNumber (ArrayToString items)
  | VObject _ => NaN
  end.

(** *** [getJsonData] (lines 365-369) *)

Definition exportVoxel (v : SimulationVoxel) : value :=
  VObject
    [ ("x"%string, VNumber (x v));
      ("y"%string, VNumber (y v));
      ("z"%string, VNumber (z v));
      ("color"%string, VString (String "#" (getHexString (color v))));
      ("stepIndex"%string, VNumber (stepIndex v)) ].

Definition getJsonData (e : Engine) : option json :=
  JSON_stringify (VArray (exportVoxel <$> voxels e)).

(** *** [handleJsonImport] ([src/App.tsx], lines 169-205) *)

Definition GRAY : number := ofZ 13421772.

(** The colour of an entry: [colorVal] is [v.c || v.color]. *)
Definition importColor (colorVal : value) : number :=
  let colorInt :=
    match colorVal with
    | VString s =>
        parseInt16 (match s with String "#" r => r | _ => s end)
    | VNumber n => n
    | _ => GRAY
    end in
  if isNaN colorInt then GRAY else colorInt.

(** [Number(f) || 0]. *)
Definition numberOrZero (f : value) : number :=
  if truthy (Number f) then Number f else lit 0.

(** The callback of [rawData.map]; [None] is a thrown [TypeError]. *)
Definition importVoxel (v : value) : option VoxelData :=
  c ← getProperty v "c";
  colorVal ← (if truthyValue c then Some c else getProperty v "color");
  fx ← getProperty v "x";
  fy ← getProperty v "y";
  fz ← getProperty v "z";
  fs ← getProperty v "stepIndex";
  Some {| d_x := numberOrZero fx;
          d_y := numberOrZero fy;
          d_z := numberOrZero fz;
          d_color := importColor colorVal;
          d_stepIndex :=
            Some (match fs with
                  | VUndefined => lit (-1)
                  | _ => Number fs
                  end) |}.

(** The [try] block up to the call of the engine: [None] when [JSON.parse]
    fails ([jsonStr] is [None]), when the value is not an array, or when
    the callback throws. *)
Definition importVoxelData (jsonStr : option json) : option (list VoxelData) :=
  match JSON_parse <$> jsonStr with
  | Some (VArray rawData) => mapM importVoxel rawData
  | _ => None
  end.

Variable random : nat -> Qc.

(** [handleJsonImport] on the engine; the [catch] branch leaves it as it
    is. *)
Definition handleJsonImport (e : Engine) (jsonStr : option json) : Engine :=
  match importVoxelData jsonStr with
  | Some voxelData => loadInitialModel random e voxelData
  | None => e
  end.

End Json.

(** ** Notions used to state the properties *)

(** Voxel [v] carries the tag [t], as the loops of [rebuildLayer] and
    [rejectLayer] test it. *)
Definition carries (t : number) (v : SimulationVoxel) : bool :=
  stepIndex v === t.

(** The indices, counted from [k], of the voxels of [vs] that carry [t]. *)
Fixpoint carriersFrom (t : number) (k : nat) (vs : list SimulationVoxel)
    : gset nat :=
  match vs with
  | [] => ∅
  | v :: vs' =>
      (if carries t v then {[k]} else ∅) ∪ carriersFrom t (S k) vs'
  end.

Definition carriers (vs : list SimulationVoxel) (t : number) : gset nat :=
  carriersFrom t 0 vs.

(** The number of voxels that carry [t]. *)
Definition tagCount (vs : list SimulationVoxel) (t : number) : nat :=
  length (filter (fun v => carries t v = true) vs).

(** All coordinates and the tag of a voxel are finite numbers. *)
Definition finiteVoxel (v : SimulationVoxel) : bool :=
  isFinite (x v) && isFinite (y v) && isFinite (z v) && isFinite (stepIndex v).

(** The three linear velocities, the three rotations and the three angular
    velocities of a voxel are zero. *)
Definition atRest (v : SimulationVoxel) : Prop :=
  vx v = lit 0 /\ vy v = lit 0 /\ vz v = lit 0 /\
  rx v = lit 0 /\ ry v = lit 0 /\ rz v = lit 0 /\
  rvx v = lit 0 /\ rvy v = lit 0 /\ rvz v = lit 0.

(** A voxel sits on its original position. *)
Definition atOriginal (v : SimulationVoxel) : Prop :=
  x v = originalX v /\ y v = originalY v /\ z v = originalZ v.

(** What [rejectLayer] for the tag [t] does to a voxel: nothing, or, when
    the voxel carries [t], the jiggle with two random numbers. *)
Definition jiggled (random : nat -> Qc) (t : number)
    (v v' : SimulationVoxel) : Prop :=
  (carries t v = false /\ v' = v) \/
  (carries t v = true /\
   exists k : nat,
     v' = setVelocity ((Num (random k) - lit 0.5) * lit 0.5) (lit 0.5)
            ((Num (random (k + 1)%nat) - lit 0.5) * lit 0.5) v).





(** The branches of [updatePhysics] that run for the voxel at index [i]. *)
Definition rubbleApplies (e : Engine) (i : nat) : bool :=
  negb (bool_decide (state e = STABLE))
  && negb (bool_decide (i ∈ activeRebuildIndices e))
  && negb (bool_decide (i ∈ rejectingIndices e)).

Definition flightApplies (e : Engine) (i : nat) : bool :=
  (bool_decide (state e = INTERACTIVE_REBUILD)
   || bool_decide (state e = REJECTING))
  && bool_decide (i ∈ activeRebuildIndices e).

Definition bounceApplies (e : Engine) (i : nat) : bool :=
  bool_decide (state e = REJECTING)
  && bool_decide (i ∈ rejectingIndices e).

(** One call of [updatePhysics], seen from the voxel at index [i]. *)
Definition tickVoxel (FLOOR_Y : number) (e : Engine) (i : nat)
    (v : SimulationVoxel) : SimulationVoxel :=
  let v1 := if rubbleApplies e i then rubble FLOOR_Y v else v in
  let v2 := if flightApplies e i then flight (rebuildTargets e) i v1 else v1 in
  if bounceApplies e i then bounce FLOOR_Y v2 else v2.

(** Position and rotation of a voxel, and a point with finite coordinates. *)
Definition position (v : SimulationVoxel) : number * number * number :=
  (x v, y v, z v).

Definition rotation (v : SimulationVoxel) : number * number * number :=
  (rx v, ry v, rz v).

Definition point (a b c : Qc) : number * number * number :=
  (Num a, Num b, Num c).


(** [n] animation frames in a row. *)
Definition frames (FLOOR_Y : number) (n : nat) (e : Engine) : Engine :=
  Nat.iter n (updatePhysics FLOOR_Y) e.

(** A voxel spec one unit above the floor [f], tagged 1, and the events
    that leave its voxel short of its target: step 0, which no voxel
    carries, is attempted, a frame passes, and step 1 is attempted. *)
Definition aboveFloor (f : Qc) : VoxelData :=
  {| d_x := lit 0; d_y := Num (f + dec 1); d_z := lit 0;
     d_color := ofZ 16711680; d_stepIndex := Some (lit 1) |}.

Definition stallEvents (f : Qc) : list Event :=
  [Call (LoadInitialModel [aboveFloor f]);
   Call (RebuildLayer (lit 0));
   Frame;
   Call (RebuildLayer (lit 1))].

(** The voxel of [aboveFloor f] as it is loaded, and the engines the
    events lead through. *)
Definition stallVoxel (f : Qc) (random : nat -> Qc) : SimulationVoxel :=
  createVoxel random 0 0 (aboveFloor f).

Definition stallLoaded (f : Qc) (random : nat -> Qc) : Engine :=
  loadInitialModel random newEngine [aboveFloor f].

Definition stallWoken (f : Qc) (random : nat -> Qc) : Engine :=
  snd (rebuildLayer (stallLoaded f random) (lit 0)).

Definition stallFallen (f : Qc) (random : nat -> Qc) : Engine :=
  updatePhysics (Num f) (stallWoken f random).

Definition stallFlying (f : Qc) (random : nat -> Qc) : Engine :=
  snd (rebuildLayer (stallFallen f random) (lit 1)).

(** Every index of the two sets is the index of a voxel. *)
Definition indicesInRange (e : Engine) : Prop :=
  forall i, i ∈ activeRebuildIndices e ∪ rejectingIndices e ->
            (i < length (voxels e))%nat.

(** The time a list of events takes. *)
Definition elapsed (evs : list Event) : nat :=
  foldr (fun ev n => match ev with Elapse ms => (ms + n)%nat | _ => n end)
        0%nat evs.

(** The second half of the description of [rejectLayer]'s timer, read
    literally.  No timer is pending when [rejectLayer] is called.  Events
    follow that take less than the delay; after the first of them,
    [before], the state is no longer [REJECTING]: a transition has changed
    it.  Then the time left to the end of the delay passes, so that the
    callback of the call is the first to fire.  The engine is then as it
    was before the callback fired. *)
Definition staleTimerIsNoOp (FLOOR_Y : number) (random : nat -> Qc) : Prop :=
  forall (w : World) (t : number) (before after : list Event) (d : nat),
    let w1 := step FLOOR_Y random w (Call (RejectLayer t)) in
    let w2 := run FLOOR_Y random w1 (before ++ after) in
    timers w = [] ->
    (elapsed (before ++ after) + d = REJECT_DELAY)%nat ->
    state (engine (run FLOOR_Y random w1 before)) <> REJECTING ->
    engine (step FLOOR_Y random w2 (Elapse d)) = engine w2.

(** The voxel spec [handleJsonImport] makes of the exported form of [v]. *)
Definition reimported (getHex : Color -> N) (v : SimulationVoxel) : VoxelData :=
  {| d_x := x v; d_y := y v; d_z := z v;
     d_color := ofZ (Z.of_N (getHex (color v)));
     d_stepIndex := Some (stepIndex v) |}.

(** [v'] has the position and the tag of [v], and its colour is made from
    the hexadecimal value of the colour of [v], with a lightness offset of
    its own. *)
Definition reproduces (getHex : Color -> N) (v v' : SimulationVoxel) : Prop :=
  x v' = x v /\ y v' = y v /\ z v' = z v /\
  stepIndex v' = stepIndex v /\
  exists l,
    color v' =
    OffsetHSL (NewColor (ofZ (Z.of_N (getHex (color v))))) (lit 0) (lit 0) l.

(** Exporting the voxels of [e] and importing the result reproduces them,
    index by index. *)
Definition roundTrip (getHex : Color -> N)
    (StringToNumber : string -> number) (ArrayToString : list value -> string)
    (random : nat -> Qc) (e : Engine) : Prop :=
  Forall2 (reproduces getHex)
    (voxels e)
    (voxels (handleJsonImport StringToNumber ArrayToString random e
               (getJsonData getHex e))).

(** The round trip as the description of [serialize] has it: for every
    engine, whatever its voxels hold. *)
Definition roundTripAlways : Prop :=
  forall getHex StringToNumber ArrayToString random,
    (forall c, (getHex c < 16777216)%N) ->
    forall e, roundTrip getHex StringToNumber ArrayToString random e.

(** ** Sample data *)

Module Sample.

Definition FLOOR_Y : number := lit (-12).

(** A constant source of random numbers, inside [0, 1). *)
Definition random (_ : nat) : Qc := dec 0.25.

Definition spec (py : Q) (tag : Q) : VoxelData :=
  {| d_x := lit 0; d_y := lit py; d_z := lit 0;
     d_color := ofZ 16711680; d_stepIndex := Some (lit tag) |}.

(** A colour model in which [offsetHSL] keeps the hexadecimal value. *)
Fixpoint getHex (c : Color) : N :=
  match c with
  | NewColor (Num q) => (Z.to_N (Qfloor q) mod 16777216)%N
  | NewColor _ => 0%N
  | OffsetHSL c' _ _ _ => getHex c'
  end.

(** Stand-ins for the two conversions of the runtime.  The sample inputs
    hold no string and no array where a number is read. *)
Definition StringToNumber (_ : string) : number := NaN.
Definition ArrayToString (_ : list value) : string := EmptyString.

(** An array of one entry whose [stepIndex] is an object, as a JSON text. *)
Definition objectTag : json :=
  JArray [JObject [("stepIndex"%string, JObject [])]].

(** The engine after that text was imported. *)
Definition importedObjectTag : Engine :=
  handleJsonImport StringToNumber ArrayToString random newEngine
    (Some objectTag).

(** An entry with all five fields; [tag] is its [stepIndex]. *)
Definition entry (tag : json) : json :=
  JObject [("x"%string, JNumber (dec 1));
           ("y"%string, JNumber (dec 2));
           ("z"%string, JNumber (dec 3));
           ("color"%string, JString "#ff0000");
           ("stepIndex"%string, tag)].

Definition imported (tag : number) : VoxelData :=
  {| d_x := lit 1; d_y := lit 2; d_z := lit 3;
     d_color := ofZ 16711680; d_stepIndex := Some tag |}.

(** A model of one voxel tagged 1; step 0, which no voxel carries, is
    attempted, one frame passes, and step 1 is attempted. *)
Definition stalled : Engine :=
  engine (run FLOOR_Y random newWorld
            [Call (LoadInitialModel [spec 5 1]);
             Call (RebuildLayer (lit 0));
             Frame;
             Call (RebuildLayer (lit 1))]).

(** The voxel of [stalled]: one frame of free fall below its original
    position, with the same [x]. *)
Definition stalledVoxel : SimulationVoxel :=
  {| id := 0;
     x := lit 0; y := lit 4.96; z := lit 0;
     color := OffsetHSL (NewColor (ofZ 16711680)) (lit 0) (lit 0) (lit (-0.0125));
     stepIndex := lit 1;
     originalX := lit 0; originalY := lit 5; originalZ := lit 0;
     vx := lit 0; vy := lit (-0.0396); vz := lit 0;
     rx := lit 0; ry := lit 0; rz := lit 0;
     rvx := lit 0; rvy := lit 0; rvz := lit 0 |}.

(** One voxel tagged 0, loaded into a new engine. *)
Definition loaded : World :=
  run FLOOR_Y random newWorld [Call (LoadInitialModel [spec 5 0])].

End Sample.

(** ** Further notions *)

(** The state and the voxel count the user interface holds after the
    notifications of [log]; it starts from [s0] and [n0]. *)
Fixpoint lastState (log : list Notification) (s0 : AppState) : AppState :=
  match log with
  | [] => s0
  | StateChange s :: log' => lastState log' s
  | CountChange _ :: log' => lastState log' s0
  end.

Fixpoint lastCount (log : list Notification) (n0 : nat) : nat :=
  match log with
  | [] => n0
  | CountChange n :: log' => lastCount log' n
  | StateChange _ :: log' => lastCount log' n0
  end.

(** [v'] is the voxel [v] as far as the fields go that only [createVoxels]
    writes. *)
Definition sameIdentity (v v' : SimulationVoxel) : Prop :=
  id v' = id v /\ color v' = color v /\ stepIndex v' = stepIndex v /\
  originalX v' = originalX v /\ originalY v' = originalY v /\
  originalZ v' = originalZ v.

(** An event other than a call of [loadInitialModel]. *)
Definition noLoad (ev : Event) : Prop :=
  match ev with
  | Call (LoadInitialModel _) => False
  | _ => True
  end.

(** The [id] of every voxel is its index in [this.voxels]. *)
Definition idsAreIndices (e : Engine) : Prop :=
  forall i v, voxels e !! i = Some v -> id v = i.

(** The user interface holds the state and the voxel count of the engine:
    [App] starts from [AppState.STABLE] and 0 and follows the two
    callbacks. *)
Definition uiInSync (e : Engine) : Prop :=
  lastState (notifications e) STABLE = state e /\
  lastCount (notifications e) 0 = length (voxels e).

(** The model stands as it was loaded: no index is in a set, no target is
    stored, every voxel is at rest on its original position. *)
Definition intact (e : Engine) : Prop :=
  activeRebuildIndices e = ∅ /\ rejectingIndices e = ∅ /\
  rebuildTargets e = [] /\
  Forall (fun v => atRest v /\ atOriginal v) (voxels e).


(** While the state is [REJECTING], a callback of [rejectLayer] is pending
    that is due within the delay. *)
Definition rejectionEnds (w : World) : Prop :=
  state (engine w) = REJECTING ->
  exists t, t ∈ timers w /\ (t <= clock w + REJECT_DELAY)%nat.

(** The voxel is not under the floor, as the rubble and the bounce branch
    test it. *)
Definition onOrAboveFloor (FLOOR_Y : number) (v : SimulationVoxel) : Prop :=
  (y v < FLOOR_Y + lit 0.5)%js = false.

(** [lo] and [hi] are the least and the greatest [y] of the voxel specs of
    [data], all of which are finite. *)
Definition verticalExtent (data : list VoxelData) (lo hi : Qc) : Prop :=
  (exists d, d ∈ data /\ d_y d = Num lo) /\
  (exists d, d ∈ data /\ d_y d = Num hi) /\
  forall d, d ∈ data -> exists q, d_y d = Num q /\ (lo <= q)%Qc /\ (q <= hi)%Qc.

(** What a wrong answer for the tag [t] does to a voxel when
    [Math.random()] is in its range: position, rotation, spin and the
    fields of [createVoxels] stay; a voxel that carries [t] gets the upward
    velocity 0.5 and horizontal velocities between -0.25 and 0.25, any
    other voxel stays as it is. *)
Definition nudged (t : number) (v v' : SimulationVoxel) : Prop :=
  position v' = position v /\ rotation v' = rotation v /\
  (rvx v', rvy v', rvz v') = (rvx v, rvy v, rvz v) /\
  sameIdentity v v' /\
  if carries t v then
    vy v' = lit 0.5 /\
    exists a b : Qc,
      vx v' = Num a /\ vz v' = Num b /\
      (- dec 0.25 <= a)%Qc /\ (a < dec 0.25)%Qc /\
      (- dec 0.25 <= b)%Qc /\ (b < dec 0.25)%Qc
  else v' = v.

(** ** [src/utils/voxelGenerators.ts] *)

Record LessonStep : Type := mkStep {
  l_text : string;
  l_color : string
}.

(** [Math.round]: the nearest integer, a half going up. *)
Definition Math_round (a : number) : number :=
  match a with
  | Num q => ofZ (Qfloor (q + (1 # 2)))
  | _ => a
  end.

(** A [Map<string, VoxelData>] in insertion order.  The key of [setBlock]
    is the text [`${rx},${ry},${rz}`], which names one triple of numbers
    only; it is kept as the triple. *)
Definition Key : Type := number * number * number.

Definition VoxelMap : Type := list (Key * VoxelData).

(** [map.set(key, value)]: a key that is present keeps its place. *)
Fixpoint Map_set (k : Key) (d : VoxelData) (map : VoxelMap) : VoxelMap :=
  match map with
  | [] => [(k, d)]
  | (k', d') :: rest =>
      if bool_decide (k' = k) then (k, d) :: rest
      else (k', d') :: Map_set k d rest
  end.

(** [Array.from(map.values())]. *)
Definition Map_values (map : VoxelMap) : list VoxelData := snd <$> map.

(** *** [setBlock] (lines 11-17); [stepIndex] is -1 when the caller gives
    none *)

Definition setBlock (map : VoxelMap) (x y z color stepIndex : number)
    : VoxelMap :=
  let rx := Math_round x in
  let ry := Math_round y in
  let rz := Math_round z in
  Map_set (rx, ry, rz)
    {| d_x := rx; d_y := ry; d_z := rz; d_color := color;
       d_stepIndex := Some stepIndex |}
    map.

(** *** [getSafeColor] (lines 20-30), on a string *)

Definition getSafeColor (colorStr : string) : number :=
  if bool_decide (colorStr = EmptyString) then GRAY
  else
    let c := match colorStr with String "#" r => r | _ => colorStr end in
    let parsed := parseInt16 c in
    if isNaN parsed then GRAY else parsed.

(** [for (let i = lo; i <= hi; i++)] over integers. *)
Definition forRange {St : Type} (lo hi : Z) (body : Z -> St -> St) (s : St)
    : St :=
  foldl (fun s i => body i s) s (seqZ lo (hi - lo + 1)).

Section Templates.

Variable FLOOR_Y : number.

(** *** [Templates.Tower] (lines 121-144) *)

Definition Tower (steps : list LessonStep) : list VoxelData :=
  let layerHeight := 3%nat in
  let radius := 4%Z in
  Map_values
    (forEach
       (fun step index map =>
          let colorInt := getSafeColor (l_color step) in
          let yStart := (index * layerHeight)%nat in
          forRange 0 (Z.of_nat layerHeight - 1)
            (fun y map =>
               let currentY := ofNat yStart + ofZ y + FLOOR_Y + lit 1 in
               forRange (- radius) radius
                 (fun x map =>
                    forRange (- radius) radius
                      (fun z map =>
                         if bool_decide (x * x + z * z <= radius * radius)%Z
                         then setBlock map (ofZ x) currentY (ofZ z) colorInt
                                (ofNat index)
                         else map)
                      map)
                 map)
            map)
       steps []).

(** *** [Templates.Pyramid] (lines 93-119) *)

(** The radius of the layers of a step: the numbers of the source are
    finite here, [totalSteps] being at least 1. *)
Definition pyramidRadius (totalSteps baseRadius index : nat) : Z :=
  let progress := (Qc_of_Z (Z.of_nat index) / Qc_of_Z (Z.of_nat totalSteps))%Qc in
  Z.max 1
    (Qfloor ((Qc_of_Z (Z.of_nat baseRadius) * (1 - progress * dec 0.8))%Qc
             + (1 # 2))).

Definition Pyramid (steps : list LessonStep) : list VoxelData :=
  let layerHeight := 3%nat in
  let totalSteps := Nat.max 1 (length steps) in
  let baseRadius := Nat.max 3 (totalSteps + 1) in
  Map_values
    (forEach
       (fun step index map =>
          let colorInt := getSafeColor (l_color step) in
          let yStart := (index * layerHeight)%nat in
          let radius := pyramidRadius totalSteps baseRadius index in
          forRange 0 (Z.of_nat layerHeight - 1)
            (fun y map =>
               let currentY := ofNat yStart + ofZ y + FLOOR_Y + lit 1 in
               let r := Z.max 1 (radius - (if (1 <? y)%Z then 1 else 0)) in
               forRange (- r) r
                 (fun x map =>
                    forRange (- r) r
                      (fun z map =>
                         setBlock map (ofZ x) currentY (ofZ z) colorInt
                           (ofNat index))
                      map)
                 map)
            map)
       steps []).

End Templates.

(** ** Notions for the generators *)

(** The position a voxel spec is stored under. *)
Definition positionOf (d : VoxelData) : Key := (d_x d, d_y d, d_z d).

(** The maps that calls of [setBlock] make of a new [Map]. *)
Inductive built : VoxelMap -> Prop :=
  | built_new : built []
  | built_setBlock (map : VoxelMap) (x y z color stepIndex : number) :
      built map -> built (setBlock map x y z color stepIndex).

(** The voxel spec [setBlock] stores. *)
Definition blockAt (x y z color stepIndex : number) : VoxelData :=
  {| d_x := Math_round x; d_y := Math_round y; d_z := Math_round z;
     d_color := color; d_stepIndex := Some stepIndex |}.

(** The cells [(x, z)] of a layer, in the order of the loops: the disc of
    the tower and the square of the pyramid. *)
Definition disc (radius : Z) : list (Z * Z) :=
  x ← seqZ (- radius) (radius - - radius + 1);
  z ← seqZ (- radius) (radius - - radius + 1);
  if bool_decide (x * x + z * z <= radius * radius)%Z then [(x, z)] else [].

Definition square (r : Z) : list (Z * Z) :=
  x ← seqZ (- r) (r - - r + 1);
  z ← seqZ (- r) (r - - r + 1);
  [(x, z)].

(** The height of layer [y] of step [index], before [setBlock] rounds it. *)
Definition currentY (FLOOR_Y : number) (index : nat) (y : Z) : number :=
  (ofNat (index * 3) + ofZ y + FLOOR_Y + lit 1)%js.

(** The voxel specs of layer [y] of step [index] over [cells]. *)
Definition layer (FLOOR_Y : number) (cells : list (Z * Z)) (colorInt : number)
    (index : nat) (y : Z) : list VoxelData :=
  (fun c => blockAt (ofZ (fst c)) (currentY FLOOR_Y index y) (ofZ (snd c))
              colorInt (ofNat index)) <$> cells.

(** The three layers of a step of a template whose layers have the cells
    [cellsOf index y]. *)
Definition stepBlocks (FLOOR_Y : number) (cellsOf : nat -> Z -> list (Z * Z))
    (index : nat) (step : LessonStep) : list VoxelData :=
  y ← seqZ 0 3;
  layer FLOOR_Y (cellsOf index y) (getSafeColor (l_color step)) index y.

(** The map a template builds whose layers have the cells
    [cellsOf index y]. *)
Definition layered (FLOOR_Y : number) (cellsOf : nat -> Z -> list (Z * Z))
    (steps : list LessonStep) : VoxelMap :=
  forEach
    (fun step index map =>
       forRange 0 2
         (fun y map =>
            foldl (fun map c =>
                     setBlock map (ofZ (fst c)) (currentY FLOOR_Y index y)
                       (ofZ (snd c)) (getSafeColor (l_color step))
                       (ofNat index))
                  map (cellsOf index y))
         map)
    steps [].

Definition towerCells (index : nat) (y : Z) : list (Z * Z) := disc 4.

Definition pyramidCells (n : nat) (index : nat) (y : Z) : list (Z * Z) :=
  let totalSteps := Nat.max 1 n in
  let baseRadius := Nat.max 3 (totalSteps + 1) in
  square (Z.max 1 (pyramidRadius totalSteps baseRadius index
                   - (if (1 <? y)%Z then 1 else 0))).

(** The calls [map.set] of the blocks [ds], one after the other. *)
Definition setAll (map : VoxelMap) (ds : list VoxelData) : VoxelMap :=
  foldl (fun map d => Map_set (positionOf d) d map) map ds.

(** The height [Math.round] gives the layers above a finite floor [f]:
    layer [k] lies at [k + floorLevel f]. *)
Definition floorLevel (f : Qc) : Z := Qfloor (f + 1 + (1 # 2)).

(** The tag of the voxel that [createVoxels] makes of a spec. *)
Definition tagOf (d : VoxelData) : number :=
  match d_stepIndex d with Some s => s | None => lit (-1) end.

(** The key of the cell [c] at the height [h]. *)
Definition cellKey (h : Z) (c : Z * Z) : Key := (ofZ (fst c), ofZ h, ofZ (snd c)).

(** The keys of the blocks of step [index] above the finite floor [f]. *)
Definition stepKeys (f : Qc) (cellsOf : nat -> Z -> list (Z * Z)) (index : nat)
    : list Key :=
  y ← seqZ 0 3;
  cellKey (Z.of_nat (index * 3) + y + floorLevel f) <$> cellsOf index y.

(** ** [src/App.tsx]: the lesson game *)

Record SavedModel : Type := mkSavedModel {
  m_name : string;
  m_data : list VoxelData;
  m_steps : option (list LessonStep)
}.

(** [new Set(steps.map((_, i) => i))]. *)
Definition allSteps (steps : list LessonStep) : gset nat :=
  list_to_set (seq 0 (length steps)).

Module App.

(** The engine of [engineRef], with its clock and timers, and the React
    state of [App] that the game reads and writes.  The handlers run one
    at a time, each on the state the one before has left.  The state that
    only the menus and the dialogs show ([currentBaseModel], [customBuilds],
    [jsonData] and the flags) is left out. *)
Record State : Type := mkState {
  world : World;
  lessonSteps : list LessonStep;
  currentStepIndex : nat;
  completedSteps : gset nat;
  shuffledOptions : list nat
}.

(** [appState] and [voxelCount]: what the two callbacks of the engine
    have set last. *)
Definition appState (a : State) : AppState :=
  lastState (notifications (engine (world a))) STABLE.

Definition voxelCount (a : State) : nat :=
  lastCount (notifications (engine (world a))) 0.

(** Calls of [Math.random()] made outside the engine use up [n] values. *)
Definition drawRandom (n : nat) (w : World) : World :=
  {| engine :=
       {| voxels := voxels (engine w);
          rebuildTargets := rebuildTargets (engine w);
          activeRebuildIndices := activeRebuildIndices (engine w);
          rejectingIndices := rejectingIndices (engine w);
          state := state (engine w);
          controlsTargetY := controlsTargetY (engine w);
          notifications := notifications (engine w);
          randomCalls := (randomCalls (engine w) + n)%nat |};
     clock := clock w;
     timers := timers w |}.

Section Handlers.

Variable FLOOR_Y : number.
Variable random : nat -> Qc.

(** [Templates.Spiral], which turns its arms with [Math.cos] and
    [Math.sin]. *)
Variable Spiral : list LessonStep -> list VoxelData.

Variable StringToNumber : string -> number.
Variable ArrayToString : list value -> string.

Definition call (c : Command) (w : World) : World :=
  step FLOOR_Y random w (Call c).

(** The state after the effect that runs once: the engine has loaded
    [Generators.Eagle()], whose value is [eagle] and which has called
    [Math.random()] [draws] times. *)
Definition mounted (eagle : list VoxelData) (draws : nat) : State :=
  {| world := call (LoadInitialModel eagle) (drawRandom draws newWorld);
     lessonSteps := [];
     currentStepIndex := 0;
     completedSteps := ∅;
     shuffledOptions := [] |}.

(** [handleDismantle] (lines 95-105); [order] is the array that
    [indices.sort(() => Math.random() - 0.5)] returns, after [draws] calls
    of [Math.random()]. *)
Definition handleDismantle (draws : nat) (order : list nat) (a : State) : State :=
  {| world := drawRandom draws (call Dismantle (world a));
     lessonSteps := lessonSteps a;
     currentStepIndex := 0;
     completedSteps := ∅;
     shuffledOptions := order |}.

(** [handleNewScene] (lines 107-116) for the value [eagle] of
    [Generators.Eagle()]. *)
Definition handleNewScene (eagle : list VoxelData) (draws : nat) (a : State)
    : State :=
  {| world := call (LoadInitialModel eagle) (drawRandom draws (world a));
     lessonSteps := [];
     currentStepIndex := currentStepIndex a;
     completedSteps := ∅;
     shuffledOptions := [] |}.

(** [handleSelectCustomBuild] (lines 118-130). *)
Definition handleSelectCustomBuild (model : SavedModel) (a : State) : State :=
  {| world := call (LoadInitialModel (m_data model)) (world a);
     lessonSteps := default [] (m_steps model);
     currentStepIndex :=
       match m_steps model with
       | Some steps => length steps
       | None => currentStepIndex a
       end;
     completedSteps :=
       match m_steps model with
       | Some steps => allSteps steps
       | None => ∅
       end;
     shuffledOptions := shuffledOptions a |}.

(** [handleStepClick] (lines 132-154), with the value it returns. *)
Definition handleStepClick (clickedIndex : nat) (a : State) : bool * State :=
  if bool_decide (clickedIndex ∈ completedSteps a) then (true, a)
  else if bool_decide (clickedIndex = currentStepIndex a) then
    (true,
     {| world := call (RebuildLayer (ofNat clickedIndex)) (world a);
        lessonSteps := lessonSteps a;
        currentStepIndex := (currentStepIndex a + 1)%nat;
        completedSteps := completedSteps a ∪ {[clickedIndex]};
        shuffledOptions := shuffledOptions a |})
  else
    (false,
     {| world := call (RejectLayer (ofNat clickedIndex)) (world a);
        lessonSteps := lessonSteps a;
        currentStepIndex := currentStepIndex a;
        completedSteps := completedSteps a;
        shuffledOptions := shuffledOptions a |}).

(** [handleJsonImport] (lines 169-205) on the whole state. *)
Definition handleJsonImport (jsonStr : option json) (a : State) : State :=
  match importVoxelData StringToNumber ArrayToString jsonStr with
  | Some voxelData =>
      {| world := call (LoadInitialModel voxelData) (world a);
         lessonSteps := [];
         currentStepIndex := currentStepIndex a;
         completedSteps := ∅;
         shuffledOptions := [] |}
  | None => a
  end.

(** [Templates[styleKeys[Math.floor(r * styleKeys.length)]]
    || Templates.Tower] for the value [r] of [Math.random()]. *)
Definition templateFn (r : Qc) : list LessonStep -> list VoxelData :=
  match Qfloor (r * 3) with
  | 0%Z => Pyramid FLOOR_Y
  | 1%Z => Tower FLOOR_Y
  | 2%Z => Spiral
  | _ => Tower FLOOR_Y
  end.

(** [loadLessonFromSteps] (lines 338-363). *)
Definition loadLessonFromSteps (steps : list LessonStep) (a : State) : State :=
  let r := random (randomCalls (engine (world a))) in
  let voxelData := templateFn r steps in
  {| world := call (LoadInitialModel voxelData) (drawRandom 1 (world a));
     lessonSteps := steps;
     currentStepIndex := length steps;
     completedSteps := allSteps steps;
     shuffledOptions := [] |}.

(** What happens to the application: a click that [UIOverlay] passes to a
    handler, a lesson that [handlePromptSubmit] has received, or an event
    of the engine. *)
Inductive Action : Type :=
  | Deconstruct (draws : nat) (order : list nat)
  | Card (stepIndex : nat)
  | DemoEagle (eagle : list VoxelData) (draws : nat)
  | SelectBuild (model : SavedModel)
  | ImportJson (jsonStr : option json)
  | Lesson (steps : list LessonStep)
  | Engine (ev : Event).

Definition act (a : State) (action : Action) : State :=
  match action with
  | Deconstruct draws order => handleDismantle draws order a
  | Card stepIndex => snd (handleStepClick stepIndex a)
  | DemoEagle eagle draws => handleNewScene eagle draws a
  | SelectBuild model => handleSelectCustomBuild model a
  | ImportJson jsonStr => handleJsonImport jsonStr a
  | Lesson steps => loadLessonFromSteps steps a
  | Engine ev =>
      {| world := step FLOOR_Y random (world a) ev;
         lessonSteps := lessonSteps a;
         currentStepIndex := currentStepIndex a;
         completedSteps := completedSteps a;
         shuffledOptions := shuffledOptions a |}
  end.

(** What [UIOverlay] renders: the button DECONSTRUCT while the state is
    [STABLE] and there is a lesson; the cards of [shuffledOptions] that are
    not completed while the state is [DISMANTLING], [INTERACTIVE_REBUILD]
    or [REJECTING] and there is a lesson.  The array that [sort] returns
    holds the indices of the steps in some order.  The engine calls no
    command by itself. *)
Definition offered (a : State) (action : Action) : Prop :=
  match action with
  | Deconstruct _ order =>
      appState a = STABLE /\ (0 < length (lessonSteps a))%nat /\
      order ≡ₚ seq 0 (length (lessonSteps a))
  | Card stepIndex =>
      (appState a = DISMANTLING \/ appState a = INTERACTIVE_REBUILD \/
       appState a = REJECTING) /\
      (0 < length (lessonSteps a))%nat /\
      stepIndex ∈ shuffledOptions a /\ stepIndex ∉ completedSteps a
  | Engine (Call _) => False
  | _ => True
  end.

(** The states that actions the interface offers lead to. *)
Inductive reachable : State -> Prop :=
  | reachable_mounted (eagle : list VoxelData) (draws : nat) :
      reachable (mounted eagle draws)
  | reachable_act (a : State) (action : Action) :
      reachable a -> offered a action -> reachable (act a action).

End Handlers.

End App.

(** The voxels of the active set are those of the completed steps, and no
    voxel of a completed step is in the rejecting set. *)
Definition activeFollows (completed : gset nat) (e : Engine) : Prop :=
  (forall k, k ∈ activeRebuildIndices e <->
             exists i, i ∈ completed /\ k ∈ carriers (voxels e) (ofNat i)) /\
  (forall k i, k ∈ rejectingIndices e -> i ∈ completed ->
               k ∉ carriers (voxels e) (ofNat i)).

Definition activeAreCompleted (a : App.State) : Prop :=
  activeFollows (App.completedSteps a) (engine (App.world a)).

(** The completed steps are the steps before [currentStepIndex], which
    does not exceed the number of steps. *)
Definition progressIsPrefix (a : App.State) : Prop :=
  (forall i, i ∈ App.completedSteps a <-> (i < App.currentStepIndex a)%nat) /\
  (App.currentStepIndex a <= length (App.lessonSteps a))%nat.

(** What holds of every state of the game: the interface shows the state
    of the engine; while the state is [STABLE] both index sets are empty;
    otherwise there is a lesson, whose cards are those of its steps, and
    the active set follows the completed steps. *)
Definition engineInvariant (completed : gset nat) (e : Engine) : Prop :=
  uiInSync e /\
  (state e = STABLE ->
   activeRebuildIndices e = ∅ /\ rejectingIndices e = ∅) /\
  (state e <> STABLE -> activeFollows completed e).

Definition gameInvariant (a : App.State) : Prop :=
  engineInvariant (App.completedSteps a) (engine (App.world a)) /\
  (state (engine (App.world a)) <> STABLE ->
   App.shuffledOptions a ≡ₚ seq 0 (length (App.lessonSteps a)) /\
   (0 < length (App.lessonSteps a))%nat) /\
  ((0 < length (App.lessonSteps a))%nat -> progressIsPrefix a).

(** A game on a saved lesson of two steps with one voxel each: the build
    is selected and deconstructed, the card of the second step is clicked
    first, then the card of the first step. *)
Module Demo.

Definition steps : list LessonStep :=
  [ {| l_text := "Define"; l_color := "#E74C3C" |};
    {| l_text := "Review"; l_color := "#3498DB" |} ].

Definition model : SavedModel :=
  {| m_name := "Demo";
     m_data := [Sample.spec 5 0; Sample.spec 6 1];
     m_steps := Some steps |}.

Definition Spiral (_ : list LessonStep) : list VoxelData := [].

Definition act : App.State -> App.Action -> App.State :=
  App.act Sample.FLOOR_Y Sample.random Spiral
    Sample.StringToNumber Sample.ArrayToString.

Definition opened : App.State :=
  act (App.mounted Sample.FLOOR_Y Sample.random [] 0) (App.SelectBuild model).

Definition scattered : App.State := act opened (App.Deconstruct 3 [1; 0]%nat).

Definition wrong : App.State := act scattered (App.Card 1).

Definition right : App.State := act wrong (App.Card 0).

End Demo.


(** An entry that is neither [null] nor an object. *)
Definition plainEntry (j : json) : Prop :=
  match j with
  | JNull | JObject _ => False
  | _ => True
  end.

(** The voxel spec of an entry without properties. *)
Definition defaultVoxel : VoxelData :=
  {| d_x := lit 0; d_y := lit 0; d_z := lit 0; d_color := GRAY;
     d_stepIndex := Some (lit (-1)) |}.

(** ** [findJsonPayload] ([src/App.tsx], lines 222-254) *)

(** [braceCount] after the character [c]. *)
Definition countBrace (braceCount : Z) (c : ascii) : Z :=
  if bool_decide (c = "{"%char) then (braceCount + 1)%Z
  else if bool_decide (c = "}"%char) then (braceCount - 1)%Z
  else braceCount.

(** [text.indexOf('{')] on the characters of the text; [None] is -1. *)
Fixpoint indexOfBrace (text : list ascii) : option nat :=
  match text with
  | [] => None
  | c :: rest =>
      if bool_decide (c = "{"%char) then Some 0%nat
      else S <$> indexOfBrace rest
  end.

(** The loop of [findJsonPayload] over the characters from [i] on, entered
    with the count [braceCount]: the [endIndex] at which it breaks, [None]
    when it runs to the end of the text. *)
Fixpoint scanBraces (text : list ascii) (i : nat) (braceCount : Z)
    : option nat :=
  match text with
  | [] => None
  | c :: rest =>
      let braceCount := countBrace braceCount c in
      if bool_decide (braceCount = 0%Z) then Some i
      else scanBraces rest (S i) braceCount
  end.

Section Payload.

(** [JSON.parse] on the characters of a text; [None] when it throws. *)
Variable parseText : list ascii -> option value.

Definition findJsonPayload (text : list ascii) : value :=
  match parseText text with
  | Some parsed => parsed
  | None =>
      match indexOfBrace text with
      | None => VNull
      | Some startIndex =>
          match scanBraces (drop startIndex text) startIndex 0 with
          | Some endIndex =>
              let jsonStr :=
                take (endIndex + 1 - startIndex) (drop startIndex text) in
              match parseText jsonStr with
              | Some parsed => parsed
              | None => VNull
              end
          | None => VNull
          end
      end
  end.

End Payload.

(** The excess of [{] over [}] in a text. *)
Definition depth (text : list ascii) : Z := foldl countBrace 0%Z text.

(** [cand] starts with [{] and ends where its braces balance for the first
    time. *)
Definition firstBalanced (cand : list ascii) : Prop :=
  head cand = Some "{"%char /\
  depth cand = 0%Z /\
  forall p q, cand = p ++ q -> p <> [] -> q <> [] -> depth p <> 0%Z.

(** [cand] is the piece of [text] from its first [{] to the [}] that
    balances it. *)
Definition payloadText (text cand : list ascii) : Prop :=
  exists pre post,
    text = pre ++ cand ++ post /\ ("{"%char ∉ pre) /\ firstBalanced cand.

(** A [JSON.parse] that knows the text of the empty object only. *)
Definition parseEmptyObject (text : list ascii) : option value :=
  if bool_decide (text = ["{"; "}"]%char) then Some (VObject []) else None.

(** * Properties *)

(** ** Numbers *)

Lemma Qcltb_true (a b : Qc) : Qcltb a b = true <-> (a < b)%Qc.
Proof.
  unfold Qcltb. rewrite Qclt_alt. destruct (a ?= b)%Qc; intuition congruence.
Qed.

Lemma Qceqb_true (a b : Qc) : Qceqb a b = true <-> a = b.
Proof.
  unfold Qceqb. rewrite Qceq_alt. destruct (a ?= b)%Qc; intuition congruence.
Qed.

Lemma Qceqb_refl (a : Qc) : Qceqb a a = true.
Proof. by apply Qceqb_true. Qed.

Lemma strictEq_true (a b : number) :
  (a === b) = true <-> a = b /\ isNaN a = false.
Proof.
  destruct a as [p| |s], b as [q| |s']; simpl;
    rewrite ?Qceqb_true; try (intuition congruence).
  destruct s, s'; simpl; intuition congruence.
Qed.

Lemma strictEq_finite (a : Qc) (b : number) :
  (Num a === b) = true <-> b = Num a.
Proof. rewrite strictEq_true. simpl. intuition congruence. Qed.

(** ** Loops over the voxel array *)

Lemma elem_of_carriersFrom (t : number) (vs : list SimulationVoxel) (k i : nat) :
  i ∈ carriersFrom t k vs <->
  exists v, (k ≤ i)%nat /\ vs !! (i - k)%nat = Some v /\ carries t v = true.
Proof.
  revert k. induction vs as [|v vs IH]; intros k; simpl.
  - split; [set_solver|]. intros (v & _ & H & _). by rewrite lookup_nil in H.
  - rewrite elem_of_union, IH. split.
    + intros [Hi | (w & Hle & Hw & Hc)].
      * destruct (carries t v) eqn:Hc; [|set_solver].
        apply elem_of_singleton in Hi as ->. exists v.
        by rewrite Nat.sub_diag.
      * exists w. split; [lia|]. split; [|done].
        by replace (i - k)%nat with (S (i - S k)) by lia.
    + intros (w & Hle & Hw & Hc).
      destruct (decide (i = k)) as [->|Hne].
      * rewrite Nat.sub_diag in Hw. simpl in Hw. injection Hw as ->.
        left. rewrite Hc. set_solver.
      * right. exists w. split; [lia|]. split; [|done].
        by replace (i - k)%nat with (S (i - S k)) in Hw by lia.
Qed.

Lemma elem_of_carriers (vs : list SimulationVoxel) (t : number) (i : nat) :
  i ∈ carriers vs t <-> exists v, vs !! i = Some v /\ carries t v = true.
Proof.
  unfold carriers. rewrite elem_of_carriersFrom. rewrite Nat.sub_0_r.
  split; [intros (v & _ & H); eauto | intros (v & H); exists v; split; [lia|done]].
Qed.

Lemma size_carriersFrom (t : number) (vs : list SimulationVoxel) (k : nat) :
  size (carriersFrom t k vs) = tagCount vs t.
Proof.
  revert k. induction vs as [|v vs IH]; intros k; cbn [carriersFrom].
  - apply size_empty.
  - unfold tagCount in *. rewrite filter_cons.
    destruct (carries t v) eqn:Hc.
    + rewrite decide_True by done. cbn [length].
      rewrite size_union, size_singleton, IH; [done|].
      intros i Hi Hi'. apply elem_of_singleton in Hi as ->.
      apply elem_of_carriersFrom in Hi' as (? & ? & _). lia.
    + rewrite decide_False by (by intros ?). 
      rewrite (left_id_L ∅ (∪)). apply IH.
Qed.

Lemma size_carriers (vs : list SimulationVoxel) (t : number) :
  size (carriers vs t) = tagCount vs t.
Proof. apply size_carriersFrom. Qed.

Lemma rebuildLoop_spec (t : number) (vs : list SimulationVoxel)
    (k : nat) (A R : gset nat) (found : nat) :
  forEachFrom (rebuildBody t) k vs (A, R, found) =
  (carriersFrom t k vs ∪ A, R ∖ carriersFrom t k vs,
   (found + tagCount vs t)%nat).
Proof.
  revert k A R found.
  induction vs as [|v vs IH]; intros k A R found;
    cbn [forEachFrom carriersFrom].
  - unfold tagCount. cbn [filter list_filter length].
    rewrite (left_id_L ∅ (∪)), difference_empty_L. f_equal. lia.
  - unfold rebuildBody at 2. fold (carries t v). unfold tagCount in *.
    rewrite filter_cons. destruct (carries t v) eqn:Hc.
    + rewrite IH, decide_True by done. cbn [length].
      f_equal; [f_equal|]; [set_solver|set_solver|lia].
    + rewrite IH, decide_False by (by intros ?).
      rewrite (left_id_L ∅ (∪)). reflexivity.
Qed.

Lemma Forall2_imap_r {A B : Type} (P : A -> B -> Prop)
    (f : nat -> A -> B) (l : list A) :
  (forall i a, l !! i = Some a -> P a (f i a)) -> Forall2 P l (imap f l).
Proof.
  revert f. induction l as [|a l IH]; intros f Hf; simpl.
  - constructor.
  - constructor.
    + by apply (Hf 0%nat).
    + apply IH. intros i b Hb. by apply (Hf (S i)).
Qed.

(** ** Loading a model *)

Section Load.

Variable random : nat -> Qc.

Lemma createVoxel_atOriginal (k i : nat) (d : VoxelData) :
  atOriginal (createVoxel random k i d).
Proof. by repeat split. Qed.

Lemma createVoxel_atRest (k i : nat) (d : VoxelData) :
  atRest (createVoxel random k i d).
Proof. by repeat split. Qed.

Lemma loadInitialModel_voxels (e : Engine) (data : list VoxelData) :
  voxels (loadInitialModel random e data) =
  imap (createVoxel random (randomCalls e)) data.
Proof. reflexivity. Qed.

End Load.

(** C3. For every list [data] of voxel specs, of any length, and every
    engine, [loadInitialModel] leaves as many voxels as there are specs and
    reports that count, sets the state to [STABLE] and reports it, empties
    the active and the rejecting set, numbers the voxels from 0 in order, and
    gives each voxel the position of its spec as position and as original
    position, with all velocities, rotations and angular velocities zero. *)
Theorem loadInitialModel_resets (random : nat -> Qc) (e : Engine)
    (data : list VoxelData) :
  let e' := loadInitialModel random e data in
  length (voxels e') = length data /\
  notifications e' =
    notifications e ++ [CountChange (length data); StateChange STABLE] /\
  state e' = STABLE /\
  activeRebuildIndices e' = ∅ /\
  rejectingIndices e' = ∅ /\
  rebuildTargets e' = [] /\
  (forall i v, voxels e' !! i = Some v -> id v = i) /\
  Forall2
    (fun d v =>
       x v = d_x d /\ y v = d_y d /\ z v = d_z d /\
       atOriginal v /\ atRest v)
    data (voxels e').
Proof.
  cbn zeta. rewrite loadInitialModel_voxels.
  split; [apply length_imap|].
  split; [cbn; by rewrite length_imap|].
  do 4 (split; [reflexivity|]).
  split.
  - intros i v Hv. rewrite list_lookup_imap in Hv.
    destruct (data !! i) as [d|]; [|done]. by injection Hv as <-.
  - apply Forall2_imap_r. intros i d _.
    split; [done|]. split; [done|]. split; [done|].
    split; [apply createVoxel_atOriginal | apply createVoxel_atRest].
Qed.

(** ** Attempting a step *)

Lemma rebuildLayer_unfold (e : Engine) (t : number) :
  rebuildLayer e t =
  (bool_decide (0 < tagCount (voxels e) t)%nat,
   {| voxels := voxels e;
      rebuildTargets := rebuildTargets e;
      activeRebuildIndices := carriers (voxels e) t ∪ activeRebuildIndices e;
      rejectingIndices := rejectingIndices e ∖ carriers (voxels e) t;
      state := INTERACTIVE_REBUILD;
      controlsTargetY := controlsTargetY e;
      notifications := notifications e ++ [StateChange INTERACTIVE_REBUILD];
      randomCalls := randomCalls e |}).
Proof.
  unfold rebuildLayer, forEach. cbn [setState voxels activeRebuildIndices
    rejectingIndices]. by rewrite rebuildLoop_spec.
Qed.

(** C2. Let [M] be the number of voxels that carry the tag [t], and [C] the
    set of their indices (which has [M] elements).  If [M > 0],
    [rebuildLayer] returns [true], the active set becomes the old one
    together with [C], and the rejecting set the old one without [C].  If
    [M = 0] it returns [false] and both sets are as before. *)
Theorem rebuildLayer_sets (e : Engine) (t : number) :
  let M := tagCount (voxels e) t in
  let C := carriers (voxels e) t in
  let r := rebuildLayer e t in
  size C = M /\
  (forall i, i ∈ C <->
      exists v, voxels e !! i = Some v /\ (stepIndex v === t) = true) /\
  ((0 < M)%nat ->
     fst r = true /\
     activeRebuildIndices (snd r) = activeRebuildIndices e ∪ C /\
     rejectingIndices (snd r) = rejectingIndices e ∖ C) /\
  (M = 0%nat ->
     fst r = false /\
     activeRebuildIndices (snd r) = activeRebuildIndices e /\
     rejectingIndices (snd r) = rejectingIndices e).
Proof.
  cbn zeta. rewrite rebuildLayer_unfold. cbn [fst snd activeRebuildIndices
    rejectingIndices].
  split; [apply size_carriers|].
  split; [apply elem_of_carriers|].
  split.
  - intros HM. split; [by apply bool_decide_eq_true|].
    split; [apply (comm_L (∪))|done].
  - intros HM.
    assert (carriers (voxels e) t = ∅) as ->.
    { apply leibniz_equiv, size_empty_inv. by rewrite size_carriers. }
    rewrite HM. split; [done|].
    split; [apply (left_id_L ∅ (∪))|apply difference_empty_L].
Qed.

Lemma rebuildLayer_sets_witness :
  fst (rebuildLayer
         (loadInitialModel Sample.random newEngine
            [Sample.spec 5 0; Sample.spec 6 1; Sample.spec 7 0])
         (lit 0)) = true.
Proof.
  apply rebuildLayer_sets. vm_compute. lia.
Defined.

(** C10. For every engine, whatever its state, and every tag,
    [rebuildLayer] sets the state to [INTERACTIVE_REBUILD] and reports that
    state once; its result is [true] exactly when some voxel carries the
    tag, so for a tag no voxel carries it returns [false] and has changed
    the state all the same. *)
Theorem rebuildLayer_forces_state (e : Engine) (t : number) :
  state (snd (rebuildLayer e t)) = INTERACTIVE_REBUILD /\
  notifications (snd (rebuildLayer e t)) =
    notifications e ++ [StateChange INTERACTIVE_REBUILD] /\
  fst (rebuildLayer e t) = bool_decide (0 < tagCount (voxels e) t)%nat.
Proof. by rewrite rebuildLayer_unfold. Qed.

(** ** Arithmetic on canonical rationals *)

(** Restates a goal on [Qc] over [Q], where [lra] and [ring] work. *)
Ltac qc2q :=
  unfold Qcle, Qclt, Qcminus, Qcdiv, dec in *;
  cbn [this Qcplus Qcmult Qcopp Q2Qc] in *;
  repeat match goal with
  | H : context [Qred _] |- _ => rewrite !Qred_correct in H
  end;
  rewrite ?Qred_correct.

Lemma pop_is_upward (r : Qc) : (0 <= r)%Qc -> (dec 0.5 <= r * dec 1.5 + dec 0.5)%Qc.
Proof. intros Hr. qc2q. lra. Qed.

Lemma Num_inj (a b : Qc) : Num a = Num b -> a = b.
Proof. congruence. Qed.

(** ** Dismantling *)

Section Dismantle.

Variable random : nat -> Qc.

Lemma dismantle_stable (e : Engine) :
  state e = STABLE ->
  dismantle random e =
  {| voxels :=
       imap (fun i v => explode random (randomCalls e + 6 * i)%nat v) (voxels e);
     rebuildTargets := originalTarget <$> voxels e;
     activeRebuildIndices := ∅;
     rejectingIndices := ∅;
     state := DISMANTLING;
     controlsTargetY := controlsTargetY e;
     notifications := notifications e ++ [StateChange DISMANTLING];
     randomCalls := (randomCalls e + 6 * length (voxels e))%nat |}.
Proof.
  intros H. unfold dismantle.
  by rewrite bool_decide_eq_false_2 by (by rewrite H; intros ?).
Qed.

Lemma dismantle_not_stable (e : Engine) :
  state e <> STABLE -> dismantle random e = e.
Proof. intros H. unfold dismantle. by rewrite bool_decide_eq_true_2. Qed.

End Dismantle.

(** C4. Let [random] yield numbers in [0, 1).  In state [STABLE],
    [dismantle] sets the state to [DISMANTLING] and, for the voxel at every
    index [i], draws six random numbers: its velocity becomes
    [((r0 - 0.5) * 2, r1 * 1.5 + 0.5, (r2 - 0.5) * 2)], whose vertical part
    is at least 0.5, so the velocity is not zero; its angular velocity
    becomes [(r3 - 0.5) * 0.4], [(r4 - 0.5) * 0.4], [(r5 - 0.5) * 0.4]; and
    its rebuild target is its original position, which is unchanged.  In
    every other state [dismantle] returns the engine as it is. *)
Theorem dismantle_from_stable (random : nat -> Qc)
    (Hrandom : forall n, (0 <= random n)%Qc /\ (random n < 1)%Qc) (e : Engine) :
  let e' := dismantle random e in
  (state e = STABLE ->
     state e' = DISMANTLING /\
     length (voxels e') = length (voxels e) /\
     forall i v, voxels e !! i = Some v ->
       let k := (randomCalls e + 6 * i)%nat in
       exists v' t q,
         voxels e' !! i = Some v' /\
         rebuildTargets e' !! i = Some t /\
         vx v' = (Num (random k) - lit 0.5) * lit 2 /\
         vy v' = Num q /\ (dec 0.5 <= q)%Qc /\
         vz v' = (Num (random (k + 2)%nat) - lit 0.5) * lit 2 /\
         (vx v', vy v', vz v') <> (lit 0, lit 0, lit 0) /\
         rvx v' = (Num (random (k + 3)%nat) - lit 0.5) * lit 0.4 /\
         rvy v' = (Num (random (k + 4)%nat) - lit 0.5) * lit 0.4 /\
         rvz v' = (Num (random (k + 5)%nat) - lit 0.5) * lit 0.4 /\
         (t_x t, t_y t, t_z t) = (originalX v', originalY v', originalZ v') /\
         (originalX v', originalY v', originalZ v') =
           (originalX v, originalY v, originalZ v)) /\
  (state e <> STABLE -> e' = e).
Proof.
  cbn zeta. split; [|apply dismantle_not_stable].
  intros Hs. rewrite (dismantle_stable random e Hs).
  cbn [state voxels rebuildTargets].
  split; [done|]. split; [apply length_imap|].
  intros i v Hv.
  exists (explode random (randomCalls e + 6 * i)%nat v), (originalTarget v),
    (random (randomCalls e + 6 * i + 1)%nat * dec 1.5 + dec 0.5)%Qc.
  rewrite list_lookup_imap, list_lookup_fmap, Hv.
  assert (dec 0.5 <= random (randomCalls e + 6 * i + 1)%nat * dec 1.5 + dec 0.5)%Qc
    as Hup by apply pop_is_upward, Hrandom.
  repeat split; try done.
  intros Heq. apply (f_equal (fun p => snd (fst p))) in Heq.
  change (Num (random (randomCalls e + 6 * i + 1)%nat * dec 1.5 + dec 0.5)%Qc
          = Num (dec 0)) in Heq.
  apply Num_inj in Heq. rewrite Heq in Hup. revert Hup. by vm_compute.
Qed.

Lemma dismantle_from_stable_witness :
  state (dismantle Sample.random
           (loadInitialModel Sample.random newEngine [Sample.spec 5 0])) =
  DISMANTLING.
Proof.
  apply dismantle_from_stable.
  - intros n. split; by vm_compute.
  - reflexivity.
Defined.

(** ** One frame, voxel by voxel *)

Lemma lookup_foldl_alter {A : Type} (body : nat -> A -> A) (l : list nat)
    (vs : list A) (j : nat) :
  NoDup l ->
  foldl (fun vs i => alter (body i) i vs) vs l !! j =
  if decide (j ∈ l) then body j <$> vs !! j else vs !! j.
Proof.
  intros Hl. revert vs.
  induction Hl as [|a l Ha Hl IH]; intros vs; cbn [foldl].
  - rewrite decide_False; [done|]. apply not_elem_of_nil.
  - rewrite IH. destruct (decide (j = a)) as [->|Hne].
    + rewrite decide_False by done.
      rewrite decide_True by (apply elem_of_cons; by left).
      apply list_lookup_alter_eq.
    + rewrite list_lookup_alter_ne by done.
      destruct (decide (j ∈ l)) as [Hj|Hj].
      * rewrite decide_True; [done|]. apply elem_of_cons; by right.
      * rewrite decide_False; [done|].
        intros [?|?]%elem_of_cons; contradiction.
Qed.

Lemma lookup_forEachIndex (body : nat -> SimulationVoxel -> SimulationVoxel)
    (s : gset nat) (vs : list SimulationVoxel) (j : nat) :
  forEachIndex body s vs !! j =
  if bool_decide (j ∈ s) then body j <$> vs !! j else vs !! j.
Proof.
  unfold forEachIndex.
  rewrite lookup_foldl_alter by apply NoDup_elements.
  destruct (decide (j ∈ elements s)) as [Hj|Hj]; rewrite elem_of_elements in Hj.
  - by rewrite bool_decide_eq_true_2.
  - by rewrite bool_decide_eq_false_2.
Qed.

Lemma length_forEachIndex (body : nat -> SimulationVoxel -> SimulationVoxel)
    (s : gset nat) (vs : list SimulationVoxel) :
  length (forEachIndex body s vs) = length vs.
Proof.
  unfold forEachIndex. generalize (elements s) as l. intros l. revert vs.
  induction l as [|a l IH]; intros vs; cbn [foldl]; [done|].
  by rewrite IH, length_alter.
Qed.

Section Frame.

Variable FLOOR_Y : number.

Lemma updatePhysics_stable (e : Engine) :
  state e = STABLE -> updatePhysics FLOOR_Y e = e.
Proof. intros H. unfold updatePhysics. by rewrite bool_decide_eq_true_2. Qed.

Lemma updatePhysics_lookup (e : Engine) (i : nat) :
  voxels (updatePhysics FLOOR_Y e) !! i = tickVoxel FLOOR_Y e i <$> voxels e !! i.
Proof.
  unfold updatePhysics, tickVoxel, rubbleApplies, flightApplies, bounceApplies.
  destruct (bool_decide (state e = STABLE)) eqn:Hs.
  - apply bool_decide_eq_true_1 in Hs.
    rewrite !(bool_decide_eq_false_2 (state e = _)) by (rewrite Hs; congruence).
    cbn. by destruct (voxels e !! i).
  - cbn [setVoxels voxels negb andb].
    unfold bouncePass, flightPass, rubblePass.
    destruct (bool_decide (state e = REJECTING)) eqn:Hr.
    + rewrite orb_true_r. cbn [andb].
      rewrite !lookup_forEachIndex, list_lookup_imap.
      destruct (voxels e !! i) as [v|]; cbn.
      * by destruct (bool_decide (i ∈ rejectingIndices e)),
          (bool_decide (i ∈ activeRebuildIndices e)).
      * by destruct (bool_decide (i ∈ rejectingIndices e)),
          (bool_decide (i ∈ activeRebuildIndices e)).
    + rewrite orb_false_r. cbn [andb].
      destruct (bool_decide (state e = INTERACTIVE_REBUILD)) eqn:Hi; cbn [andb].
      * rewrite lookup_forEachIndex, list_lookup_imap.
        destruct (voxels e !! i) as [v|]; cbn;
          by destruct (bool_decide (i ∈ rejectingIndices e)),
            (bool_decide (i ∈ activeRebuildIndices e)).
      * rewrite list_lookup_imap.
        by destruct (voxels e !! i) as [v|].
Qed.

Lemma updatePhysics_fields (e : Engine) :
  let e' := updatePhysics FLOOR_Y e in
  state e' = state e /\
  activeRebuildIndices e' = activeRebuildIndices e /\
  rejectingIndices e' = rejectingIndices e /\
  rebuildTargets e' = rebuildTargets e /\
  notifications e' = notifications e /\
  length (voxels e') = length (voxels e).
Proof.
  cbn zeta. unfold updatePhysics.
  destruct (bool_decide (state e = STABLE)); [done|].
  cbn. repeat split.
  unfold bouncePass, flightPass, rubblePass.
  repeat (match goal with |- context [if ?b then _ else _] => destruct b end);
    rewrite ?length_forEachIndex, ?length_imap; done.
Qed.

Lemma frames_S (n : nat) (e : Engine) :
  frames FLOOR_Y (S n) e = updatePhysics FLOOR_Y (frames FLOOR_Y n e).
Proof. reflexivity. Qed.

Lemma frames_fields (n : nat) (e : Engine) :
  let e' := frames FLOOR_Y n e in
  state e' = state e /\
  activeRebuildIndices e' = activeRebuildIndices e /\
  rejectingIndices e' = rejectingIndices e /\
  rebuildTargets e' = rebuildTargets e /\
  notifications e' = notifications e /\
  length (voxels e') = length (voxels e).
Proof.
  cbn zeta. induction n as [|n IH]; [done|].
  rewrite frames_S.
  destruct (updatePhysics_fields (frames FLOOR_Y n e))
    as (-> & -> & -> & -> & -> & ->).
  exact IH.
Qed.

(** A voxel a frame leaves alone is left alone by any number of frames. *)
Lemma frames_fixed (e : Engine) (i : nat) (v : SimulationVoxel) :
  voxels e !! i = Some v ->
  tickVoxel FLOOR_Y e i v = v ->
  forall n, voxels (frames FLOOR_Y n e) !! i = Some v.
Proof.
  intros Hv Hfix n. induction n as [|n IH]; [done|].
  rewrite frames_S, updatePhysics_lookup, IH.
  cbn [fmap option_fmap option_map].
  f_equal. rewrite <- Hfix at 2.
  destruct (frames_fields n e) as (Hs & Ha & Hr & Ht & _).
  unfold tickVoxel, rubbleApplies, flightApplies, bounceApplies.
  by rewrite Hs, Ha, Hr, Ht.
Qed.

End Frame.

(** ** Rejecting a step *)

Section Reject.

Variable random : nat -> Qc.

Lemma rejectLoop_spec (t : number) (vs : list SimulationVoxel) (k : nat)
    (R : gset nat) (visited : list SimulationVoxel) (calls : nat) :
  let r := forEachFrom (rejectBody random t) k vs (R, visited, calls) in
  fst (fst r) = carriersFrom t k vs ∪ R /\
  length (snd (fst r)) = (length vs + length visited)%nat.
Proof.
  revert k R visited calls.
  induction vs as [|v vs IH]; intros k R visited calls;
    cbn [forEachFrom carriersFrom].
  - cbn. by rewrite (left_id_L ∅ (∪)).
  - unfold rejectBody at 2 4. fold (carries t v).
    destruct (carries t v);
      match goal with
      | |- context [forEachFrom _ _ _ (?R', ?d', ?c')] =>
          destruct (IH (S k) R' d' c') as [-> ->]
      end; cbn [length]; split; try lia; set_solver.
Qed.

Lemma rejectLoop_voxels (t : number) (vs : list SimulationVoxel) (k : nat)
    (R : gset nat) (visited : list SimulationVoxel) (calls : nat) :
  exists new,
    snd (fst (forEachFrom (rejectBody random t) k vs (R, visited, calls)))
    = new ++ visited /\
    Forall2 (jiggled random t) vs (rev new).
Proof.
  revert k R visited calls.
  induction vs as [|v vs IH]; intros k R visited calls; cbn [forEachFrom].
  - exists []. split; [done|constructor].
  - unfold rejectBody at 2. fold (carries t v).
    destruct (carries t v) eqn:Hc;
      match goal with
      | |- context [forEachFrom _ _ _ (?R', ?v' :: _, ?c')] =>
          destruct (IH (S k) R' (v' :: visited) c') as (new & -> & Hnew);
          exists (new ++ [v'])
      end;
      (split; [by rewrite <- app_assoc|]);
      rewrite rev_app_distr; cbn [rev app]; constructor; try done.
    + right. split; [done|]. by exists calls.
    + by left.
Qed.

(** [rejectLayer] changes the velocity of the voxels that carry the tag and
    nothing else of the voxels. *)
Lemma rejectLayer_voxels (e : Engine) (t : number) :
  Forall2 (jiggled random t) (voxels e) (voxels (rejectLayer random e t)).
Proof.
  unfold rejectLayer, forEach.
  cbn [setState voxels rejectingIndices randomCalls].
  destruct (rejectLoop_voxels t (voxels e) 0 (rejectingIndices e) []
              (randomCalls e)) as (new & Hnew & HF).
  destruct (forEachFrom (rejectBody random t) 0 (voxels e)
              (rejectingIndices e, [], randomCalls e)) as [[R' d'] c'].
  cbn [fst snd] in Hnew. subst d'. cbn [voxels].
  by rewrite app_nil_r.
Qed.

Lemma rejectLayer_fields (e : Engine) (t : number) :
  let e' := rejectLayer random e t in
  state e' = REJECTING /\
  notifications e' = notifications e ++ [StateChange REJECTING] /\
  activeRebuildIndices e' = activeRebuildIndices e /\
  rejectingIndices e' = carriers (voxels e) t ∪ rejectingIndices e /\
  rebuildTargets e' = rebuildTargets e /\
  length (voxels e') = length (voxels e).
Proof.
  cbn zeta. unfold rejectLayer, forEach.
  cbn [setState voxels rejectingIndices randomCalls].
  pose proof (rejectLoop_spec t (voxels e) 0 (rejectingIndices e) []
                (randomCalls e)) as H.
  cbn zeta in H.
  destruct (forEachFrom (rejectBody random t) 0 (voxels e)
              (rejectingIndices e, [], randomCalls e)) as [[R' d'] c'].
  cbn in *. destruct H as [-> Hlen].
  rewrite length_rev, Hlen. repeat split; lia.
Qed.

Lemma rejectTimeout_rejecting (e : Engine) :
  state e = REJECTING ->
  rejectTimeout e =
  {| voxels := voxels e;
     rebuildTargets := rebuildTargets e;
     activeRebuildIndices := activeRebuildIndices e;
     rejectingIndices := ∅;
     state := INTERACTIVE_REBUILD;
     controlsTargetY := controlsTargetY e;
     notifications := notifications e ++ [StateChange INTERACTIVE_REBUILD];
     randomCalls := randomCalls e |}.
Proof. intros H. unfold rejectTimeout. by rewrite bool_decide_eq_true_2. Qed.

Lemma rejectTimeout_other (e : Engine) :
  state e <> REJECTING -> rejectTimeout e = e.
Proof. intros H. unfold rejectTimeout. by rewrite bool_decide_eq_false_2. Qed.

Lemma rejectTimeout_idempotent (e : Engine) :
  rejectTimeout (rejectTimeout e) = rejectTimeout e.
Proof.
  destruct (decide (state e = REJECTING)) as [H|H].
  - rewrite (rejectTimeout_rejecting e H). by apply rejectTimeout_other.
  - by rewrite !(rejectTimeout_other e H).
Qed.

End Reject.

(** ** The two index sets *)

(** The commands other than [rejectLayer], the timer callback and the
    frames keep the active and the rejecting set disjoint. *)
Lemma loadInitialModel_disjoint (random : nat -> Qc) (e : Engine)
    (data : list VoxelData) :
  activeRebuildIndices (loadInitialModel random e data)
  ## rejectingIndices (loadInitialModel random e data).
Proof. cbn. set_solver. Qed.

Lemma dismantle_disjoint (random : nat -> Qc) (e : Engine) :
  activeRebuildIndices e ## rejectingIndices e ->
  activeRebuildIndices (dismantle random e)
  ## rejectingIndices (dismantle random e).
Proof.
  intros H. unfold dismantle. destruct (bool_decide (state e ≠ STABLE)); [done|].
  cbn. set_solver.
Qed.

Lemma rebuildLayer_disjoint (e : Engine) (t : number) :
  activeRebuildIndices e ## rejectingIndices e ->
  activeRebuildIndices (snd (rebuildLayer e t))
  ## rejectingIndices (snd (rebuildLayer e t)).
Proof. intros H. rewrite rebuildLayer_unfold. cbn. set_solver. Qed.

Lemma rejectTimeout_disjoint (e : Engine) :
  activeRebuildIndices e ## rejectingIndices e ->
  activeRebuildIndices (rejectTimeout e) ## rejectingIndices (rejectTimeout e).
Proof.
  intros H. unfold rejectTimeout.
  destruct (bool_decide (state e = REJECTING)); [|done]. cbn. set_solver.
Qed.

(** [rejectLayer] keeps them disjoint when no voxel that carries the tag is
    in the active set. *)
Lemma rejectLayer_disjoint (random : nat -> Qc) (e : Engine) (t : number) :
  activeRebuildIndices e ## rejectingIndices e ->
  activeRebuildIndices e ## carriers (voxels e) t ->
  activeRebuildIndices (rejectLayer random e t)
  ## rejectingIndices (rejectLayer random e t).
Proof.
  intros H Hc.
  destruct (rejectLayer_fields random e t) as (_ & _ & -> & -> & _).
  set_solver.
Qed.

(** The rubble branch never runs together with another branch. *)
Lemma rubble_excludes_others (e : Engine) (i : nat) :
  rubbleApplies e i = true ->
  flightApplies e i = false /\ bounceApplies e i = false.
Proof.
  unfold rubbleApplies, flightApplies, bounceApplies.
  destruct (bool_decide (i ∈ activeRebuildIndices e)),
    (bool_decide (i ∈ rejectingIndices e)); cbn;
    rewrite ?andb_false_r; try done.
Qed.

(** C1, as the code has it.  If a voxel that carries the tag [t] is in the
    active set, then after [rejectLayer] for [t] its index is in the active
    set and in the rejecting set, and the following frame runs both the
    flight branch and the bounce branch on it: the sets are not disjoint
    after this command and two branches apply to one voxel in one frame. *)
Theorem rejectLayer_keeps_active (FLOOR_Y : number) (random : nat -> Qc)
    (e : Engine) (t : number) (i : nat) (v : SimulationVoxel) :
  voxels e !! i = Some v ->
  carries t v = true ->
  i ∈ activeRebuildIndices e ->
  let e' := rejectLayer random e t in
  i ∈ activeRebuildIndices e' ∩ rejectingIndices e' /\
  flightApplies e' i = true /\ bounceApplies e' i = true /\
  exists v',
    voxels e' !! i = Some v' /\
    voxels (updatePhysics FLOOR_Y e') !! i =
      Some (bounce FLOOR_Y (flight (rebuildTargets e') i v')).
Proof.
  intros Hv Hc Ha. cbn zeta.
  destruct (rejectLayer_fields random e t) as (Hs & _ & HA & HR & _ & Hlen).
  assert (i ∈ rejectingIndices (rejectLayer random e t)) as Hr.
  { rewrite HR. apply elem_of_union_l, elem_of_carriers. eauto. }
  assert (i ∈ activeRebuildIndices (rejectLayer random e t)) as Ha'
    by (by rewrite HA).
  assert (flightApplies (rejectLayer random e t) i = true) as Hf.
  { unfold flightApplies. rewrite Hs.
    by rewrite (bool_decide_eq_true_2 _ Ha'). }
  assert (bounceApplies (rejectLayer random e t) i = true) as Hb.
  { unfold bounceApplies. rewrite Hs.
    by rewrite (bool_decide_eq_true_2 _ Hr). }
  split; [by apply elem_of_intersection|]. split; [done|]. split; [done|].
  destruct (lookup_lt_is_Some_2 (voxels (rejectLayer random e t)) i) as [v' Hv'].
  { rewrite Hlen. by eapply lookup_lt_Some. }
  exists v'. split; [done|].
  rewrite updatePhysics_lookup, Hv'. cbn [fmap option_fmap option_map].
  unfold tickVoxel. rewrite Hf, Hb.
  destruct (rubbleApplies (rejectLayer random e t) i) eqn:Hrub; [|done].
  apply rubble_excludes_others in Hrub as [? _]. congruence.
Qed.

Lemma rejectLayer_keeps_active_witness :
  let e := snd (rebuildLayer
                  (loadInitialModel Sample.random newEngine [Sample.spec 5 0])
                  (lit 0)) in
  0%nat ∈ activeRebuildIndices (rejectLayer Sample.random e (lit 0))
        ∩ rejectingIndices (rejectLayer Sample.random e (lit 0)).
Proof.
  intros e.
  refine (proj1 (rejectLayer_keeps_active Sample.FLOOR_Y Sample.random e (lit 0) 0%nat
            (createVoxel Sample.random 0 0 (Sample.spec 5 0)) _ _ _)).
  - reflexivity.
  - by vm_compute.
  - apply (bool_decide_unpack _). by vm_compute.
Defined.

(** ** The flight branch *)

Lemma Qcltb_false (a b : Qc) : Qcltb a b = false <-> (b <= a)%Qc.
Proof.
  rewrite <- not_true_iff_false, Qcltb_true. split.
  - apply Qcnot_lt_le.
  - apply Qcle_not_lt.
Qed.



(** Within the snapping distance a voxel whose [x] already equals the
    target's is not touched, whatever its [y], [z] and rotation are. *)
Lemma flight_same_x (targets : list RebuildTarget) (i : nat) (v : SimulationVoxel)
    (tx ty tz py pz : Qc) :
  targetOf targets i v = (Num tx, Num ty, Num tz) ->
  x v = Num tx -> y v = Num py -> z v = Num pz ->
  ((ty - py) * (ty - py) + (tz - pz) * (tz - pz) <= dec 0.05)%Qc ->
  flight targets i v = v.
Proof.
  intros Ht Hx Hy Hz Hd. unfold flight. rewrite Ht, Hx, Hy, Hz.
  cbn [sub add neg mul gt lt lit]. unfold strictNe. cbn [strictEq].
  rewrite Qceqb_refl. cbn [negb].
  replace (Qcltb _ _) with false; [done|].
  symmetry. apply Qcltb_false.
  replace ((tx + - tx) * (tx + - tx) + (ty + - py) * (ty + - py)
           + (tz + - pz) * (tz + - pz))%Qc
    with ((ty - py) * (ty - py) + (tz - pz) * (tz - pz))%Qc; [done|].
  unfold Qcminus. ring.
Qed.


(** In state [INTERACTIVE_REBUILD] only the flight branch runs on a voxel of
    the active set. *)
Lemma tickVoxel_active (FLOOR_Y : number) (e : Engine) (i : nat)
    (v : SimulationVoxel) :
  state e = INTERACTIVE_REBUILD ->
  i ∈ activeRebuildIndices e ->
  tickVoxel FLOOR_Y e i v = flight (rebuildTargets e) i v.
Proof.
  intros Hs Ha. unfold tickVoxel, rubbleApplies, flightApplies, bounceApplies.
  rewrite Hs, (bool_decide_eq_true_2 _ Ha).
  rewrite (bool_decide_eq_false_2 (INTERACTIVE_REBUILD = REJECTING)) by done.
  rewrite (bool_decide_eq_false_2 (INTERACTIVE_REBUILD = STABLE)) by done.
  rewrite (bool_decide_eq_true_2 (INTERACTIVE_REBUILD = INTERACTIVE_REBUILD)) by done.
  reflexivity.
Qed.


(** C5, as the code has it.  In state [INTERACTIVE_REBUILD], a voxel of the
    active set whose [x] equals the [x] of its target and whose squared
    distance to the target is at most 0.05 is left as it is by every number
    of frames: when its [y] differs from the target's it never arrives, and
    it is not snapped to the target. *)
Theorem flight_stalls (FLOOR_Y : number) (e : Engine) (i : nat)
    (v : SimulationVoxel) (tx ty tz py pz : Qc) :
  state e = INTERACTIVE_REBUILD ->
  i ∈ activeRebuildIndices e ->
  voxels e !! i = Some v ->
  targetOf (rebuildTargets e) i v = (Num tx, Num ty, Num tz) ->
  x v = Num tx -> y v = Num py -> z v = Num pz ->
  ((ty - py) * (ty - py) + (tz - pz) * (tz - pz) <= dec 0.05)%Qc ->
  py <> ty ->
  forall n, exists v',
    voxels (frames FLOOR_Y n e) !! i = Some v' /\ v' = v /\ y v' <> Num ty.
Proof.
  intros Hs Ha Hv Ht Hx Hy Hz Hd Hne n. exists v.
  split; [|split; [done|]].
  - apply frames_fixed; [done|].
    rewrite tickVoxel_active by done. by eapply flight_same_x.
  - rewrite Hy. intros H. by apply Num_inj in H.
Qed.

Ltac by_computation := apply (bool_decide_unpack _); vm_compute; exact I.

Lemma flight_stalls_witness :
  exists v',
    voxels (frames Sample.FLOOR_Y 100 Sample.stalled) !! 0%nat = Some v' /\
    v' = Sample.stalledVoxel /\
    y v' <> Num (dec 5).
Proof.
  apply (flight_stalls Sample.FLOOR_Y Sample.stalled 0%nat Sample.stalledVoxel
           (dec 0) (dec 5) (dec 0) (dec 4.96) (dec 0)).
  - reflexivity.
  - by_computation.
  - by_computation.
  - by_computation.
  - by_computation.
  - by_computation.
  - by_computation.
  - by_computation.
  - by_computation.
Defined.

(** ** Arrival of a flying voxel *)












Section Arrival.

Variable FLOOR_Y : number.



End Arrival.

(** ** A stalled flight above any floor *)

Section Stall.

(** The floor, and the source of random numbers. *)
Variable f : Qc.
Variable random : nat -> Qc.

Lemma point_eq (a b c a' b' c' : Qc) :
  a = a' -> b = b' -> c = c' -> (Num a, Num b, Num c) = point a' b' c'.
Proof. by intros -> -> ->. Qed.

Lemma stall_run :
  engine (run (Num f) random newWorld (stallEvents f)) = stallFlying f random.
Proof.
  unfold stallEvents, run, stallFlying, stallFallen, stallWoken, stallLoaded.
  by cbn [foldl step engine execute newWorld].
Qed.

Lemma stall_fall_clear :
  (y (stallVoxel f random) + (vy (stallVoxel f random) - lit 0.04)
   < Num f + lit 0.5) = false.
Proof.
  unfold stallVoxel.
  cbn [createVoxel aboveFloor d_y y vy sub add neg lit lt].
  apply Qcltb_false. qc2q. lra.
Qed.

Lemma stall_rubble :
  position (rubble (Num f) (stallVoxel f random)) = point 0 (f + dec 0.96) 0 /\
  stepIndex (rubble (Num f) (stallVoxel f random)) = lit 1 /\
  originalX (rubble (Num f) (stallVoxel f random)) = Num 0%Qc /\
  originalY (rubble (Num f) (stallVoxel f random)) = Num (f + dec 1) /\
  originalZ (rubble (Num f) (stallVoxel f random)) = Num 0%Qc.
Proof.
  unfold rubble.
  cbn [setVelocity setRotation setPosition setSpin x y z vx vy vz].
  rewrite stall_fall_clear.
  cbn [setVelocity setRotation setPosition setSpin x y z vx vy vz
       position stepIndex originalX originalY originalZ].
  split; [|done].
  unfold stallVoxel.
  cbn [createVoxel aboveFloor d_x d_y d_z x y z vx vy vz sub add neg lit].
  apply point_eq; apply Qc_is_canon; qc2q; ring.
Qed.

Lemma stall_woken :
  state (stallWoken f random) = INTERACTIVE_REBUILD /\
  voxels (stallWoken f random) = [stallVoxel f random] /\
  activeRebuildIndices (stallWoken f random) = ∅ /\
  rejectingIndices (stallWoken f random) = ∅ /\
  rebuildTargets (stallWoken f random) = [].
Proof.
  unfold stallWoken, stallLoaded. rewrite rebuildLayer_unfold.
  cbn [snd state voxels activeRebuildIndices rejectingIndices rebuildTargets
       loadInitialModel createVoxels].
  split; [done|]. split; [done|]. split; [|split; [|done]].
  - apply leibniz_equiv. intros i. split; [|set_solver].
    intros [Hi|Hi]%elem_of_union; [|done].
    apply elem_of_carriers in Hi as (v & Hv & Hc).
    destruct i; [|done]. injection Hv as <-. by vm_compute in Hc.
  - set_solver.
Qed.

Lemma stall_fallen :
  state (stallFallen f random) = INTERACTIVE_REBUILD /\
  voxels (stallFallen f random) = [rubble (Num f) (stallVoxel f random)] /\
  activeRebuildIndices (stallFallen f random) = ∅ /\
  rejectingIndices (stallFallen f random) = ∅ /\
  rebuildTargets (stallFallen f random) = [].
Proof.
  destruct stall_woken as (Hs & Hv & Ha & Hr & Ht).
  unfold stallFallen.
  destruct (updatePhysics_fields (Num f) (stallWoken f random))
    as (Hs' & Ha' & Hr' & Ht' & _ & Hl).
  rewrite Hs', Ha', Hr', Ht'.
  split; [exact Hs|]. split; [|by rewrite Ha, Hr, Ht].
  apply list_eq. intros i.
  rewrite updatePhysics_lookup, Hv.
  destruct i as [|i]; [|reflexivity].
  cbn [lookup list_lookup fmap option_fmap option_map].
  apply (f_equal Some).
  unfold tickVoxel, rubbleApplies, flightApplies, bounceApplies.
  rewrite Hs, Ha, Hr.
  rewrite (bool_decide_eq_false_2 (INTERACTIVE_REBUILD = STABLE)) by done.
  rewrite (bool_decide_eq_false_2 (INTERACTIVE_REBUILD = REJECTING)) by done.
  rewrite (bool_decide_eq_false_2 (0%nat ∈ (∅ : gset nat))) by set_solver.
  cbn [negb andb orb]. reflexivity.
Qed.

(** The engine the events lead to: the voxel is in the active set, 0.04
    below its target and with the [x] of its target. *)
Lemma stall_flying :
  state (stallFlying f random) = INTERACTIVE_REBUILD /\
  0%nat ∈ activeRebuildIndices (stallFlying f random) /\
  voxels (stallFlying f random) !! 0%nat
    = Some (rubble (Num f) (stallVoxel f random)) /\
  targetOf (rebuildTargets (stallFlying f random)) 0
    (rubble (Num f) (stallVoxel f random)) = point 0 (f + dec 1) 0.
Proof.
  destruct stall_fallen as (Hs & Hv & Ha & Hr & Ht).
  destruct stall_rubble as (_ & Htag & Hx & Hy & Hz).
  unfold stallFlying. rewrite rebuildLayer_unfold.
  cbn [snd state voxels activeRebuildIndices rejectingIndices rebuildTargets].
  rewrite Hv, Ht.
  split; [done|]. split; [|split; [done|]].
  - apply elem_of_union_l, elem_of_carriers.
    exists (rubble (Num f) (stallVoxel f random)). split; [done|].
    unfold carries. by rewrite Htag.
  - unfold targetOf. cbn [lookup list_lookup]. by rewrite Hx, Hy, Hz.
Qed.

(** Whatever the floor, the voxel is not on its target after any number of
    further frames. *)
Lemma stall_above_any_floor (n : nat) :
  exists v,
    voxels (frames (Num f) n
              (engine (run (Num f) random newWorld (stallEvents f))))
      !! 0%nat = Some v /\
    y v = Num (f + dec 0.96) /\ originalY v = Num (f + dec 1) /\
    y v <> originalY v.
Proof.
  rewrite stall_run.
  destruct stall_flying as (Hs & Ha & Hv & Ht).
  destruct stall_rubble as (Hp & _ & _ & HoY & _).
  unfold position, point in Hp. injection Hp as Hx Hy Hz.
  exists (rubble (Num f) (stallVoxel f random)).
  split; [|split; [exact Hy|split; [exact HoY|]]].
  - apply frames_fixed; [exact Hv|].
    rewrite (tickVoxel_active _ _ _ _ Hs Ha).
    apply (flight_same_x _ _ _ 0 (f + dec 1) 0 (f + dec 0.96) 0 Ht Hx Hy Hz)%Qc.
    qc2q. ring_simplify. lra.
  - rewrite Hy, HoY. intros H. apply Num_inj in H.
    assert (this (f + dec 0.96)%Qc == this (f + dec 1)%Qc)%Q as H'
      by (by rewrite H).
    revert H'. qc2q. lra.
Qed.

End Stall.

(** ** The timer of [rejectLayer] *)

Section Timer.

Variable FLOOR_Y : number.
Variable random : nat -> Qc.

Lemma run_cons (w : World) (ev : Event) (evs : list Event) :
  run FLOOR_Y random w (ev :: evs) = run FLOOR_Y random (step FLOOR_Y random w ev) evs.
Proof. reflexivity. Qed.

Lemma run_app (w : World) (evs1 evs2 : list Event) :
  run FLOOR_Y random w (evs1 ++ evs2) =
  run FLOOR_Y random (run FLOOR_Y random w evs1) evs2.
Proof. apply foldl_app. Qed.

Lemma elapsed_cons (ev : Event) (evs : list Event) :
  elapsed (ev :: evs) =
  (match ev with Elapse ms => ms | _ => 0 end + elapsed evs)%nat.
Proof. by destruct ev. Qed.

Lemma clock_step (w : World) (ev : Event) :
  clock (step FLOOR_Y random w ev) =
  (clock w + match ev with Elapse ms => ms | _ => 0 end)%nat.
Proof. destruct ev; cbn; lia. Qed.

Lemma clock_run (w : World) (evs : list Event) :
  clock (run FLOOR_Y random w evs) = (clock w + elapsed evs)%nat.
Proof.
  revert w. induction evs as [|ev evs IH]; intros w.
  - cbn. lia.
  - rewrite run_cons, IH, clock_step, elapsed_cons. lia.
Qed.

(** A callback that is not yet due stays in the list of timers. *)
Lemma timer_pending (evs : list Event) (w : World) (t : nat) :
  t ∈ timers w ->
  (clock w + elapsed evs < t)%nat ->
  t ∈ timers (run FLOOR_Y random w evs).
Proof.
  revert w. induction evs as [|ev evs IH]; intros w Ht Hlt; [done|].
  rewrite elapsed_cons in Hlt. rewrite run_cons. apply IH.
  - destruct ev as [c| |ms]; cbn [step timers].
    + apply elem_of_app. by left.
    + done.
    + apply list_elem_of_filter. split; [lia|done].
  - rewrite clock_step. lia.
Qed.

Lemma fireDue_cons (now t : nat) (due : list nat) (e : Engine) :
  fireDue now (t :: due) e =
  fireDue now due (if bool_decide (t ≤ now)%nat then rejectTimeout e else e).
Proof. reflexivity. Qed.

Lemma fireDue_after (now : nat) (due : list nat) (e : Engine) :
  fireDue now due (rejectTimeout e) = rejectTimeout e.
Proof.
  induction due as [|t due IH]; [done|].
  rewrite fireDue_cons. destruct (bool_decide (t ≤ now)%nat); [|done].
  by rewrite rejectTimeout_idempotent.
Qed.

(** When some callback is due, the callbacks that fire amount to one. *)
Lemma fireDue_some (now : nat) (due : list nat) (e : Engine) (t : nat) :
  t ∈ due -> (t ≤ now)%nat -> fireDue now due e = rejectTimeout e.
Proof.
  intros Ht Hle. induction due as [|t' due IH]; [by apply elem_of_nil in Ht|].
  rewrite fireDue_cons.
  destruct (bool_decide (t' ≤ now)%nat) eqn:Hd; [apply fireDue_after|].
  apply elem_of_cons in Ht as [->|Ht]; [|by apply IH].
  apply bool_decide_eq_false_1 in Hd. lia.
Qed.

Lemma fireDue_none (now : nat) (due : list nat) (e : Engine) :
  (forall t, t ∈ due -> (now < t)%nat) -> fireDue now due e = e.
Proof.
  induction due as [|t' due IH]; intros H; [done|].
  rewrite fireDue_cons, bool_decide_eq_false_2.
  - apply IH. intros t Ht. apply H, elem_of_cons. by right.
  - assert (now < t')%nat by (apply H, elem_of_cons; by left). lia.
Qed.

(** The callback of a call fires in the [Elapse] with which the delay is
    over, and what fires then amounts to one call of [rejectTimeout]. *)
Lemma timer_fires (w : World) (t : number) (evs : list Event) (d : nat) :
  let w1 := step FLOOR_Y random w (Call (RejectLayer t)) in
  let w2 := run FLOOR_Y random w1 evs in
  (elapsed evs < REJECT_DELAY)%nat ->
  (REJECT_DELAY <= elapsed evs + d)%nat ->
  engine (step FLOOR_Y random w2 (Elapse d)) = rejectTimeout (engine w2).
Proof.
  intros w1 w2 Hlt Hle. cbn [step engine].
  apply (fireDue_some _ _ _ (clock w + REJECT_DELAY)%nat).
  - apply timer_pending.
    + subst w1. cbn. apply elem_of_app. right. apply elem_of_cons. by left.
    + subst w1. cbn [step clock]. lia.
  - subst w2. rewrite clock_run. subst w1. cbn [step clock]. lia.
Qed.

End Timer.

(** C6, as the code has it.  After [rejectLayer], let any events follow that
    take less than 800 ms, and let time then pass beyond the 800 ms.  If
    the state is [REJECTING] when the callback fires (as it is when nothing
    changed it, and also when it was changed and a later [rejectLayer] set
    it again), the state becomes [INTERACTIVE_REBUILD], that state is
    reported and the rejecting set is emptied, the rest of the engine being
    unchanged.  If the state is another one by then, the engine is
    unchanged. *)
Theorem rejectLayer_timer (FLOOR_Y : number) (random : nat -> Qc)
    (w : World) (t : number) (evs : list Event) (d : nat) :
  (elapsed evs < REJECT_DELAY)%nat ->
  (REJECT_DELAY <= elapsed evs + d)%nat ->
  let w1 := step FLOOR_Y random w (Call (RejectLayer t)) in
  let w2 := run FLOOR_Y random w1 evs in
  let w3 := step FLOOR_Y random w2 (Elapse d) in
  state (engine w1) = REJECTING /\
  (state (engine w2) = REJECTING ->
     state (engine w3) = INTERACTIVE_REBUILD /\
     rejectingIndices (engine w3) = ∅ /\
     notifications (engine w3) =
       notifications (engine w2) ++ [StateChange INTERACTIVE_REBUILD] /\
     voxels (engine w3) = voxels (engine w2) /\
     activeRebuildIndices (engine w3) = activeRebuildIndices (engine w2) /\
     rebuildTargets (engine w3) = rebuildTargets (engine w2)) /\
  (state (engine w2) <> REJECTING -> engine w3 = engine w2).
Proof.
  intros Hlt Hle w1 w2 w3.
  split; [apply rejectLayer_fields|].
  subst w3 w2 w1. rewrite (timer_fires FLOOR_Y random w t evs d Hlt Hle).
  split.
  - intros Hs. by rewrite (rejectTimeout_rejecting _ Hs).
  - apply rejectTimeout_other.
Qed.

Lemma rejectLayer_timer_witness :
  state (engine (run Sample.FLOOR_Y Sample.random Sample.loaded
                   [Call (RejectLayer (lit 0)); Elapse 300; Frame; Elapse 500]))
  = INTERACTIVE_REBUILD.
Proof.
  refine (proj1 (proj1 (proj2 (rejectLayer_timer Sample.FLOOR_Y Sample.random
            Sample.loaded (lit 0) [Elapse 300; Frame] 500 _ _)) _)).
  - vm_compute. lia.
  - vm_compute. lia.
  - by_computation.
Defined.


(** Frames and the passing of time change no state as long as no callback
    is due. *)
Lemma quiet_run (FLOOR_Y : number) (random : nat -> Qc)
    (evs : list Event) (w : World) (due : nat) :
  Forall (fun ev => match ev with Call _ => False | _ => True end) evs ->
  (forall t, t ∈ timers w -> (due <= t)%nat) ->
  (clock w + elapsed evs < due)%nat ->
  state (engine (run FLOOR_Y random w evs)) = state (engine w).
Proof.
  intros Hevs. revert w.
  induction Hevs as [|ev evs Hev Hevs IH]; intros w Hw Hlt; [done|].
  rewrite elapsed_cons in Hlt. rewrite run_cons, IH.
  - destruct ev as [c| |ms]; [done| |]; cbn [step engine].
    + apply updatePhysics_fields.
    + rewrite fireDue_none; [done|]. intros t Ht. apply Hw in Ht. lia.
  - intros t Ht. apply Hw. destruct ev as [c| |ms]; [done|done|].
    cbn [step timers] in Ht. by apply list_elem_of_filter in Ht as [_ ?].
  - rewrite clock_step. lia.
Qed.

(** The first half of C6: with no earlier timer pending and no further call, the
    state is still [REJECTING] when the delay is over, so the callback
    reverts it. *)
Lemma undisturbed_reverts (FLOOR_Y : number) (random : nat -> Qc)
    (w : World) (t : number) (evs : list Event) (d : nat) :
  timers w = [] ->
  Forall (fun ev => match ev with Call _ => False | _ => True end) evs ->
  (elapsed evs < REJECT_DELAY)%nat ->
  (REJECT_DELAY <= elapsed evs + d)%nat ->
  let w1 := step FLOOR_Y random w (Call (RejectLayer t)) in
  let w3 := step FLOOR_Y random (run FLOOR_Y random w1 evs) (Elapse d) in
  state (engine w3) = INTERACTIVE_REBUILD /\ rejectingIndices (engine w3) = ∅.
Proof.
  intros Hw Hevs Hlt Hle w1 w3. subst w3 w1.
  rewrite (timer_fires FLOOR_Y random w t evs d Hlt Hle).
  rewrite rejectTimeout_rejecting; [done|].
  rewrite (quiet_run FLOOR_Y random evs _ (clock w + REJECT_DELAY)%nat).
  - apply rejectLayer_fields.
  - done.
  - cbn [step timers schedules]. rewrite Hw. intros t' Ht'.
    apply list_elem_of_singleton in Ht'. lia.
  - cbn [step clock]. lia.
Qed.

(** C6, read literally, fails: after [rejectLayer], 100 ms later
    [rebuildLayer] changes the state, 600 ms later [rejectLayer] is called
    again, and 100 ms later the callback of the first call fires and
    reverts the state of the second one. *)
Lemma stale_timer_reverts :
  ~ staleTimerIsNoOp Sample.FLOOR_Y Sample.random.
Proof.
  intros H.
  specialize (H Sample.loaded (lit 0)
                [Elapse 100; Call (RebuildLayer (lit 0))]
                [Elapse 600; Call (RejectLayer (lit 0))] 100%nat).
  cbn zeta in H.
  assert (Hne : engine
            (step Sample.FLOOR_Y Sample.random
               (run Sample.FLOOR_Y Sample.random
                  (step Sample.FLOOR_Y Sample.random Sample.loaded
                     (Call (RejectLayer (lit 0))))
                  ([Elapse 100; Call (RebuildLayer (lit 0))] ++
                   [Elapse 600; Call (RejectLayer (lit 0))]))
               (Elapse 100))
          <> engine
            (run Sample.FLOOR_Y Sample.random
               (step Sample.FLOOR_Y Sample.random Sample.loaded
                  (Call (RejectLayer (lit 0))))
               ([Elapse 100; Call (RebuildLayer (lit 0))] ++
                [Elapse 600; Call (RejectLayer (lit 0))])))
    by by_computation.
  apply Hne, H.
  - reflexivity.
  - reflexivity.
  - by_computation.
Qed.

(** ** Step centroids *)







Section CentroidFacts.

Variable project : number * number * number -> number * number * number.
Variable clientWidth clientHeight : number.


End CentroidFacts.



(** ** Hexadecimal colours *)

Lemma hexDigit_hexChar (d : N) : (d < 16)%N -> hexDigit (hexChar d) = Some d.
Proof.
  intros Hd. destruct d as [|p]; [reflexivity|].
  do 4 (destruct p as [p|p|]; try reflexivity); lia.
Qed.

Lemma hexPrefix_hexChar (d : N) (s : string) (acc : option N) :
  (d < 16)%N ->
  hexPrefix (String (hexChar d) s) acc =
  hexPrefix s (Some (16 * default 0 acc + d)%N).
Proof. intros Hd. cbn [hexPrefix]. by rewrite hexDigit_hexChar. Qed.

(** A text that starts with two hexadecimal digits of [hexChar] has no
    white space, sign or [0x] for [parseInt] to skip. *)
Lemma parseInt16_no_prefix (d1 d2 : N) (s : string) :
  (d1 < 16)%N -> (d2 < 16)%N ->
  parseInt16 (String (hexChar d1) (String (hexChar d2) s)) =
  match hexPrefix (String (hexChar d1) (String (hexChar d2) s)) None with
  | None => NaN
  | Some n => Num (Qc_of_Z (Z.of_N n))
  end.
Proof.
  intros H1 H2.
  destruct d1 as [|p]; [|do 4 (try destruct p as [p|p|]); try lia];
    (destruct d2 as [|p']; [|do 4 (try destruct p' as [p'|p'|]); try lia]);
    reflexivity.
Qed.

Lemma hex_digits_value (n : N) :
  (n < 16777216)%N ->
  (16 * (16 * (16 * (16 * (16 * (16 * 0 + n / 1048576 mod 16)
     + n / 65536 mod 16) + n / 4096 mod 16) + n / 256 mod 16)
     + n / 16 mod 16) + n mod 16 = n)%N.
Proof.
  intros Hn.
  assert (n / 1048576 < 16)%N by (apply N.Div0.div_lt_upper_bound; lia).
  rewrite N.mul_0_r, N.add_0_l.
  rewrite (N.mod_small (n / 1048576) 16) by done.
  replace 1048576%N with (65536 * 16)%N by done.
  rewrite <- N.Div0.div_div, <- N.div_mod'.
  replace 65536%N with (4096 * 16)%N by done.
  rewrite <- N.Div0.div_div, <- N.div_mod'.
  replace 4096%N with (256 * 16)%N by done.
  rewrite <- N.Div0.div_div, <- N.div_mod'.
  replace 256%N with (16 * 16)%N by done.
  rewrite <- N.Div0.div_div, <- N.div_mod'.
  by rewrite <- N.div_mod'.
Qed.

(** [parseInt] reads back what [getHexString] writes. *)
Lemma parseInt16_hex6 (n : N) :
  (n < 16777216)%N -> parseInt16 (hex6 n) = ofZ (Z.of_N n).
Proof.
  intros Hn. unfold hex6.
  rewrite parseInt16_no_prefix by (apply N.mod_lt; lia).
  rewrite !hexPrefix_hexChar by (apply N.mod_lt; lia).
  cbn [hexPrefix default]. unfold Datatypes.id. by rewrite hex_digits_value.
Qed.

(** ** Export and import *)

Lemma lit_0 : lit 0 = Num 0%Qc.
Proof. reflexivity. Qed.

Section JsonFacts.

Variable getHex : Color -> N.
Hypothesis getHex_24bit : forall c, (getHex c < 16777216)%N.
Variable StringToNumber : string -> number.
Variable ArrayToString : list value -> string.

Lemma numberOrZero_finite (q : Qc) :
  numberOrZero StringToNumber ArrayToString (VNumber (Num q)) = Num q.
Proof.
  unfold numberOrZero. cbn [Number truthy].
  destruct (Qceqb q 0) eqn:Hq; [|done].
  apply Qceqb_true in Hq as ->. reflexivity.
Qed.

Lemma importColor_hex (n : N) :
  (n < 16777216)%N ->
  importColor (VString (String "#" (hex6 n))) = ofZ (Z.of_N n).
Proof. intros Hn. unfold importColor. by rewrite parseInt16_hex6. Qed.

(** What [JSON.parse] makes of the exported form of a voxel whose numbers
    are finite is that exported form. *)
Lemma parse_stringify_export (v : SimulationVoxel) :
  finiteVoxel v = true ->
  JSON_parse (default JNull (JSON_stringify (exportVoxel getHex v))) =
  exportVoxel getHex v.
Proof.
  unfold finiteVoxel, exportVoxel. intros H.
  destruct (x v), (y v), (z v), (stepIndex v); try done.
Qed.

Lemma exported_properties (v : SimulationVoxel) :
  let o := exportVoxel getHex v in
  getProperty o "c" = Some VUndefined /\
  getProperty o "color" =
    Some (VString (String "#" (getHexString getHex (color v)))) /\
  getProperty o "x" = Some (VNumber (x v)) /\
  getProperty o "y" = Some (VNumber (y v)) /\
  getProperty o "z" = Some (VNumber (z v)) /\
  getProperty o "stepIndex" = Some (VNumber (stepIndex v)).
Proof. repeat split. Qed.

Lemma importVoxel_export (v : SimulationVoxel) :
  finiteVoxel v = true ->
  importVoxel StringToNumber ArrayToString (exportVoxel getHex v) =
  Some (reimported getHex v).
Proof.
  intros H. unfold importVoxel.
  destruct (exported_properties v) as (-> & -> & -> & -> & -> & ->).
  cbn [mbind option_bind truthyValue].
  unfold finiteVoxel, reimported in *.
  destruct (x v) as [qx| |], (y v) as [qy| |], (z v) as [qz| |],
    (stepIndex v) as [qs| |]; try done.
  rewrite !numberOrZero_finite.
  unfold getHexString. by rewrite importColor_hex.
Qed.

Lemma importVoxelData_export (vs : list SimulationVoxel) :
  Forall (fun v => finiteVoxel v = true) vs ->
  importVoxelData StringToNumber ArrayToString
    (JSON_stringify (VArray (exportVoxel getHex <$> vs))) =
  Some (reimported getHex <$> vs).
Proof.
  intros Hvs. unfold importVoxelData.
  cbn [JSON_stringify fmap option_fmap option_map JSON_parse].
  induction Hvs as [|v vs Hv Hvs IH]; [done|].
  cbn [fmap list_fmap List.map mapM].
  rewrite parse_stringify_export, importVoxel_export by done.
  cbn [mbind option_bind]. cbn [fmap list_fmap] in IH. rewrite IH.
  reflexivity.
Qed.

End JsonFacts.

Lemma Sample_getHex_24bit (c : Color) : (Sample.getHex c < 16777216)%N.
Proof.
  induction c as [[q| |s]|c IH h s l]; cbn [Sample.getHex]; try done.
  by apply N.mod_lt.
Qed.

(** C7, as the code has it.  Let [getHex] stay below [2^24], and let every
    voxel of the engine have finite coordinates and a finite tag.  Then
    [handleJsonImport] reads from the text of [getJsonData], in array order,
    for each voxel a spec with the position and tag of the voxel and the
    hexadecimal value of its colour, and the voxels it loads have, index by
    index, the same position and tag and a colour made from that value with
    a new lightness offset. *)
Theorem export_import_roundtrip (getHex : Color -> N)
    (StringToNumber : string -> number) (ArrayToString : list value -> string)
    (random : nat -> Qc) (e : Engine) :
  (forall c, (getHex c < 16777216)%N) ->
  Forall (fun v => finiteVoxel v = true) (voxels e) ->
  importVoxelData StringToNumber ArrayToString (getJsonData getHex e) =
    Some (reimported getHex <$> voxels e) /\
  roundTrip getHex StringToNumber ArrayToString random e.
Proof.
  intros Hhex Hfin.
  assert (importVoxelData StringToNumber ArrayToString (getJsonData getHex e) =
          Some (reimported getHex <$> voxels e)) as Himp
    by (by apply importVoxelData_export).
  split; [done|].
  unfold roundTrip, handleJsonImport. rewrite Himp, loadInitialModel_voxels.
  rewrite imap_fmap. apply Forall2_imap_r. intros i v _.
  repeat split. cbn. eauto.
Qed.

Lemma export_import_roundtrip_witness :
  roundTrip Sample.getHex Sample.StringToNumber Sample.ArrayToString
    Sample.random Sample.stalled.
Proof.
  apply export_import_roundtrip.
  - apply Sample_getHex_24bit.
  - apply (bool_decide_unpack _). by vm_compute.
Defined.

(** C7, read for every engine, fails: a voxel whose tag is [NaN], as the
    import of an entry with an object for [stepIndex] leaves it, is written
    with the tag [null] and read back with the tag 0. *)
Lemma roundtrip_loses_NaN_tag : ~ roundTripAlways.
Proof.
  intros H.
  specialize (H Sample.getHex Sample.StringToNumber Sample.ArrayToString
                Sample.random Sample_getHex_24bit Sample.importedObjectTag).
  unfold roundTrip in H.
  assert (Forall2 (fun v v' => stepIndex v = stepIndex v')
            (voxels Sample.importedObjectTag)
            (voxels (handleJsonImport Sample.StringToNumber
                       Sample.ArrayToString Sample.random
                       Sample.importedObjectTag
                       (getJsonData Sample.getHex Sample.importedObjectTag))))
    as H'.
  { eapply Forall2_impl; [|exact H]. by intros v v' (_ & _ & _ & -> & _). }
  apply Forall2_fmap, list_eq_Forall2 in H'.
  revert H'. by_computation.
Qed.

(** ** Defaults of the import *)

Section ImportFacts.

Variable StringToNumber : string -> number.
Variable ArrayToString : list value -> string.

(** A coordinate that is missing, or whose number is 0 or [NaN], is 0. *)
Lemma numberOrZero_missing :
  numberOrZero StringToNumber ArrayToString VUndefined = lit 0.
Proof. reflexivity. Qed.

Lemma numberOrZero_not_NaN (f : value) :
  isNaN (numberOrZero StringToNumber ArrayToString f) = false.
Proof.
  unfold numberOrZero.
  by destruct (Number StringToNumber ArrayToString f) as [q| |s];
    cbn; try destruct (Qceqb q 0).
Qed.

(** A colour that is neither a string nor a number is gray, and so is a
    string in which [parseInt] finds no number. *)
Lemma importColor_unknown (c : value) :
  (forall s, c <> VString s) -> (forall n, c <> VNumber n) ->
  importColor c = GRAY.
Proof. intros Hs Hn. destruct c; try done; [by destruct (Hn n)|by destruct (Hs s)]. Qed.

Lemma importColor_not_NaN (c : value) : isNaN (importColor c) = false.
Proof.
  unfold importColor.
  by destruct (isNaN (match c with
                      | VString s => _ | VNumber n => n | _ => GRAY end)) eqn:H.
Qed.

(** The fields of an imported entry, from the properties of the entry. *)
Lemma importVoxel_fields (v : value) (d : VoxelData) :
  importVoxel StringToNumber ArrayToString v = Some d ->
  exists c col fx fy fz fs,
    getProperty v "c" = Some c /\ getProperty v "color" = Some col /\
    getProperty v "x" = Some fx /\ getProperty v "y" = Some fy /\
    getProperty v "z" = Some fz /\ getProperty v "stepIndex" = Some fs /\
    d_x d = numberOrZero StringToNumber ArrayToString fx /\
    d_y d = numberOrZero StringToNumber ArrayToString fy /\
    d_z d = numberOrZero StringToNumber ArrayToString fz /\
    d_color d = importColor (if truthyValue c then c else col) /\
    d_stepIndex d =
      Some (match fs with
            | VUndefined => lit (-1)
            | _ => Number StringToNumber ArrayToString fs
            end).
Proof.
  unfold importVoxel. intros H.
  destruct (getProperty v "c") as [c|] eqn:Hc; [|done].
  destruct (getProperty v "color") as [col|] eqn:Hcol;
    [|by destruct v].
  destruct (getProperty v "x") as [fx|] eqn:Hx; [|by destruct v].
  destruct (getProperty v "y") as [fy|] eqn:Hy; [|by destruct v].
  destruct (getProperty v "z") as [fz|] eqn:Hz; [|by destruct v].
  destruct (getProperty v "stepIndex") as [fs|] eqn:Hfs; [|by destruct v].
  exists c, col, fx, fy, fz, fs.
  cbn [mbind option_bind] in H.
  destruct (truthyValue c); cbn [mbind option_bind] in H;
    injection H as <-; by repeat split.
Qed.

(** The parts of C8 the code keeps: in every imported entry the
    coordinates and the colour are numbers other than [NaN], a missing
    coordinate is 0 and a missing [stepIndex] is -1. *)
Lemma importVoxel_defaults (v : value) (d : VoxelData) :
  importVoxel StringToNumber ArrayToString v = Some d ->
  isNaN (d_x d) = false /\ isNaN (d_y d) = false /\ isNaN (d_z d) = false /\
  isNaN (d_color d) = false /\
  (getProperty v "x" = Some VUndefined -> d_x d = lit 0) /\
  (getProperty v "y" = Some VUndefined -> d_y d = lit 0) /\
  (getProperty v "z" = Some VUndefined -> d_z d = lit 0) /\
  (getProperty v "stepIndex" = Some VUndefined ->
     d_stepIndex d = Some (lit (-1))).
Proof.
  intros H. apply importVoxel_fields in H
    as (c & col & fx & fy & fz & fs & Hc & Hcol & Hx & Hy & Hz & Hfs
        & -> & -> & -> & -> & ->).
  rewrite !numberOrZero_not_NaN, importColor_not_NaN, Hx, Hy, Hz, Hfs.
  repeat split; by intros [= ->].
Qed.

End ImportFacts.

(** Three entries with a [stepIndex] that is not a number, as they are handed
    to the engine, whatever the runtime's conversions of strings and arrays:
    [null] becomes 0, an object [NaN], [true] 1. *)
Lemma import_of_malformed_entries
    (StringToNumber : string -> number) (ArrayToString : list value -> string) :
  importVoxelData StringToNumber ArrayToString
    (Some (JArray [Sample.entry JNull;
                   Sample.entry (JObject []);
                   Sample.entry (JBool true)])) =
  Some [Sample.imported (lit 0); Sample.imported NaN; Sample.imported (lit 1)].
Proof. reflexivity. Qed.

(** C8, as the code has it.  In every entry that is imported, a [stepIndex]
    that is present is handed to the engine as [Number(stepIndex)], whatever
    it is: [null] as 0, an object as [NaN], [true] as 1; it is not replaced
    by -1, and the engine can receive a voxel spec whose [stepIndex] is
    [NaN]. *)
Theorem import_keeps_malformed_stepIndex
    (StringToNumber : string -> number) (ArrayToString : list value -> string)
    (v : value) (d : VoxelData) (fs : value) :
  importVoxel StringToNumber ArrayToString v = Some d ->
  getProperty v "stepIndex" = Some fs ->
  fs <> VUndefined ->
  d_stepIndex d = Some (Number StringToNumber ArrayToString fs) /\
  (fs = VNull -> d_stepIndex d = Some (lit 0)) /\
  (fs = VBool true -> d_stepIndex d = Some (lit 1)) /\
  (forall props, fs = VObject props -> d_stepIndex d = Some NaN).
Proof.
  intros Hd Hfs Hne.
  apply importVoxel_fields in Hd
    as (c & col & fx & fy & fz & fs' & _ & _ & _ & _ & _ & Hfs'
        & _ & _ & _ & _ & Htag).
  rewrite Hfs in Hfs'. injection Hfs' as <-.
  assert (d_stepIndex d = Some (Number StringToNumber ArrayToString fs)) as H.
  { rewrite Htag. by destruct fs. }
  split; [exact H|]. rewrite H.
  split; [by intros ->|]. split; [by intros ->|]. by intros props ->.
Qed.

Lemma import_keeps_malformed_stepIndex_witness :
  d_stepIndex (Sample.imported (lit 0)) =
  Some (Number Sample.StringToNumber Sample.ArrayToString VNull).
Proof.
  apply (import_keeps_malformed_stepIndex Sample.StringToNumber
           Sample.ArrayToString (JSON_parse (Sample.entry JNull))).
  - reflexivity.
  - reflexivity.
  - discriminate.
Defined.

(** ** Indices of reachable engines *)

Section Reachable.

Variable FLOOR_Y : number.
Variable random : nat -> Qc.

Lemma carriers_in_range (vs : list SimulationVoxel) (t : number) (i : nat) :
  i ∈ carriers vs t -> (i < length vs)%nat.
Proof.
  intros (v & Hv & _)%elem_of_carriers. by eapply lookup_lt_Some.
Qed.

Lemma execute_indices (c : Command) (e : Engine) :
  indicesInRange e -> indicesInRange (execute random c e).
Proof.
  intros He. destruct c as [data| |t|t]; cbn [execute].
  - intros i Hi. cbn in Hi. set_solver.
  - unfold dismantle. destruct (bool_decide (state e ≠ STABLE)); [done|].
    intros i Hi. cbn in Hi. set_solver.
  - rewrite rebuildLayer_unfold. intros i Hi. cbn in *.
    apply elem_of_union in Hi as [[Hi|Hi]%elem_of_union|Hi].
    + by eapply carriers_in_range.
    + apply He. set_solver.
    + apply He. set_solver.
  - destruct (rejectLayer_fields random e t) as (_ & _ & HA & HR & _ & Hlen).
    intros i Hi. rewrite HA, HR in Hi. rewrite Hlen.
    apply elem_of_union in Hi as [Hi|[Hi|Hi]%elem_of_union].
    + apply He. set_solver.
    + by eapply carriers_in_range.
    + apply He. set_solver.
Qed.

Lemma rejectTimeout_indices (e : Engine) :
  indicesInRange e -> indicesInRange (rejectTimeout e).
Proof.
  intros He. unfold rejectTimeout.
  destruct (bool_decide (state e = REJECTING)); [|done].
  intros i Hi. cbn in *. apply He. set_solver.
Qed.

Lemma fireDue_indices (now : nat) (due : list nat) (e : Engine) :
  indicesInRange e -> indicesInRange (fireDue now due e).
Proof.
  revert e. induction due as [|t due IH]; intros e He; [done|].
  rewrite fireDue_cons. apply IH.
  destruct (bool_decide (t ≤ now)%nat); [by apply rejectTimeout_indices|done].
Qed.

Lemma step_indices (w : World) (ev : Event) :
  indicesInRange (engine w) ->
  indicesInRange (engine (step FLOOR_Y random w ev)).
Proof.
  intros Hw. destruct ev as [c| |ms]; cbn [step engine].
  - by apply execute_indices.
  - destruct (updatePhysics_fields FLOOR_Y (engine w))
      as (_ & HA & HR & _ & _ & Hlen).
    intros i Hi. rewrite HA, HR in Hi. rewrite Hlen. by apply Hw.
  - by apply fireDue_indices.
Qed.

Lemma run_indices (evs : list Event) (w : World) :
  indicesInRange (engine w) ->
  indicesInRange (engine (run FLOOR_Y random w evs)).
Proof.
  revert w. induction evs as [|ev evs IH]; intros w Hw; [done|].
  rewrite run_cons. by apply IH, step_indices.
Qed.

(** In an engine that events lead to, every index of the active and of the
    rejecting set is the index of a voxel, so [this.voxels[i]] is defined
    in the loops of [updatePhysics]. *)
Lemma reachable_indices (e : Engine) :
  reachable FLOOR_Y random e -> indicesInRange e.
Proof.
  intros [evs <-]. apply run_indices. intros i Hi. cbn in Hi. set_solver.
Qed.

End Reachable.

(** * Further properties of the engine *)

(** ** Fields that only [createVoxels] writes *)

Lemma sameIdentity_refl (v : SimulationVoxel) : sameIdentity v v.
Proof. by repeat split. Qed.

Lemma sameIdentity_trans (v1 v2 v3 : SimulationVoxel) :
  sameIdentity v1 v2 -> sameIdentity v2 v3 -> sameIdentity v1 v3.
Proof.
  intros (H1 & H2 & H3 & H4 & H5 & H6) (K1 & K2 & K3 & K4 & K5 & K6).
  repeat split; congruence.
Qed.

Lemma rubble_identity (FLOOR_Y : number) (v : SimulationVoxel) :
  sameIdentity v (rubble FLOOR_Y v).
Proof.
  unfold rubble, sameIdentity.
  match goal with |- context [if ?b then _ else _] => destruct b end;
    cbn [id color stepIndex originalX originalY originalZ
         setVelocity setPosition setRotation setSpin]; by repeat split.
Qed.
Lemma flight_identity (targets : list RebuildTarget) (i : nat)
    (v : SimulationVoxel) :
  sameIdentity v (flight targets i v).
Proof.
  unfold flight, sameIdentity. destruct (targetOf targets i v) as [[tx ty] tz].
  repeat (match goal with |- context [if ?b then _ else _] => destruct b end);
    cbn [id color stepIndex originalX originalY originalZ
         setVelocity setPosition setRotation setSpin]; by repeat split.
Qed.
Lemma bounce_identity (FLOOR_Y : number) (v : SimulationVoxel) :
  sameIdentity v (bounce FLOOR_Y v).
Proof.
  unfold bounce, sameIdentity.
  match goal with |- context [if ?b then _ else _] => destruct b end;
    cbn [id color stepIndex originalX originalY originalZ
         setVelocity setPosition setRotation setSpin]; by repeat split.
Qed.

Lemma tickVoxel_identity (FLOOR_Y : number) (e : Engine) (i : nat)
    (v : SimulationVoxel) :
  sameIdentity v (tickVoxel FLOOR_Y e i v).
Proof.
  unfold tickVoxel.
  apply (sameIdentity_trans _
           (if flightApplies e i
            then flight (rebuildTargets e) i
                   (if rubbleApplies e i then rubble FLOOR_Y v else v)
            else if rubbleApplies e i then rubble FLOOR_Y v else v)).
  - apply (sameIdentity_trans _
             (if rubbleApplies e i then rubble FLOOR_Y v else v)).
    + destruct (rubbleApplies e i);
        [apply rubble_identity|apply sameIdentity_refl].
    + destruct (flightApplies e i);
        [apply flight_identity|apply sameIdentity_refl].
  - destruct (bounceApplies e i);
      [apply bounce_identity|apply sameIdentity_refl].
Qed.

Lemma jiggled_identity (random : nat -> Qc) (t : number)
    (v v' : SimulationVoxel) :
  jiggled random t v v' -> sameIdentity v v'.
Proof.
  intros [[_ ->]|[_ [k ->]]]; by repeat split.
Qed.

Lemma Forall2_same_lookup {A : Type} (P : A -> A -> Prop) (f : nat -> A -> A)
    (l l' : list A) :
  (forall i, l' !! i = f i <$> l !! i) ->
  (forall i a, P a (f i a)) ->
  Forall2 P l l'.
Proof.
  intros Hl HP. apply Forall2_same_length_lookup. split.
  - apply Nat.le_antisymm.
    + apply Nat.nlt_ge. intros Hlt.
      destruct (lookup_lt_is_Some_2 l (length l') Hlt) as [a Ha].
      pose proof (Hl (length l')) as H. rewrite Ha in H.
      by rewrite lookup_ge_None_2 in H.
    + apply Nat.nlt_ge. intros Hlt.
      destruct (lookup_lt_is_Some_2 l' (length l) Hlt) as [a Ha].
      pose proof (Hl (length l)) as H. rewrite Ha in H.
      by rewrite (lookup_ge_None_2 l) in H.
  - intros i a a' Ha Ha'. rewrite Hl, Ha in Ha'. injection Ha' as <-. apply HP.
Qed.

Section Identity.

Variable FLOOR_Y : number.
Variable random : nat -> Qc.

Lemma updatePhysics_identity (e : Engine) :
  Forall2 sameIdentity (voxels e) (voxels (updatePhysics FLOOR_Y e)).
Proof.
  apply (Forall2_same_lookup _ (tickVoxel FLOOR_Y e)).
  - apply updatePhysics_lookup.
  - intros i v. apply tickVoxel_identity.
Qed.

Lemma dismantle_identity (e : Engine) :
  Forall2 sameIdentity (voxels e) (voxels (dismantle random e)).
Proof.
  unfold dismantle. destruct (bool_decide (state e ≠ STABLE)).
  - apply Forall_Forall2_diag, Forall_forall. intros v _.
    apply sameIdentity_refl.
  - cbn [voxels]. apply Forall2_imap_r. intros i v _. by repeat split.
Qed.

Lemma rejectLayer_identity (e : Engine) (t : number) :
  Forall2 sameIdentity (voxels e) (voxels (rejectLayer random e t)).
Proof.
  eapply Forall2_impl; [|apply (rejectLayer_voxels random)].
  apply jiggled_identity.
Qed.

Lemma rejectTimeout_voxels (e : Engine) :
  voxels (rejectTimeout e) = voxels e.
Proof. unfold rejectTimeout. by destruct (bool_decide (state e = REJECTING)). Qed.

Lemma fireDue_voxels (now : nat) (due : list nat) (e : Engine) :
  voxels (fireDue now due e) = voxels e.
Proof.
  revert e. induction due as [|t due IH]; intros e; [done|].
  rewrite fireDue_cons, IH.
  destruct (bool_decide (t ≤ now)%nat); [apply rejectTimeout_voxels|done].
Qed.

Lemma Forall2_sameIdentity_refl (vs : list SimulationVoxel) :
  Forall2 sameIdentity vs vs.
Proof.
  apply Forall_Forall2_diag, Forall_forall. intros v _. apply sameIdentity_refl.
Qed.

Lemma Forall2_sameIdentity_trans (l1 l2 l3 : list SimulationVoxel) :
  Forall2 sameIdentity l1 l2 -> Forall2 sameIdentity l2 l3 ->
  Forall2 sameIdentity l1 l3.
Proof.
  intros H12. revert l3. induction H12 as [|v1 v2 l1 l2 Hv H12 IH]; intros l3 H23.
  - by inversion H23.
  - inversion H23 as [|? v3 ? l3' Hv' H23']; subst.
    constructor; [exact (sameIdentity_trans _ _ _ Hv Hv')|by apply IH].
Qed.

Lemma step_identity (w : World) (ev : Event) :
  noLoad ev ->
  Forall2 sameIdentity (voxels (engine w))
    (voxels (engine (step FLOOR_Y random w ev))).
Proof.
  intros Hev. destruct ev as [[data| |t|t]| |ms]; cbn [step engine execute].
  - done.
  - apply dismantle_identity.
  - rewrite rebuildLayer_unfold. apply Forall2_sameIdentity_refl.
  - apply rejectLayer_identity.
  - apply updatePhysics_identity.
  - rewrite fireDue_voxels. apply Forall2_sameIdentity_refl.
Qed.

End Identity.

(** X1. As long as no model is loaded, nothing changes the number of voxels or
    the id, the colour, the tag or the original position of a voxel:
    dismantling, attempting and rejecting steps, frames and timers leave
    them as [createVoxels] wrote them. *)
Theorem events_keep_identity (FLOOR_Y : number) (random : nat -> Qc)
    (evs : list Event) (w : World) :
  Forall noLoad evs ->
  Forall2 sameIdentity (voxels (engine w))
    (voxels (engine (run FLOOR_Y random w evs))).
Proof.
  intros Hevs. revert w.
  induction Hevs as [|ev evs Hev Hevs IH]; intros w.
  - apply Forall2_sameIdentity_refl.
  - rewrite run_cons.
    apply (Forall2_sameIdentity_trans _
             (voxels (engine (step FLOOR_Y random w ev))));
      [apply step_identity, Hev|apply IH].
Qed.

Lemma events_keep_identity_witness :
  Forall2 sameIdentity
    (voxels (engine Sample.loaded))
    (voxels (engine (run Sample.FLOOR_Y Sample.random Sample.loaded
                       [Call Dismantle; Frame; Call (RejectLayer (lit 0));
                        Frame; Elapse 800; Call (RebuildLayer (lit 0));
                        Frame]))).
Proof.
  apply events_keep_identity. repeat constructor.
Defined.

(** ** Invariants of the engines that events lead to *)

Section Invariants.

Variable FLOOR_Y : number.
Variable random : nat -> Qc.

(** A property of the new engine that every command, every frame and the
    callback of the timer keep holds after any events. *)
Lemma run_invariant (P : Engine -> Prop) :
  (forall c e, P e -> P (execute random c e)) ->
  (forall e, P e -> P (updatePhysics FLOOR_Y e)) ->
  (forall e, P e -> P (rejectTimeout e)) ->
  forall evs w, P (engine w) -> P (engine (run FLOOR_Y random w evs)).
Proof.
  intros Hc Hf Ht evs. induction evs as [|ev evs IH]; intros w Hw; [done|].
  rewrite run_cons. apply IH. destruct ev as [c| |ms]; cbn [step engine].
  - by apply Hc.
  - by apply Hf.
  - generalize (timers w). intros due. revert Hw. generalize (engine w).
    induction due as [|t due IHd]; intros e He; [done|].
    rewrite fireDue_cons. apply IHd.
    destruct (bool_decide (t ≤ clock w + ms)%nat); [by apply Ht|done].
Qed.

Lemma sameIdentity_ids (e e' : Engine) :
  Forall2 sameIdentity (voxels e) (voxels e') ->
  idsAreIndices e -> idsAreIndices e'.
Proof.
  intros HF He i v' Hv'.
  destruct (Forall2_lookup_r _ _ _ _ _ HF Hv') as (v & Hv & Hid & _).
  rewrite Hid. by apply He.
Qed.

Lemma execute_ids (c : Command) (e : Engine) :
  idsAreIndices e -> idsAreIndices (execute random c e).
Proof.
  destruct c as [data| |t|t]; cbn [execute].
  - intros _ i v. rewrite loadInitialModel_voxels, list_lookup_imap.
    destruct (data !! i); [|done]. by intros [= <-].
  - apply sameIdentity_ids, dismantle_identity.
  - apply sameIdentity_ids. rewrite rebuildLayer_unfold.
    apply Forall2_sameIdentity_refl.
  - apply sameIdentity_ids, rejectLayer_identity.
Qed.

Lemma lastState_app (log : list Notification) (s s0 : AppState) :
  lastState (log ++ [StateChange s]) s0 = s.
Proof. revert s0. induction log as [|[s'|n] log IH]; intros s0; cbn; auto. Qed.

Lemma lastCount_app_state (log : list Notification) (s : AppState) (n0 : nat) :
  lastCount (log ++ [StateChange s]) n0 = lastCount log n0.
Proof. revert n0. induction log as [|[s'|n] log IH]; intros n0; cbn; auto. Qed.

Lemma lastCount_app_count (log : list Notification) (n n0 : nat) :
  lastCount (log ++ [CountChange n]) n0 = n.
Proof. revert n0. induction log as [|[s'|n'] log IH]; intros n0; cbn; auto. Qed.

Lemma execute_uiInSync (c : Command) (e : Engine) :
  uiInSync e -> uiInSync (execute random c e).
Proof.
  intros [Hs Hn]. destruct c as [data| |t|t]; cbn [execute].
  - unfold uiInSync, loadInitialModel.
    cbn [notifications state voxels createVoxels].
    change [CountChange (length (imap (createVoxel random (randomCalls e)) data));
            StateChange STABLE]
      with ([CountChange (length (imap (createVoxel random (randomCalls e)) data))]
              ++ [StateChange STABLE]).
    rewrite app_assoc, lastState_app, lastCount_app_state, lastCount_app_count.
    done.
  - unfold dismantle. destruct (bool_decide (state e ≠ STABLE)); [done|].
    unfold uiInSync. cbn [notifications state voxels].
    by rewrite lastState_app, lastCount_app_state, length_imap.
  - rewrite rebuildLayer_unfold. unfold uiInSync.
    cbn [snd notifications state voxels].
    by rewrite lastState_app, lastCount_app_state.
  - destruct (rejectLayer_fields random e t) as (H1 & H2 & _ & _ & _ & H6).
    unfold uiInSync. rewrite H1, H2, H6.
    by rewrite lastState_app, lastCount_app_state.
Qed.

Lemma updatePhysics_uiInSync (e : Engine) :
  uiInSync e -> uiInSync (updatePhysics FLOOR_Y e).
Proof.
  intros [Hs Hn].
  destruct (updatePhysics_fields FLOOR_Y e) as (H1 & _ & _ & _ & H5 & H6).
  unfold uiInSync. by rewrite H1, H5, H6.
Qed.

Lemma rejectTimeout_uiInSync (e : Engine) :
  uiInSync e -> uiInSync (rejectTimeout e).
Proof.
  intros [Hs Hn]. unfold rejectTimeout.
  destruct (bool_decide (state e = REJECTING)); [|done].
  unfold uiInSync. cbn [notifications state voxels setState].
  by rewrite lastState_app, lastCount_app_state.
Qed.

Lemma rejectTimeout_state (e : Engine) : state (rejectTimeout e) <> REJECTING.
Proof.
  unfold rejectTimeout. destruct (bool_decide (state e = REJECTING)) eqn:H.
  - done.
  - by apply bool_decide_eq_false_1 in H.
Qed.

Lemma execute_intact (c : Command) (e : Engine) :
  (state e = STABLE -> intact e) ->
  state (execute random c e) = STABLE -> intact (execute random c e).
Proof.
  intros He. destruct c as [data| |t|t]; cbn [execute].
  - intros _. unfold intact. rewrite loadInitialModel_voxels.
    repeat split; try done.
    apply Forall_lookup. intros i v Hi.
    rewrite list_lookup_imap in Hi. destruct (data !! i) as [d|]; [|done].
    injection Hi as <-. split.
    + apply createVoxel_atRest.
    + apply createVoxel_atOriginal.
  - unfold dismantle. destruct (bool_decide (state e ≠ STABLE)); done.
  - by rewrite rebuildLayer_unfold.
  - destruct (rejectLayer_fields random e t) as (H1 & _). by rewrite H1.
Qed.

Lemma updatePhysics_intact (e : Engine) :
  (state e = STABLE -> intact e) ->
  state (updatePhysics FLOOR_Y e) = STABLE -> intact (updatePhysics FLOOR_Y e).
Proof.
  intros He Hs.
  destruct (updatePhysics_fields FLOOR_Y e) as (H1 & _).
  rewrite H1 in Hs. rewrite (updatePhysics_stable _ _ Hs). by apply He.
Qed.

Lemma rejectTimeout_intact (e : Engine) :
  (state e = STABLE -> intact e) ->
  state (rejectTimeout e) = STABLE -> intact (rejectTimeout e).
Proof.
  intros He. unfold rejectTimeout.
  destruct (bool_decide (state e = REJECTING)); done.
Qed.





End Invariants.

(** X2. After any events, the [id] of a voxel is its index in the array of the
    engine, whatever was loaded, dismantled, rebuilt or rejected. *)
Theorem ids_are_indices (FLOOR_Y : number) (random : nat -> Qc)
    (evs : list Event) :
  idsAreIndices (engine (run FLOOR_Y random newWorld evs)).
Proof.
  apply run_invariant.
  - apply execute_ids.
  - intros e. apply sameIdentity_ids, updatePhysics_identity.
  - intros e. apply sameIdentity_ids. rewrite rejectTimeout_voxels.
    apply Forall2_sameIdentity_refl.
  - intros i v Hv. cbn in Hv. by rewrite lookup_nil in Hv.
Qed.

(** X3. After any events, the last state and the last count the engine passed
    to [onStateChange] and [onCountChange] are its state and the number of
    its voxels: the user interface never shows a stale state or count. *)
Theorem notifications_in_sync (FLOOR_Y : number) (random : nat -> Qc)
    (evs : list Event) :
  uiInSync (engine (run FLOOR_Y random newWorld evs)).
Proof.
  apply run_invariant.
  - apply execute_uiInSync.
  - apply updatePhysics_uiInSync.
  - apply rejectTimeout_uiInSync.
  - done.
Qed.

(** X4. Whenever the state is [STABLE] after some events, the model stands as
    it was loaded: both index sets are empty, no rebuild target is stored,
    and every voxel is at rest on its original position. *)
Theorem stable_means_intact (FLOOR_Y : number) (random : nat -> Qc)
    (evs : list Event) :
  state (engine (run FLOOR_Y random newWorld evs)) = STABLE ->
  intact (engine (run FLOOR_Y random newWorld evs)).
Proof.
  apply (run_invariant FLOOR_Y random (fun e => state e = STABLE -> intact e)).
  - apply execute_intact.
  - apply updatePhysics_intact.
  - apply rejectTimeout_intact.
  - intros _. by repeat split.
Qed.

Lemma stable_means_intact_witness :
  intact (engine (run Sample.FLOOR_Y Sample.random newWorld
                    [Call (RebuildLayer (lit 0)); Frame;
                     Call (LoadInitialModel [Sample.spec 5 0]); Frame])).
Proof.
  apply stable_means_intact. reflexivity.
Defined.




(** ** The timer of [rejectLayer] always ends the rejection *)

Section RejectionEnds.

Variable FLOOR_Y : number.
Variable random : nat -> Qc.

Lemma fireDue_rejecting (now : nat) (due : list nat) (e : Engine) :
  state (fireDue now due e) = REJECTING ->
  state e = REJECTING /\ forall t, t ∈ due -> (now < t)%nat.
Proof.
  induction due as [|t due IH] in e |- *.
  - intros Hs. split; [done|]. intros t Ht. by apply elem_of_nil in Ht.
  - rewrite fireDue_cons. destruct (bool_decide (t ≤ now)%nat) eqn:Hd.
    + rewrite fireDue_after. intros Hs. by destruct (rejectTimeout_state e).
    + intros [Hs Hall]%IH. split; [done|].
      intros t' [->|Ht']%elem_of_cons; [|by apply Hall].
      apply bool_decide_eq_false_1 in Hd. lia.
Qed.

Lemma step_rejectionEnds (w : World) (ev : Event) :
  rejectionEnds w -> rejectionEnds (step FLOOR_Y random w ev).
Proof.
  intros Hw. destruct ev as [[data| |t|t]| |ms]; unfold rejectionEnds;
    cbn [step engine clock timers execute schedules].
  - done.
  - unfold dismantle. destruct (bool_decide (state (engine w) ≠ STABLE)).
    + rewrite app_nil_r. apply Hw.
    + done.
  - by rewrite rebuildLayer_unfold.
  - intros _. exists (clock w + REJECT_DELAY)%nat. split; [|done].
    apply elem_of_app. right. apply list_elem_of_singleton. done.
  - destruct (updatePhysics_fields FLOOR_Y (engine w)) as (H1 & _).
    rewrite H1. apply Hw.
  - intros [Hs Hall]%fireDue_rejecting.
    destruct (Hw Hs) as (t & Ht & Hle). exists t. split.
    + apply list_elem_of_filter. split; [by apply Hall|done].
    + lia.
Qed.

Lemma run_rejectionEnds (evs : list Event) (w : World) :
  rejectionEnds w -> rejectionEnds (run FLOOR_Y random w evs).
Proof.
  revert w. induction evs as [|ev evs IH]; intros w Hw; [done|].
  rewrite run_cons. by apply IH, step_rejectionEnds.
Qed.

End RejectionEnds.

(** X6. After any events, once the delay of [rejectLayer] (or more) has passed
    the state is not [REJECTING]: whenever the engine is in that state a
    callback is pending that will leave it. *)
Theorem rejection_always_ends (FLOOR_Y : number) (random : nat -> Qc)
    (evs : list Event) (d : nat) :
  state (engine (step FLOOR_Y random (run FLOOR_Y random newWorld evs)
                   (Elapse (REJECT_DELAY + d)))) <> REJECTING.
Proof.
  cbn [step engine]. intros [Hs Hall]%fireDue_rejecting.
  destruct (run_rejectionEnds FLOOR_Y random evs newWorld) as (t & Ht & Hle);
    [done|done|].
  specialize (Hall t Ht). lia.
Qed.

(** ** The floor *)

Lemma lt_irrefl (a : number) : (a < a)%js = false.
Proof.
  destruct a as [q| |[|]]; try done.
  apply Qcltb_false, Qcle_refl.
Qed.

Lemma rubble_on_floor (FLOOR_Y : number) (v : SimulationVoxel) :
  onOrAboveFloor FLOOR_Y (rubble FLOOR_Y v).
Proof.
  unfold onOrAboveFloor, rubble. cbv zeta.
  match goal with
  | |- (y (if ?b then _ else _) < _)%js = false => destruct b eqn:Hb
  end.
  - cbn [y setVelocity setSpin setPosition]. apply lt_irrefl.
  - exact Hb.
Qed.

Lemma bounce_on_floor (FLOOR_Y : number) (v : SimulationVoxel) :
  onOrAboveFloor FLOOR_Y (bounce FLOOR_Y v).
Proof.
  unfold onOrAboveFloor, bounce. cbv zeta.
  match goal with
  | |- (y (if ?b then _ else _) < _)%js = false => destruct b eqn:Hb
  end.
  - cbn [y setVelocity setSpin setPosition]. apply lt_irrefl.
  - exact Hb.
Qed.

(** X7. Outside the state [STABLE], a frame leaves no falling voxel under the
    floor: a voxel that is not in the active set, and is in the rejecting
    set only while the state is [REJECTING], ends the frame with
    [y >= FLOOR_Y + 0.5] or with a [y] that is not a number, whatever its
    position and velocity were. *)
Theorem frame_stops_at_floor (FLOOR_Y : number) (e : Engine) (i : nat)
    (v' : SimulationVoxel) :
  state e <> STABLE ->
  i ∉ activeRebuildIndices e ->
  (i ∈ rejectingIndices e -> state e = REJECTING) ->
  voxels (updatePhysics FLOOR_Y e) !! i = Some v' ->
  onOrAboveFloor FLOOR_Y v'.
Proof.
  intros Hs Ha Hr. rewrite updatePhysics_lookup.
  destruct (voxels e !! i) as [v|]; [|done]. intros [= <-].
  unfold tickVoxel, rubbleApplies, flightApplies, bounceApplies.
  rewrite (bool_decide_eq_false_2 (state e = STABLE) Hs).
  rewrite (bool_decide_eq_false_2 (i ∈ activeRebuildIndices e) Ha).
  rewrite andb_false_r. cbn [negb andb].
  destruct (decide (i ∈ rejectingIndices e)) as [Hi|Hi].
  - rewrite (bool_decide_eq_true_2 _ Hi), (bool_decide_eq_true_2 _ (Hr Hi)).
    cbn [negb andb]. apply bounce_on_floor.
  - rewrite (bool_decide_eq_false_2 _ Hi), andb_false_r. cbn [negb].
    apply rubble_on_floor.
Qed.

Lemma frame_stops_at_floor_witness :
  exists v',
    voxels (updatePhysics Sample.FLOOR_Y
              (dismantle Sample.random
                 (loadInitialModel Sample.random newEngine
                    [Sample.spec (-13) 0]))) !! 0%nat = Some v' /\
    onOrAboveFloor Sample.FLOOR_Y v'.
Proof.
  eexists. split; [vm_compute; reflexivity|].
  apply (frame_stops_at_floor Sample.FLOOR_Y
           (dismantle Sample.random
              (loadInitialModel Sample.random newEngine
                 [Sample.spec (-13) 0])) 0).
  - discriminate.
  - apply (bool_decide_unpack _). vm_compute. exact I.
  - intros Hi. exfalso. revert Hi. apply (bool_decide_unpack _).
    vm_compute. exact I.
  - vm_compute. reflexivity.
Defined.

(** X8. After any events, every index of the active and of the rejecting set
    is the index of a voxel: the loops of [updatePhysics] over the two sets
    never read [this.voxels[i]] outside the array. *)
Theorem indices_stay_in_range (FLOOR_Y : number) (random : nat -> Qc)
    (evs : list Event) :
  indicesInRange (engine (run FLOOR_Y random newWorld evs)).
Proof.
  apply run_indices. intros i Hi. cbn in Hi. set_solver.
Qed.

(** ** The camera target of [loadInitialModel] *)

Lemma minY_from (data : list VoxelData) (m : Qc) :
  Forall (fun d => isFinite (d_y d) = true) data ->
  exists lo,
    foldl (fun m d => if d_y d < m then d_y d else m) (Num m) data = Num lo /\
    (lo <= m)%Qc /\
    (lo = m \/ exists d, d ∈ data /\ d_y d = Num lo) /\
    forall d, d ∈ data -> exists q, d_y d = Num q /\ (lo <= q)%Qc.
Proof.
  intros Hfin. revert m.
  induction Hfin as [|d data Hd Hfin IH]; intros m.
  - exists m. split; [done|]. split; [apply Qcle_refl|]. split; [by left|].
    intros d Hd. by apply elem_of_nil in Hd.
  - destruct (d_y d) as [q| |] eqn:Hq; try discriminate Hd.
    cbn [foldl]. rewrite Hq. change (Num q < Num m)%js with (Qcltb q m).
    destruct (Qcltb q m) eqn:Hlt.
    + apply Qcltb_true in Hlt.
      destruct (IH q) as (lo & Hlo & Hle & Hat & Hall).
      exists lo. split; [done|]. split.
      { apply Qclt_le_weak. by apply (Qcle_lt_trans _ q). }
      split.
      { right. destruct Hat as [->|(d' & Hd' & Hy)].
        - exists d. split; [apply elem_of_cons; by left|done].
        - exists d'. split; [apply elem_of_cons; by right|done]. }
      intros d' [->|Hd']%elem_of_cons; [by exists q|by apply Hall].
    + apply Qcltb_false in Hlt.
      destruct (IH m) as (lo & Hlo & Hle & Hat & Hall).
      exists lo. split; [done|]. split; [done|]. split.
      { destruct Hat as [->|(d' & Hd' & Hy)]; [by left|].
        right. exists d'. split; [apply elem_of_cons; by right|done]. }
      intros d' [->|Hd']%elem_of_cons; [|by apply Hall].
      exists q. split; [done|]. by apply (Qcle_trans _ m).
Qed.

Lemma maxY_from (data : list VoxelData) (m : Qc) :
  Forall (fun d => isFinite (d_y d) = true) data ->
  exists hi,
    foldl (fun m d => if d_y d > m then d_y d else m) (Num m) data = Num hi /\
    (m <= hi)%Qc /\
    (hi = m \/ exists d, d ∈ data /\ d_y d = Num hi) /\
    forall d, d ∈ data -> exists q, d_y d = Num q /\ (q <= hi)%Qc.
Proof.
  intros Hfin. revert m.
  induction Hfin as [|d data Hd Hfin IH]; intros m.
  - exists m. split; [done|]. split; [apply Qcle_refl|]. split; [by left|].
    intros d Hd. by apply elem_of_nil in Hd.
  - destruct (d_y d) as [q| |] eqn:Hq; try discriminate Hd.
    cbn [foldl]. rewrite Hq. change (Num q > Num m)%js with (Qcltb m q).
    destruct (Qcltb m q) eqn:Hlt.
    + apply Qcltb_true in Hlt.
      destruct (IH q) as (hi & Hhi & Hle & Hat & Hall).
      exists hi. split; [done|]. split.
      { apply Qclt_le_weak. by apply (Qclt_le_trans _ q). }
      split.
      { right. destruct Hat as [->|(d' & Hd' & Hy)].
        - exists d. split; [apply elem_of_cons; by left|done].
        - exists d'. split; [apply elem_of_cons; by right|done]. }
      intros d' [->|Hd']%elem_of_cons; [by exists q|by apply Hall].
    + apply Qcltb_false in Hlt.
      destruct (IH m) as (hi & Hhi & Hle & Hat & Hall).
      exists hi. split; [done|]. split; [done|]. split.
      { destruct Hat as [->|(d' & Hd' & Hy)]; [by left|].
        right. exists d'. split; [apply elem_of_cons; by right|done]. }
      intros d' [->|Hd']%elem_of_cons; [|by apply Hall].
      exists q. split; [done|]. by apply (Qcle_trans _ m).
Qed.

Lemma extent_of_finite (data : list VoxelData) :
  data <> [] ->
  Forall (fun d => isFinite (d_y d) = true) data ->
  exists lo hi,
    minY data = Num lo /\ maxY data = Num hi /\ verticalExtent data lo hi.
Proof.
  intros Hne Hfin. destruct Hfin as [|d data Hd Hfin]; [done|].
  destruct (d_y d) as [q| |] eqn:Hq; try discriminate Hd.
  destruct (minY_from data q Hfin) as (lo & Hlo & Hle & Hat & Hall).
  destruct (maxY_from data q Hfin) as (hi & Hhi & Hge & Hat' & Hall').
  exists lo, hi. split; [|split].
  - unfold minY. cbn [foldl]. by rewrite Hq.
  - unfold maxY. cbn [foldl]. by rewrite Hq.
  - split; [|split].
    + destruct Hat as [->|(d' & Hd' & Hy)].
      * exists d. split; [apply elem_of_cons; by left|done].
      * exists d'. split; [apply elem_of_cons; by right|done].
    + destruct Hat' as [->|(d' & Hd' & Hy)].
      * exists d. split; [apply elem_of_cons; by left|done].
      * exists d'. split; [apply elem_of_cons; by right|done].
    + intros d' [->|Hd']%elem_of_cons.
      * by exists q.
      * destruct (Hall d' Hd') as (q1 & Hq1 & H1).
        destruct (Hall' d' Hd') as (q2 & Hq2 & H2).
        exists q1. split; [done|]. split; [done|]. congruence.
Qed.

(** X9. Loading a model that is not empty and whose specs have finite heights
    points the camera at the height half way between the lowest and the
    highest voxel. *)
Theorem load_centres_camera (random : nat -> Qc) (e : Engine)
    (data : list VoxelData) :
  data <> [] ->
  Forall (fun d => isFinite (d_y d) = true) data ->
  exists lo hi,
    verticalExtent data lo hi /\
    controlsTargetY (loadInitialModel random e data)
    = Num ((lo + hi) / dec 2).
Proof.
  intros Hne Hfin.
  destruct (extent_of_finite data Hne Hfin) as (lo & hi & Hlo & Hhi & Hext).
  exists lo, hi. split; [done|].
  unfold loadInitialModel. cbn [controlsTargetY].
  rewrite bool_decide_eq_true_2 by (destruct data; [done|cbn; lia]).
  rewrite Hlo, Hhi. reflexivity.
Qed.

Lemma load_centres_camera_witness :
  exists lo hi,
    verticalExtent [Sample.spec 5 0; Sample.spec (-3) 1; Sample.spec 2 0] lo hi /\
    controlsTargetY
      (loadInitialModel Sample.random newEngine
         [Sample.spec 5 0; Sample.spec (-3) 1; Sample.spec 2 0])
    = Num ((lo + hi) / dec 2).
Proof.
  apply load_centres_camera.
  - discriminate.
  - repeat constructor.
Defined.

(** ** What a wrong answer does to the voxels *)

Lemma jiggle_range (r : Qc) :
  (0 <= r)%Qc -> (r < 1)%Qc ->
  (- dec 0.25 <= (r + - dec 0.5) * dec 0.5)%Qc /\
  ((r + - dec 0.5) * dec 0.5 < dec 0.25)%Qc.
Proof. intros H0 H1. split; qc2q; lra. Qed.

(** X10. When [Math.random()] is in its range, [rejectLayer] moves and turns no
    voxel: it leaves every voxel that does not carry the step as it is, and
    gives each voxel of the step the upward velocity 0.5 and horizontal
    velocities between -0.25 and 0.25. *)
Theorem rejectLayer_only_nudges (random : nat -> Qc) (e : Engine)
    (t : number) :
  (forall k, (0 <= random k)%Qc /\ (random k < 1)%Qc) ->
  Forall2 (nudged t) (voxels e) (voxels (rejectLayer random e t)).
Proof.
  intros Hr. eapply Forall2_impl; [|apply (rejectLayer_voxels random)].
  intros v v' [[Hc ->]|[Hc [k ->]]]; unfold nudged; rewrite Hc.
  - repeat split.
  - split; [done|]. split; [done|]. split; [done|].
    split; [by repeat split|]. split; [done|].
    exists ((random k + - dec 0.5) * dec 0.5)%Qc,
           ((random (k + 1)%nat + - dec 0.5) * dec 0.5)%Qc.
    destruct (Hr k) as [H0 H1]. destruct (Hr (k + 1)%nat) as [H0' H1'].
    destruct (jiggle_range _ H0 H1). destruct (jiggle_range _ H0' H1').
    by repeat split.
Qed.

Lemma rejectLayer_only_nudges_witness :
  Forall2 (nudged (lit 0))
    (voxels (engine Sample.loaded))
    (voxels (rejectLayer Sample.random (engine Sample.loaded) (lit 0))).
Proof.
  apply rejectLayer_only_nudges.
  intros k. split; by vm_compute.
Defined.

(** * The generators of [src/utils/voxelGenerators.ts] *)

(** ** The map of [setBlock] *)

Lemma Map_set_fresh (k : Key) (d : VoxelData) (map : VoxelMap) :
  k ∉ (fst <$> map) -> Map_set k d map = map ++ [(k, d)].
Proof.
  induction map as [|[k' d'] map IH]; intros Hk; [done|].
  cbn [Map_set]. rewrite fmap_cons, not_elem_of_cons in Hk.
  destruct Hk as [Hne Hk]. cbn [fst] in Hne.
  rewrite bool_decide_eq_false_2 by congruence.
  by rewrite IH.
Qed.

Lemma Map_set_keys (k : Key) (d : VoxelData) (map : VoxelMap) :
  k ∈ (fst <$> map) -> fst <$> Map_set k d map = fst <$> map.
Proof.
  induction map as [|[k' d'] map IH]; intros Hk.
  - by apply elem_of_nil in Hk.
  - cbn [Map_set]. destruct (decide (k' = k)) as [->|Hne].
    + by rewrite bool_decide_eq_true_2.
    + rewrite bool_decide_eq_false_2 by done.
      rewrite !fmap_cons, IH; [done|].
      rewrite fmap_cons in Hk. apply elem_of_cons in Hk as [Hk|Hk]; [|done].
      cbn [fst] in Hk. congruence.
Qed.

Lemma Map_set_NoDup (k : Key) (d : VoxelData) (map : VoxelMap) :
  NoDup (fst <$> map) -> NoDup (fst <$> Map_set k d map).
Proof.
  intros Hm. destruct (decide (k ∈ (fst <$> map))) as [Hk|Hk].
  - by rewrite Map_set_keys.
  - rewrite Map_set_fresh, fmap_app by done. apply list.NoDup_app.
    split; [done|]. split; [|apply NoDup_singleton].
    intros k' Hk' ->%list_elem_of_singleton. done.
Qed.

Lemma elem_of_Map_set (k : Key) (d : VoxelData) (map : VoxelMap)
    (p : Key * VoxelData) :
  NoDup (fst <$> map) ->
  p ∈ Map_set k d map <-> p = (k, d) \/ (p ∈ map /\ fst p <> k).
Proof.
  induction map as [|[k' d'] map IH]; intros Hm; cbn [Map_set].
  - rewrite list_elem_of_singleton. split; [by left|].
    intros [->|[H _]]; [done|by apply elem_of_nil in H].
  - rewrite fmap_cons in Hm. apply list.NoDup_cons in Hm as [Hk' Hm].
    cbn [fst] in Hk'. specialize (IH Hm).
    destruct (decide (k' = k)) as [->|Hne].
    + rewrite bool_decide_eq_true_2 by done. rewrite !elem_of_cons. split.
      * intros [->|Hp]; [by left|]. right. split; [by right|].
        intros <-. apply Hk'. by apply list_elem_of_fmap_2.
      * intros [->|[[->|Hp] Hne]]; [by left|done|by right].
    + rewrite bool_decide_eq_false_2 by done. rewrite !elem_of_cons, IH.
      split.
      * intros [->|[->|[Hp Hk]]]; [|by left|].
        -- right. split; [by left|done].
        -- right. split; [by right|done].
      * intros [->|[[->|Hp] Hk]]; [right; by left|by left|].
        right. right. done.
Qed.

(** Every entry of a map that [setBlock] built is stored under its own
    position, and no key occurs twice. *)
Lemma built_keys (map : VoxelMap) :
  built map ->
  NoDup (fst <$> map) /\ Forall (fun p => fst p = positionOf (snd p)) map.
Proof.
  induction 1 as [|map x y z c s Hb [Hnd Hall]]; [split; constructor|].
  unfold setBlock. split; [by apply Map_set_NoDup|].
  apply list.Forall_forall. intros p Hp.
  apply elem_of_Map_set in Hp as [->|[Hp _]]; [done| |done].
  rewrite list.Forall_forall in Hall. by apply Hall.
Qed.

(** X11. No two voxel specs of a map that calls of [setBlock] made of a new
    [Map] have the same position. *)
Theorem setBlock_no_overlap (map : VoxelMap) :
  built map -> NoDup (positionOf <$> Map_values map).
Proof.
  intros [Hnd Hall]%built_keys. unfold Map_values.
  rewrite <- list_fmap_compose.
  rewrite (list_fmap_ext (positionOf ∘ snd) fst map); [done|].
  intros i p Hp. symmetry. by apply (Forall_lookup_1 _ _ _ _ Hall Hp).
Qed.

Lemma setBlock_no_overlap_witness :
  NoDup (positionOf <$>
           Map_values
             (setBlock
                (setBlock (setBlock [] (lit 0.4) (lit 1) (lit 2) (lit 7) (lit 0))
                   (lit 3) (lit 1) (lit 2) (lit 8) (lit 1))
                (lit 0) (lit 1.2) (lit 1.5) (lit 9) (lit 2))).
Proof.
  apply setBlock_no_overlap. repeat constructor.
Defined.

(** X12. A call of [setBlock] on a map that [setBlock] built stores the block at
    the rounded position and removes the one that was there; every other
    voxel spec stays. *)
Theorem setBlock_overwrites (map : VoxelMap) (x y z color stepIndex : number)
    (d : VoxelData) :
  built map ->
  d ∈ Map_values (setBlock map x y z color stepIndex) <->
  d = blockAt x y z color stepIndex \/
  (d ∈ Map_values map /\
   positionOf d <> (Math_round x, Math_round y, Math_round z)).
Proof.
  intros [Hnd Hall]%built_keys. unfold Map_values, setBlock.
  rewrite !list_elem_of_fmap. split.
  - intros ([k d'] & -> & [Hp|[Hp Hk]]%elem_of_Map_set); [|..|done].
    + left. by injection Hp as _ ->.
    + right. cbn [snd fst] in *. split; [by exists (k, d')|].
      rewrite list.Forall_forall in Hall.
      apply Hall in Hp. cbn [fst snd] in Hp. congruence.
  - intros [->|[([k d'] & -> & Hp) Hk]].
    + eexists. split; [|apply elem_of_Map_set; [done|by left]]. done.
    + exists (k, d'). split; [done|]. apply elem_of_Map_set; [done|].
      right. split; [done|]. cbn [snd fst] in *.
      rewrite list.Forall_forall in Hall.
      apply Hall in Hp. cbn [fst snd] in Hp. congruence.
Qed.

Lemma setBlock_overwrites_witness :
  blockAt (lit 0) (lit 1.2) (lit 1.5) (lit 9) (lit 2) ∈
    Map_values
      (setBlock (setBlock [] (lit 0.4) (lit 1) (lit 2) (lit 7) (lit 0))
         (lit 0) (lit 1.2) (lit 1.5) (lit 9) (lit 2)).
Proof.
  apply setBlock_overwrites; [repeat constructor|by left].
Defined.

(** ** [getSafeColor] *)



(** X14. [getSafeColor] reads the colour text that [getHexString] writes, with
    the [#] that [getJsonData] puts before it, back to the colour. *)
Theorem getSafeColor_hex6 (n : N) :
  (n < 16777216)%N ->
  getSafeColor (String "#" (hex6 n)) = ofZ (Z.of_N n).
Proof.
  intros Hn. unfold getSafeColor.
  rewrite bool_decide_eq_false_2 by done.
  cbv zeta. by rewrite parseInt16_hex6.
Qed.

Lemma getSafeColor_hex6_witness :
  getSafeColor (String "#" (hex6 15158332)) = ofZ 15158332.
Proof.
  apply (getSafeColor_hex6 15158332). reflexivity.
Defined.

(** ** Rounding *)

Lemma Qfloor_unique (q : Q) (n : Z) :
  (inject_Z n <= q)%Q -> (q < inject_Z (n + 1))%Q -> Qfloor q = n.
Proof.
  intros Hle Hlt. apply Z.le_antisymm.
  - assert (Qfloor q < n + 1)%Z; [|lia]. rewrite Zlt_Qlt.
    apply (Qle_lt_trans _ q); [apply Qfloor_le|done].
  - rewrite <- (Qfloor_Z n). by apply Qfloor_resp_le.
Qed.

Lemma Qfloor_shift (n : Z) (q : Q) : Qfloor (inject_Z n + q) = (n + Qfloor q)%Z.
Proof.
  apply Qfloor_unique.
  - rewrite inject_Z_plus. pose proof (Qfloor_le q). lra.
  - replace (n + Qfloor q + 1)%Z with (n + (Qfloor q + 1))%Z by lia.
    rewrite inject_Z_plus. pose proof (Qlt_floor q). lra.
Qed.

Lemma Math_round_ofZ (n : Z) : Math_round (ofZ n) = ofZ n.
Proof.
  unfold Math_round, ofZ. cbn [this Qc_of_Z].
  rewrite Qfloor_shift. change (Qfloor (1 # 2)) with 0%Z.
  by rewrite Z.add_0_r.
Qed.

Lemma currentY_round (f : Qc) (index : nat) (y : Z) :
  Math_round (currentY (Num f) index y)
  = ofZ (Z.of_nat (index * 3) + y + floorLevel f).
Proof.
  unfold currentY, Math_round, ofNat, ofZ, lit, add, floorLevel.
  apply (f_equal (fun n => Num (Qc_of_Z n))).
  rewrite <- Qfloor_shift. apply Qfloor_comp.
  unfold dec. cbn [this Qcplus Q2Qc Qc_of_Z]. rewrite !Qred_correct.
  rewrite inject_Z_plus. ring.
Qed.

(** ** Loops as folds over the blocks they set *)

Lemma foldl_ext_list {A B : Type} (f g : A -> B -> A) (l : list B) (a : A) :
  (forall a b, b ∈ l -> f a b = g a b) -> foldl f a l = foldl g a l.
Proof.
  revert a. induction l as [|b l IH]; intros a H; [done|].
  cbn [foldl]. rewrite H by (apply elem_of_cons; by left).
  apply IH. intros a' b' Hb'. apply H, elem_of_cons. by right.
Qed.

Lemma foldl_bind_list {A B C : Type} (f : A -> C -> A) (g : B -> list C)
    (l : list B) (a : A) :
  foldl f a (l ≫= g) = foldl (fun a b => foldl f a (g b)) a l.
Proof.
  revert a. induction l as [|b l IH]; intros a; [done|].
  rewrite bind_cons, foldl_app. cbn [foldl]. apply IH.
Qed.

Lemma foldl_fmap_list {A B C : Type} (f : A -> C -> A) (g : B -> C)
    (l : list B) (a : A) :
  foldl f a (g <$> l) = foldl (fun a b => f a (g b)) a l.
Proof. revert a. induction l as [|b l IH]; intros a; [done|]. apply IH. Qed.

Lemma forEachFrom_ext {A St : Type} (f g : A -> nat -> St -> St) (i : nat)
    (l : list A) (s : St) :
  (forall a j s, f a j s = g a j s) -> forEachFrom f i l s = forEachFrom g i l s.
Proof.
  intros H. revert i s. induction l as [|a l IH]; intros i s; [done|].
  cbn [forEachFrom]. by rewrite H, IH.
Qed.

Lemma setBlock_setAll (map : VoxelMap) (x y z color stepIndex : number) :
  setBlock map x y z color stepIndex
  = setAll map [blockAt x y z color stepIndex].
Proof. reflexivity. Qed.

Lemma setAll_app (map : VoxelMap) (ds1 ds2 : list VoxelData) :
  setAll map (ds1 ++ ds2) = setAll (setAll map ds1) ds2.
Proof. apply foldl_app. Qed.

Lemma layer_setAll (FLOOR_Y : number) (cells : list (Z * Z)) (colorInt : number)
    (index : nat) (y : Z) (map : VoxelMap) :
  foldl (fun map c =>
           setBlock map (ofZ (fst c)) (currentY FLOOR_Y index y) (ofZ (snd c))
             colorInt (ofNat index))
        map cells
  = setAll map (layer FLOOR_Y cells colorInt index y).
Proof. unfold setAll, layer. by rewrite foldl_fmap_list. Qed.

Lemma step_setAll (FLOOR_Y : number) (cellsOf : nat -> Z -> list (Z * Z))
    (index : nat) (step : LessonStep) (map : VoxelMap) :
  forRange 0 2
    (fun y map =>
       foldl (fun map c =>
                setBlock map (ofZ (fst c)) (currentY FLOOR_Y index y)
                  (ofZ (snd c)) (getSafeColor (l_color step)) (ofNat index))
             map (cellsOf index y))
    map
  = setAll map (stepBlocks FLOOR_Y cellsOf index step).
Proof.
  unfold forRange, stepBlocks, setAll at 1. rewrite foldl_bind_list.
  apply foldl_ext_list. intros map' y _. apply layer_setAll.
Qed.

Lemma layered_from (FLOOR_Y : number) (cellsOf : nat -> Z -> list (Z * Z))
    (steps : list LessonStep) (i : nat) (map : VoxelMap) :
  forEachFrom
    (fun step index map =>
       forRange 0 2
         (fun y map =>
            foldl (fun map c =>
                     setBlock map (ofZ (fst c)) (currentY FLOOR_Y index y)
                       (ofZ (snd c)) (getSafeColor (l_color step))
                       (ofNat index))
                  map (cellsOf index y))
         map)
    i steps map
  = setAll map
      (mjoin (imap (fun j => stepBlocks FLOOR_Y cellsOf (i + j)) steps)).
Proof.
  revert i map. induction steps as [|step steps IH]; intros i map; [done|].
  cbn [forEachFrom]. rewrite IH, step_setAll. rewrite imap_cons.
  cbn [mjoin list_join]. rewrite setAll_app, Nat.add_0_r.
  f_equal. f_equal. apply imap_ext. intros j s _. cbn. f_equal. lia.
Qed.

Lemma layered_setAll (FLOOR_Y : number) (cellsOf : nat -> Z -> list (Z * Z))
    (steps : list LessonStep) :
  layered FLOOR_Y cellsOf steps
  = setAll [] (mjoin (imap (stepBlocks FLOOR_Y cellsOf) steps)).
Proof. unfold layered, forEach. by rewrite layered_from. Qed.

(** Blocks with positions that differ from each other and from the keys of
    the map are added to the end of the map, in their order. *)
Lemma setAll_fresh (ds : list VoxelData) (map : VoxelMap) :
  NoDup (positionOf <$> ds) ->
  (forall d, d ∈ ds -> positionOf d ∉ (fst <$> map)) ->
  setAll map ds = map ++ ((fun d => (positionOf d, d)) <$> ds).
Proof.
  revert map. induction ds as [|d ds IH]; intros map Hnd Hfresh.
  - by rewrite app_nil_r.
  - rewrite fmap_cons in Hnd. apply list.NoDup_cons in Hnd as [Hd Hnd].
    unfold setAll. cbn [foldl]. fold (setAll (Map_set (positionOf d) d map) ds).
    rewrite Map_set_fresh by (apply Hfresh, elem_of_cons; by left).
    rewrite IH; [by rewrite <- app_assoc|done|].
    intros d' Hd'. rewrite fmap_app. intros [Hin|Hin]%elem_of_app.
    + revert Hin. apply Hfresh, elem_of_cons. by right.
    + apply list_elem_of_singleton in Hin. cbn [fst] in Hin.
      apply Hd. rewrite <- Hin. by apply list_elem_of_fmap_2.
Qed.

Lemma Map_values_setAll (ds : list VoxelData) :
  NoDup (positionOf <$> ds) -> Map_values (setAll [] ds) = ds.
Proof.
  intros Hnd. rewrite setAll_fresh; [|done|].
  - unfold Map_values. cbn [app]. rewrite <- list_fmap_compose.
    rewrite <- (list_fmap_id ds) at 2. by apply list_fmap_ext.
  - intros d _ Hin. by apply elem_of_nil in Hin.
Qed.

(** ** The positions of the blocks of a template *)

Lemma cellKey_inj (h h' : Z) (c c' : Z * Z) :
  cellKey h c = cellKey h' c' -> h = h' /\ c = c'.
Proof.
  destruct c as [x z], c' as [x' z']. unfold cellKey. cbn [fst snd].
  intros [= -> -> ->]. done.
Qed.

Lemma fmap_bind_list {A B C : Type} (f : B -> C) (g : A -> list B)
    (l : list A) :
  f <$> (l ≫= g) = l ≫= (fun a => f <$> g a).
Proof.
  induction l as [|a l IH]; [done|].
  by rewrite !bind_cons, fmap_app, IH.
Qed.

Lemma fmap_join_imap {A B C : Type} (f : B -> C) (g : nat -> A -> list B)
    (l : list A) :
  f <$> mjoin (imap g l) = mjoin (imap (fun i a => f <$> g i a) l).
Proof.
  revert g. induction l as [|a l IH]; intros g; [done|].
  rewrite !imap_cons. cbn [mjoin list_join]. rewrite fmap_app. f_equal.
  apply IH.
Qed.

Lemma elem_of_join_imap {A B : Type} (g : nat -> A -> list B) (l : list A)
    (x : B) :
  x ∈ mjoin (imap g l) <-> exists i a, l !! i = Some a /\ x ∈ g i a.
Proof.
  rewrite list_elem_of_join. split.
  - intros (k & Hx & Hk). apply elem_of_lookup_imap in Hk as (i & a & -> & Ha).
    by exists i, a.
  - intros (i & a & Ha & Hx). exists (g i a). split; [done|].
    by apply elem_of_lookup_imap_2.
Qed.

Lemma NoDup_join_imap {A B : Type} (g : nat -> A -> list B) (l : list A) :
  (forall i a, l !! i = Some a -> NoDup (g i a)) ->
  (forall i j a b x,
     l !! i = Some a -> l !! j = Some b -> x ∈ g i a -> x ∈ g j b -> i = j) ->
  NoDup (mjoin (imap g l)).
Proof.
  revert g. induction l as [|a l IH]; intros g Hnd Hinj; [constructor|].
  rewrite imap_cons. cbn [mjoin list_join]. apply list.NoDup_app.
  split; [by apply (Hnd 0%nat)|]. split.
  - intros x Hx (j & b & Hb & Hx')%elem_of_join_imap.
    by specialize (Hinj 0%nat (S j) a b x eq_refl Hb Hx Hx').
  - apply IH.
    + intros i b Hb. by apply (Hnd (S i)).
    + intros i j b c x Hb Hc Hx Hx'.
      by specialize (Hinj (S i) (S j) b c x Hb Hc Hx Hx') as [= ->].
Qed.

Lemma layer_positions (f : Qc) (cells : list (Z * Z)) (colorInt : number)
    (index : nat) (y : Z) :
  positionOf <$> layer (Num f) cells colorInt index y
  = cellKey (Z.of_nat (index * 3) + y + floorLevel f) <$> cells.
Proof.
  unfold layer. rewrite <- list_fmap_compose. apply list_fmap_ext.
  intros i [x z] _. unfold compose, positionOf, blockAt, cellKey.
  cbn [d_x d_y d_z fst snd].
  by rewrite !Math_round_ofZ, currentY_round.
Qed.

Lemma stepBlocks_positions (f : Qc) (cellsOf : nat -> Z -> list (Z * Z))
    (index : nat) (step : LessonStep) :
  positionOf <$> stepBlocks (Num f) cellsOf index step
  = stepKeys f cellsOf index.
Proof.
  unfold stepBlocks, stepKeys. rewrite fmap_bind_list.
  induction (seqZ 0 3) as [|y ys IH]; [done|].
  by rewrite !bind_cons, IH, layer_positions.
Qed.

Lemma elem_of_stepKeys (f : Qc) (cellsOf : nat -> Z -> list (Z * Z))
    (index : nat) (k : Key) :
  k ∈ stepKeys f cellsOf index <->
  exists y c, (0 <= y < 3)%Z /\ c ∈ cellsOf index y /\
              k = cellKey (Z.of_nat (index * 3) + y + floorLevel f) c.
Proof.
  unfold stepKeys. rewrite list_elem_of_bind. split.
  - intros (y & (c & -> & Hc)%list_elem_of_fmap & Hy%elem_of_seqZ).
    exists y, c. split; [lia|done].
  - intros (y & c & Hy & Hc & ->). exists y. split.
    + by apply list_elem_of_fmap_2.
    + apply elem_of_seqZ. lia.
Qed.

Lemma NoDup_stepKeys (f : Qc) (cellsOf : nat -> Z -> list (Z * Z))
    (index : nat) :
  (forall y, NoDup (cellsOf index y)) -> NoDup (stepKeys f cellsOf index).
Proof.
  intros Hcells. unfold stepKeys. apply NoDup_bind.
  - intros y1 y2 k _ _ (c1 & -> & _)%list_elem_of_fmap
      (c2 & [H _]%cellKey_inj & _)%list_elem_of_fmap. lia.
  - intros y _. apply NoDup_fmap_2_strong; [|apply Hcells].
    intros c1 c2 _ _ [_ H]%cellKey_inj. done.
  - apply NoDup_seqZ.
Qed.

Lemma NoDup_template (f : Qc) (cellsOf : nat -> Z -> list (Z * Z))
    (steps : list LessonStep) :
  (forall index y, NoDup (cellsOf index y)) ->
  NoDup (positionOf <$> mjoin (imap (stepBlocks (Num f) cellsOf) steps)).
Proof.
  intros Hcells. rewrite fmap_join_imap. apply NoDup_join_imap.
  - intros i s _. rewrite stepBlocks_positions. by apply NoDup_stepKeys.
  - intros i j s s' k _ _. rewrite !stepBlocks_positions.
    intros (y & c & Hy & _ & ->)%elem_of_stepKeys
           (y' & c' & Hy' & _ & [H _]%cellKey_inj)%elem_of_stepKeys.
    lia.
Qed.

(** Above a finite floor, a template whose layers have cells without
    repetition builds the blocks of its steps in their order: no call of
    [setBlock] overwrites a block. *)
Lemma layered_values (f : Qc) (cellsOf : nat -> Z -> list (Z * Z))
    (steps : list LessonStep) :
  (forall index y, NoDup (cellsOf index y)) ->
  Map_values (layered (Num f) cellsOf steps)
  = mjoin (imap (stepBlocks (Num f) cellsOf) steps).
Proof.
  intros Hcells. rewrite layered_setAll.
  by apply Map_values_setAll, NoDup_template.
Qed.

(** ** [Templates.Tower] and [Templates.Pyramid] *)

Lemma forRange_ext {St : Type} (lo hi : Z) (f g : Z -> St -> St) (s : St) :
  (forall i s, f i s = g i s) -> forRange lo hi f s = forRange lo hi g s.
Proof. intros H. apply foldl_ext_list. intros s' i _. apply H. Qed.

Lemma discLoop {St : Type} (r : Z) (set : St -> Z * Z -> St) (s : St) :
  forRange (- r) r
    (fun x s =>
       forRange (- r) r
         (fun z s =>
            if bool_decide (x * x + z * z <= r * r)%Z then set s (x, z) else s)
         s)
    s
  = foldl set s (disc r).
Proof.
  unfold forRange, disc. rewrite foldl_bind_list.
  apply foldl_ext_list. intros s1 x _. rewrite foldl_bind_list.
  apply foldl_ext_list. intros s2 z _.
  by destruct (bool_decide (x * x + z * z <= r * r)%Z).
Qed.

Lemma squareLoop {St : Type} (r : Z) (set : St -> Z * Z -> St) (s : St) :
  forRange (- r) r (fun x s => forRange (- r) r (fun z s => set s (x, z)) s) s
  = foldl set s (square r).
Proof.
  unfold forRange, square. rewrite foldl_bind_list.
  apply foldl_ext_list. intros s1 x _. rewrite foldl_bind_list.
  by apply foldl_ext_list.
Qed.

Lemma Tower_layered (FLOOR_Y : number) (steps : list LessonStep) :
  Tower FLOOR_Y steps = Map_values (layered FLOOR_Y towerCells steps).
Proof.
  unfold Tower, layered, forEach. cbv zeta. apply (f_equal Map_values).
  apply forEachFrom_ext. intros step index map.
  apply forRange_ext. intros y map'. unfold towerCells.
  exact (discLoop 4
           (fun map c =>
              setBlock map (ofZ (fst c)) (currentY FLOOR_Y index y)
                (ofZ (snd c)) (getSafeColor (l_color step)) (ofNat index))
           map').
Qed.

Lemma Pyramid_layered (FLOOR_Y : number) (steps : list LessonStep) :
  Pyramid FLOOR_Y steps
  = Map_values (layered FLOOR_Y (pyramidCells (length steps)) steps).
Proof.
  unfold Pyramid, layered, forEach. cbv zeta. apply (f_equal Map_values).
  apply forEachFrom_ext. intros step index map.
  apply forRange_ext. intros y map'. unfold pyramidCells. cbv zeta.
  exact (squareLoop _
           (fun map c =>
              setBlock map (ofZ (fst c)) (currentY FLOOR_Y index y)
                (ofZ (snd c)) (getSafeColor (l_color step)) (ofNat index))
           map').
Qed.

Lemma NoDup_disc4 : NoDup (disc 4).
Proof. apply (bool_decide_unpack _). vm_compute. exact I. Qed.

Lemma NoDup_square (r : Z) : NoDup (square r).
Proof.
  unfold square. apply NoDup_bind; [| |apply NoDup_seqZ].
  - intros x1 x2 c _ _ (z1 & Hc1 & _)%list_elem_of_bind
      (z2 & Hc2 & _)%list_elem_of_bind.
    apply list_elem_of_singleton in Hc1, Hc2. congruence.
  - intros x _. apply NoDup_bind; [| |apply NoDup_seqZ].
    + intros z1 z2 c _ _ Hc1%list_elem_of_singleton Hc2%list_elem_of_singleton.
      congruence.
    + intros z _. apply NoDup_singleton.
Qed.

Lemma Tower_values (f : Qc) (steps : list LessonStep) :
  Tower (Num f) steps = mjoin (imap (stepBlocks (Num f) towerCells) steps).
Proof.
  rewrite Tower_layered. apply layered_values.
  intros index y. apply NoDup_disc4.
Qed.

Lemma Pyramid_values (f : Qc) (steps : list LessonStep) :
  Pyramid (Num f) steps
  = mjoin (imap (stepBlocks (Num f) (pyramidCells (length steps))) steps).
Proof.
  rewrite Pyramid_layered. apply layered_values.
  intros index y. apply NoDup_square.
Qed.

(** X15. Above a finite floor, the tower of a lesson consists of the blocks of
    its steps in the order of the steps: for each step three layers, each
    the disc of radius 4 at the rounded height of the layer, in the colour
    [getSafeColor] reads from the step and tagged with the index of the
    step.  No block of a step is overwritten. *)
Theorem Tower_blocks (FLOOR_Y : number) (steps : list LessonStep) :
  isFinite FLOOR_Y = true ->
  Tower FLOOR_Y steps = mjoin (imap (stepBlocks FLOOR_Y towerCells) steps).
Proof.
  destruct FLOOR_Y as [f| |]; [intros _|done|done]. apply Tower_values.
Qed.

Lemma Tower_blocks_witness :
  Tower Sample.FLOOR_Y
    [{| l_text := "Define"; l_color := "#E74C3C" |};
     {| l_text := "Review"; l_color := "" |}]
  = mjoin (imap (stepBlocks Sample.FLOOR_Y towerCells)
             [{| l_text := "Define"; l_color := "#E74C3C" |};
              {| l_text := "Review"; l_color := "" |}]).
Proof.
  apply Tower_blocks. reflexivity.
Defined.



(** ** The steps of a lesson in the engine *)

Lemma filter_all {A : Type} (P : A -> Prop) `{forall a, Decision (P a)}
    (l : list A) :
  (forall a, a ∈ l -> P a) -> filter P l = l.
Proof.
  induction l as [|a l IH]; intros Hl; [done|].
  rewrite filter_cons_True by (apply Hl, elem_of_cons; by left).
  rewrite IH; [done|]. intros b Hb. apply Hl, elem_of_cons. by right.
Qed.

Lemma filter_none {A : Type} (P : A -> Prop) `{forall a, Decision (P a)}
    (l : list A) :
  (forall a, a ∈ l -> ~ P a) -> filter P l = [].
Proof.
  induction l as [|a l IH]; intros Hl; [done|].
  rewrite filter_cons_False by (apply Hl, elem_of_cons; by left).
  apply IH. intros b Hb. apply Hl, elem_of_cons. by right.
Qed.

Lemma filter_join_imap {A B : Type} (P : B -> Prop) `{forall b, Decision (P b)}
    (g : nat -> A -> list B) (l : list A) (i : nat) :
  (forall j a b, b ∈ g j a -> P b <-> j = i) ->
  filter P (mjoin (imap g l)) = from_option (g i) [] (l !! i).
Proof.
  revert g i. induction l as [|a l IH]; intros g i Hg; [done|].
  rewrite imap_cons. cbn [mjoin list_join]. rewrite list.filter_app.
  destruct i as [|i]; cbn [lookup list_lookup from_option].
  - rewrite filter_all by (intros b Hb; by apply (Hg 0%nat a)).
    rewrite (filter_none P (mjoin (imap (g ∘ S) l))); [by rewrite app_nil_r|].
    intros b (j & a' & _ & Hb)%elem_of_join_imap HP.
    by apply (Hg (S j) a' b Hb) in HP.
  - rewrite filter_none; [|intros b Hb HP; by apply (Hg 0%nat a b Hb) in HP].
    cbn [app]. apply (IH (g ∘ S) i). intros j a' b Hb. cbn in Hb.
    rewrite (Hg (S j) a' b Hb). split; [by intros [= ->]|by intros ->].
Qed.

Lemma length_filter_imap {A B : Type} (P : B -> Prop) (Q : A -> Prop)
    `{forall b, Decision (P b)} `{forall a, Decision (Q a)}
    (g : nat -> A -> B) (l : list A) :
  (forall i a, P (g i a) <-> Q a) ->
  length (filter P (imap g l)) = length (filter Q l).
Proof.
  revert g. induction l as [|a l IH]; intros g Hg; [done|].
  rewrite imap_cons, !filter_cons.
  destruct (decide (P (g 0%nat a))) as [HP|HP], (decide (Q a)) as [HQ|HQ];
    cbn [length]; rewrite ?(IH (g ∘ S)); try done;
    try (intros i b; apply (Hg (S i) b)).
  - by apply Hg in HP.
  - by apply (Hg 0%nat a) in HQ.
Qed.

Lemma tagCount_load (random : nat -> Qc) (e : Engine) (data : list VoxelData)
    (t : number) :
  tagCount (voxels (loadInitialModel random e data)) t
  = length (filter (fun d => (tagOf d === t) = true) data).
Proof.
  rewrite loadInitialModel_voxels. unfold tagCount.
  by apply length_filter_imap.
Qed.

Lemma ofNat_inj (i j : nat) : ofNat i = ofNat j -> i = j.
Proof. unfold ofNat, Qc_of_Z. intros [= H]. lia. Qed.

Lemma stepBlocks_tag (FLOOR_Y : number) (cellsOf : nat -> Z -> list (Z * Z))
    (j i : nat) (step : LessonStep) (d : VoxelData) :
  d ∈ stepBlocks FLOOR_Y cellsOf j step ->
  (tagOf d === ofNat i) = true <-> j = i.
Proof.
  unfold stepBlocks, layer.
  intros (y & (c & -> & _)%list_elem_of_fmap & _)%list_elem_of_bind.
  cbn [tagOf blockAt d_stepIndex]. unfold ofNat at 1.
  rewrite strictEq_finite. split; [by intros ?%ofNat_inj|by intros ->].
Qed.

Lemma tagCount_template (random : nat -> Qc) (e : Engine) (FLOOR_Y : number)
    (cellsOf : nat -> Z -> list (Z * Z)) (steps : list LessonStep) (i : nat) :
  tagCount
    (voxels (loadInitialModel random e
               (mjoin (imap (stepBlocks FLOOR_Y cellsOf) steps))))
    (ofNat i)
  = length (from_option (stepBlocks FLOOR_Y cellsOf i) [] (steps !! i)).
Proof.
  rewrite tagCount_load.
  rewrite (filter_join_imap _ _ _ i); [done|].
  intros j step d Hd. exact (stepBlocks_tag _ _ j i step d Hd).
Qed.

Lemma length_stepBlocks (FLOOR_Y : number) (cellsOf : nat -> Z -> list (Z * Z))
    (i : nat) (step : LessonStep) :
  length (stepBlocks FLOOR_Y cellsOf i step)
  = (length (cellsOf i 0%Z) + length (cellsOf i 1%Z)
     + length (cellsOf i 2%Z))%nat.
Proof.
  unfold stepBlocks. change (seqZ 0 3) with [0; 1; 2]%Z.
  rewrite !bind_cons, !length_app. unfold layer.
  rewrite !length_fmap. change (length (@nil Z ≫= _)) with 0%nat. lia.
Qed.

(** X17. Above a finite floor, the engine that has loaded the tower of a lesson
    holds 147 voxels for each step of the lesson and none for any other
    index, so that [rebuildLayer] returns [true] for the steps of the
    lesson and for them only. *)
Theorem Tower_steps_found (random : nat -> Qc) (e : Engine)
    (FLOOR_Y : number) (steps : list LessonStep) (i : nat) :
  isFinite FLOOR_Y = true ->
  let e' := loadInitialModel random e (Tower FLOOR_Y steps) in
  tagCount (voxels e') (ofNat i)
  = (if bool_decide (i < length steps)%nat then 147 else 0)%nat /\
  fst (rebuildLayer e' (ofNat i)) = bool_decide (i < length steps)%nat.
Proof.
  destruct FLOOR_Y as [f| |]; [intros _|done|done]. intros e'.
  assert (tagCount (voxels e') (ofNat i)
    = (if bool_decide (i < length steps)%nat then 147 else 0)%nat) as Hcount.
  { unfold e'. rewrite Tower_values, tagCount_template.
    destruct (steps !! i) as [step|] eqn:Hi; cbn [from_option].
    - rewrite bool_decide_eq_true_2 by (by eapply lookup_lt_Some).
      by rewrite length_stepBlocks.
    - rewrite bool_decide_eq_false_2; [done|].
      apply lookup_ge_None in Hi. lia. }
  split; [done|]. rewrite rebuildLayer_unfold. cbn [fst]. rewrite Hcount.
  by destruct (bool_decide (i < length steps)%nat).
Qed.

Lemma Tower_steps_found_witness :
  tagCount
    (voxels (loadInitialModel Sample.random newEngine
               (Tower Sample.FLOOR_Y
                  [{| l_text := "Define"; l_color := "#E74C3C" |};
                   {| l_text := "Review"; l_color := "" |}])))
    (ofNat 1)
  = (if bool_decide (1 < 2)%nat then 147 else 0)%nat /\
  fst (rebuildLayer
         (loadInitialModel Sample.random newEngine
            (Tower Sample.FLOOR_Y
               [{| l_text := "Define"; l_color := "#E74C3C" |};
                {| l_text := "Review"; l_color := "" |}]))
         (ofNat 1))
  = bool_decide (1 < 2)%nat.
Proof.
  apply (Tower_steps_found Sample.random newEngine Sample.FLOOR_Y
           [{| l_text := "Define"; l_color := "#E74C3C" |};
            {| l_text := "Review"; l_color := "" |}] 1).
  reflexivity.
Defined.

Lemma length_bind_const {A B : Type} (g : A -> list B) (k : nat) (l : list A) :
  (forall a, length (g a) = k) -> length (l ≫= g) = (length l * k)%nat.
Proof.
  intros Hg. induction l as [|a l IH]; [done|].
  rewrite bind_cons, length_app, Hg, IH. cbn [length]. lia.
Qed.

Lemma length_square (r : Z) :
  length (square r) = (Z.to_nat (2 * r + 1) * Z.to_nat (2 * r + 1))%nat.
Proof.
  unfold square.
  rewrite (length_bind_const _ (Z.to_nat (2 * r + 1))), length_seqZ.
  - f_equal. lia.
  - intros x. rewrite (length_bind_const _ 1%nat), length_seqZ; [|done].
    lia.
Qed.

Lemma length_pyramidCells (n i : nat) (y : Z) :
  (9 <= length (pyramidCells n i y))%nat.
Proof.
  unfold pyramidCells. cbv zeta. rewrite length_square.
  set (r := Z.max 1 _). assert (1 <= r)%Z by (unfold r; lia).
  assert (3 <= Z.to_nat (2 * r + 1))%nat by lia. nia.
Qed.

(** X18. Above a finite floor, the engine that has loaded the pyramid of a
    lesson holds at least 27 voxels for each step of the lesson and none
    for any other index, so that [rebuildLayer] returns [true] for the
    steps of the lesson and for them only. *)
Theorem Pyramid_steps_found (random : nat -> Qc) (e : Engine)
    (FLOOR_Y : number) (steps : list LessonStep) (i : nat) :
  isFinite FLOOR_Y = true ->
  let e' := loadInitialModel random e (Pyramid FLOOR_Y steps) in
  (if bool_decide (i < length steps)%nat
   then (27 <= tagCount (voxels e') (ofNat i))%nat
   else tagCount (voxels e') (ofNat i) = 0%nat) /\
  fst (rebuildLayer e' (ofNat i)) = bool_decide (i < length steps)%nat.
Proof.
  destruct FLOOR_Y as [f| |]; [intros _|done|done]. intros e'.
  assert (if bool_decide (i < length steps)%nat
          then (27 <= tagCount (voxels e') (ofNat i))%nat
          else tagCount (voxels e') (ofNat i) = 0%nat) as Hcount.
  { unfold e'. rewrite Pyramid_values, tagCount_template.
    destruct (steps !! i) as [step|] eqn:Hi; cbn [from_option].
    - rewrite bool_decide_eq_true_2 by (by eapply lookup_lt_Some).
      rewrite length_stepBlocks.
      pose proof (length_pyramidCells (length steps) i 0).
      pose proof (length_pyramidCells (length steps) i 1).
      pose proof (length_pyramidCells (length steps) i 2). lia.
    - rewrite bool_decide_eq_false_2; [done|].
      apply lookup_ge_None in Hi. lia. }
  split; [done|]. rewrite rebuildLayer_unfold. cbn [fst].
  destruct (bool_decide (i < length steps)%nat).
  - apply bool_decide_eq_true_2. lia.
  - rewrite Hcount. done.
Qed.

Lemma Pyramid_steps_found_witness :
  (if bool_decide (0 < 2)%nat
   then (27 <= tagCount
                 (voxels (loadInitialModel Sample.random newEngine
                            (Pyramid Sample.FLOOR_Y
                               [{| l_text := "Define"; l_color := "#E74C3C" |};
                                {| l_text := "Review"; l_color := "" |}])))
                 (ofNat 0))%nat
   else tagCount
          (voxels (loadInitialModel Sample.random newEngine
                     (Pyramid Sample.FLOOR_Y
                        [{| l_text := "Define"; l_color := "#E74C3C" |};
                         {| l_text := "Review"; l_color := "" |}])))
          (ofNat 0) = 0%nat) /\
  fst (rebuildLayer
         (loadInitialModel Sample.random newEngine
            (Pyramid Sample.FLOOR_Y
               [{| l_text := "Define"; l_color := "#E74C3C" |};
                {| l_text := "Review"; l_color := "" |}]))
         (ofNat 0))
  = bool_decide (0 < 2)%nat.
Proof.
  apply (Pyramid_steps_found Sample.random newEngine Sample.FLOOR_Y
           [{| l_text := "Define"; l_color := "#E74C3C" |};
            {| l_text := "Review"; l_color := "" |}] 0).
  reflexivity.
Defined.

(** * The lesson game of [src/App.tsx] *)

Lemma carriersFrom_sameIdentity (t : number) (k : nat)
    (vs vs' : list SimulationVoxel) :
  Forall2 sameIdentity vs vs' -> carriersFrom t k vs' = carriersFrom t k vs.
Proof.
  intros H. revert k. induction H as [|v v' vs vs' Hv H IH]; intros k; [done|].
  cbn [carriersFrom]. rewrite IH. unfold carries.
  destruct Hv as (_ & _ & -> & _). done.
Qed.

Lemma carriers_sameIdentity (t : number) (vs vs' : list SimulationVoxel) :
  Forall2 sameIdentity vs vs' -> carriers vs' t = carriers vs t.
Proof. apply carriersFrom_sameIdentity. Qed.

Lemma carriers_one_tag (vs : list SimulationVoxel) (i j k : nat) :
  k ∈ carriers vs (ofNat i) -> k ∈ carriers vs (ofNat j) -> i = j.
Proof.
  intros (v & Hv & Hi)%elem_of_carriers (v' & Hv' & Hj)%elem_of_carriers.
  rewrite Hv in Hv'. injection Hv' as <-. unfold carries in *.
  apply strictEq_true in Hi as [Hi _]. apply strictEq_true in Hj as [Hj _].
  apply ofNat_inj. congruence.
Qed.

Lemma elem_of_allSteps (steps : list LessonStep) (i : nat) :
  i ∈ allSteps steps <-> (i < length steps)%nat.
Proof.
  unfold allSteps. rewrite elem_of_list_to_set, elem_of_seq. lia.
Qed.

Lemma activeFollows_voxels (completed : gset nat) (e e' : Engine) :
  Forall2 sameIdentity (voxels e) (voxels e') ->
  activeRebuildIndices e' = activeRebuildIndices e ->
  rejectingIndices e' ⊆ rejectingIndices e ->
  activeFollows completed e -> activeFollows completed e'.
Proof.
  intros Hv Ha Hr [HA HR]. split.
  - intros k. rewrite Ha, HA.
    by setoid_rewrite (carriers_sameIdentity _ _ _ Hv).
  - intros k i Hk Hi. rewrite (carriers_sameIdentity _ _ _ Hv).
    apply HR; [by apply Hr|done].
Qed.

Lemma rejectTimeout_engineInvariant (completed : gset nat) (e : Engine) :
  engineInvariant completed e -> engineInvariant completed (rejectTimeout e).
Proof.
  intros (Hsync & Hstable & Hgame).
  split; [by apply rejectTimeout_uiInSync|].
  destruct (decide (state e = REJECTING)) as [Hs|Hs].
  - rewrite (rejectTimeout_rejecting _ Hs). cbn [state].
    split; [done|]. intros _.
    apply (activeFollows_voxels completed e); cbn [voxels activeRebuildIndices
      rejectingIndices]; [apply Forall2_sameIdentity_refl|done|set_solver|].
    apply Hgame. by rewrite Hs.
  - by rewrite (rejectTimeout_other _ Hs).
Qed.

Lemma fireDue_engineInvariant (completed : gset nat) (now : nat)
    (due : list nat) (e : Engine) :
  engineInvariant completed e ->
  engineInvariant completed (fireDue now due e).
Proof.
  revert e. induction due as [|t due IH]; intros e He; [done|].
  rewrite fireDue_cons. apply IH.
  destruct (bool_decide (t ≤ now)%nat);
    [by apply rejectTimeout_engineInvariant|done].
Qed.

Lemma fireDue_state_stable (now : nat) (due : list nat) (e : Engine) :
  state (fireDue now due e) = STABLE <-> state e = STABLE.
Proof.
  revert e. induction due as [|t due IH]; intros e; [done|].
  rewrite fireDue_cons, IH. destruct (bool_decide (t ≤ now)%nat); [|done].
  unfold rejectTimeout. destruct (bool_decide (state e = REJECTING)) eqn:Hs;
    [|done].
  apply bool_decide_eq_true_1 in Hs. cbn [state setState]. rewrite Hs.
  split; discriminate.
Qed.

Lemma updatePhysics_engineInvariant (FLOOR_Y : number) (completed : gset nat)
    (e : Engine) :
  engineInvariant completed e ->
  engineInvariant completed (updatePhysics FLOOR_Y e).
Proof.
  intros (Hsync & Hstable & Hgame).
  destruct (updatePhysics_fields FLOOR_Y e) as (H1 & H2 & H3 & _).
  split; [by apply updatePhysics_uiInSync|]. rewrite H1, H2, H3.
  split; [done|]. intros Hs.
  apply (activeFollows_voxels completed e);
    [apply updatePhysics_identity|done|by rewrite H3|by apply Hgame].
Qed.

Lemma drawRandom_engineInvariant (completed : gset nat) (n : nat) (w : World) :
  engineInvariant completed (engine w) ->
  engineInvariant completed (engine (App.drawRandom n w)).
Proof. done. Qed.

Section Game.

Variable FLOOR_Y : number.
Variable random : nat -> Qc.
Variable Spiral : list LessonStep -> list VoxelData.
Variable StringToNumber : string -> number.
Variable ArrayToString : list value -> string.

(** A state whose engine has just loaded a model. *)
Lemma loaded_invariant (w : World) (data : list VoxelData)
    (steps : list LessonStep) (current : nat) (completed : gset nat)
    (shuffled : list nat) :
  uiInSync (engine w) ->
  ((0 < length steps)%nat ->
   (forall i, i ∈ completed <-> (i < current)%nat) /\
   (current <= length steps)%nat) ->
  gameInvariant
    {| App.world := App.call FLOOR_Y random (LoadInitialModel data) w;
       App.lessonSteps := steps;
       App.currentStepIndex := current;
       App.completedSteps := completed;
       App.shuffledOptions := shuffled |}.
Proof.
  intros Hsync Hprog. unfold gameInvariant, engineInvariant.
  cbn [App.world App.lessonSteps App.completedSteps App.call step engine
       execute].
  split; [|split; [done|exact Hprog]].
  split; [by apply execute_uiInSync with (c := LoadInitialModel data)|].
  split; done.
Qed.

Lemma mounted_invariant (eagle : list VoxelData) (draws : nat) :
  gameInvariant (App.mounted FLOOR_Y random eagle draws).
Proof.
  unfold App.mounted. apply loaded_invariant.
  - split; reflexivity.
  - cbn [length]. lia.
Qed.

Lemma dismantle_invariant (draws : nat) (order : list nat) (a : App.State) :
  gameInvariant a ->
  App.offered a (App.Deconstruct draws order) ->
  gameInvariant (App.handleDismantle FLOOR_Y random draws order a).
Proof.
  intros ((Hsync & Hstable & _) & _ & _) (Hst & Hn & Hperm).
  assert (state (engine (App.world a)) = STABLE) as Hs.
  { destruct Hsync as [<- _]. exact Hst. }
  unfold gameInvariant, App.handleDismantle.
  cbn [App.world App.lessonSteps App.completedSteps App.shuffledOptions
       App.currentStepIndex].
  split; [|split].
  - apply drawRandom_engineInvariant.
    cbn [App.call step engine execute].
    split; [by apply execute_uiInSync with (c := Dismantle)|].
    rewrite (dismantle_stable _ _ Hs). cbn [state activeRebuildIndices
      rejectingIndices voxels].
    split; [done|]. intros _. split.
    + intros k. split; [set_solver|]. intros (i & Hi & _). set_solver.
    + intros k i Hk. set_solver.
  - intros _. done.
  - intros _. unfold progressIsPrefix.
    cbn [App.completedSteps App.currentStepIndex App.lessonSteps].
    split; [|lia]. intros i. split; [set_solver|lia].
Qed.

Lemma card_invariant (i : nat) (a : App.State) :
  gameInvariant a ->
  App.offered a (App.Card i) ->
  gameInvariant (snd (App.handleStepClick FLOOR_Y random i a)).
Proof.
  intros Ha (Hst & Hn & Hin & Hnc). pose proof Ha as (He & Hcards & Hprog).
  destruct He as (Hsync & Hstable & Hgame).
  assert (state (engine (App.world a)) <> STABLE) as Hs.
  { destruct Hsync as [<- _]. unfold App.appState in Hst.
    destruct Hst as [-> | [-> | ->]]; discriminate. }
  destruct (Hcards Hs) as [Hperm _].
  destruct (Hprog Hn) as [Hpre Hle].
  destruct (Hgame Hs) as [HA HR].
  assert (i < length (App.lessonSteps a))%nat as Hi.
  { rewrite Hperm in Hin. apply elem_of_seq in Hin. lia. }
  unfold App.handleStepClick.
  rewrite (bool_decide_eq_false_2 _ Hnc).
  destruct (decide (i = App.currentStepIndex a)) as [Hcur|Hcur].
  - rewrite (bool_decide_eq_true_2 _ Hcur). cbn [snd].
    unfold gameInvariant.
    cbn [App.world App.lessonSteps App.completedSteps App.shuffledOptions
         App.currentStepIndex App.call step engine execute].
    split; [|split].
    + split; [by apply (execute_uiInSync random (RebuildLayer (ofNat i)))|].
      rewrite rebuildLayer_unfold.
      cbn [snd state activeRebuildIndices rejectingIndices voxels].
      split; [done|]. intros _. unfold activeFollows.
      cbn [activeRebuildIndices rejectingIndices voxels]. split.
      * intros k. rewrite elem_of_union, HA. split.
        -- intros [Hk|(j & Hj & Hk)].
           ++ exists i. split; [set_solver|done].
           ++ exists j. split; [set_solver|done].
        -- intros (j & [Hj|Hj]%elem_of_union & Hk).
           ++ right. by exists j.
           ++ apply elem_of_singleton in Hj as ->. by left.
      * intros k j [Hk Hki]%elem_of_difference [Hj|Hj]%elem_of_union.
        -- by apply HR.
        -- by apply elem_of_singleton in Hj as ->.
    + intros _. done.
    + intros _. unfold progressIsPrefix.
      cbn [App.completedSteps App.currentStepIndex App.lessonSteps].
      split; [|lia]. intros j. rewrite elem_of_union, elem_of_singleton, Hpre.
      lia.
  - rewrite (bool_decide_eq_false_2 _ Hcur). cbn [snd].
    unfold gameInvariant.
    cbn [App.world App.lessonSteps App.completedSteps App.shuffledOptions
         App.currentStepIndex App.call step engine execute].
    destruct (rejectLayer_fields random (engine (App.world a)) (ofNat i))
      as (H1 & _ & H3 & H4 & _).
    split; [|split].
    + split; [by apply (execute_uiInSync random (RejectLayer (ofNat i)))|].
      rewrite H1. split; [done|]. intros _. split.
      * intros k. rewrite H3, HA.
        by setoid_rewrite (carriers_sameIdentity _ _ _
                             (rejectLayer_identity random _ (ofNat i))).
      * intros k j. rewrite H4.
        rewrite (carriers_sameIdentity _ _ _
                   (rejectLayer_identity random _ (ofNat i))).
        intros [Hk|Hk]%elem_of_union Hj; [|by apply HR].
        intros Hkj. apply Hnc.
        by rewrite (carriers_one_tag _ _ _ _ Hk Hkj).
    + intros _. done.
    + intros _. done.
Qed.

Lemma act_invariant (a : App.State) (action : App.Action) :
  gameInvariant a ->
  App.offered a action ->
  gameInvariant
    (App.act FLOOR_Y random Spiral StringToNumber ArrayToString a action).
Proof.
  intros Ha Hoff. destruct action as [draws order|i|eagle draws|model|jsonStr
    |steps|ev]; cbn [App.act].
  - by apply dismantle_invariant.
  - by apply card_invariant.
  - destruct Ha as ((Hsync & _) & _). unfold App.handleNewScene.
    apply loaded_invariant; [done|]. cbn [length]. lia.
  - destruct Ha as ((Hsync & _) & _). unfold App.handleSelectCustomBuild.
    apply loaded_invariant; [done|].
    destruct (m_steps model) as [steps|]; [|intros H; cbn in H; lia].
    intros _. split; [apply elem_of_allSteps|cbn; lia].
  - unfold App.handleJsonImport.
    destruct (importVoxelData _ _ jsonStr) as [data|]; [|done].
    destruct Ha as ((Hsync & _) & _).
    apply loaded_invariant; [done|]. cbn [length]. lia.
  - destruct Ha as ((Hsync & _) & _). unfold App.loadLessonFromSteps.
    cbv zeta. apply loaded_invariant; [done|].
    intros _. split; [apply elem_of_allSteps|lia].
  - destruct Ha as (He & Hcards & Hprog).
    destruct ev as [c| |ms]; [done| |]; unfold gameInvariant;
      cbn [App.world App.lessonSteps App.completedSteps App.shuffledOptions
           App.currentStepIndex step engine].
    + split; [by apply updatePhysics_engineInvariant|]. split; [|done].
      destruct (updatePhysics_fields FLOOR_Y (engine (App.world a)))
        as (-> & _). done.
    + split; [by apply fireDue_engineInvariant|]. split; [|done].
      rewrite fireDue_state_stable. done.
Qed.

(** Every state that the actions the interface offers lead to satisfies
    the invariant of the game. *)
Lemma reachable_invariant (a : App.State) :
  App.reachable FLOOR_Y random Spiral StringToNumber ArrayToString a ->
  gameInvariant a.
Proof.
  induction 1 as [eagle draws|a action _ IH Hoff].
  - apply mounted_invariant.
  - by apply act_invariant.
Qed.

End Game.

Lemma demo_reachable :
  App.reachable Sample.FLOOR_Y Sample.random Demo.Spiral
    Sample.StringToNumber Sample.ArrayToString Demo.right.
Proof.
  unfold Demo.right, Demo.wrong, Demo.scattered, Demo.opened, Demo.act.
  repeat apply App.reachable_act; try apply App.reachable_mounted.
  - done.
  - split; [reflexivity|]. split; [vm_compute; lia|]. apply perm_swap.
  - split; [left; reflexivity|]. split; [vm_compute; lia|].
    split; [apply elem_of_cons; by left|set_solver].
  - split; [right; right; reflexivity|]. split; [vm_compute; lia|].
    split; [apply elem_of_cons; right; apply elem_of_cons; by left|].
    vm_compute. set_solver.
Qed.

(** X19. In every state that the actions the interface offers lead to, no
    voxel is in the active set and in the rejecting set at once: the
    button DECONSTRUCT is there only while the engine is [STABLE], and a
    card of a completed step rejects nothing. *)
Theorem ui_never_overlaps (FLOOR_Y : number) (random : nat -> Qc)
    (Spiral : list LessonStep -> list VoxelData)
    (StringToNumber : string -> number) (ArrayToString : list value -> string)
    (a : App.State) :
  App.reachable FLOOR_Y random Spiral StringToNumber ArrayToString a ->
  activeRebuildIndices (engine (App.world a))
  ## rejectingIndices (engine (App.world a)).
Proof.
  intros ((_ & Hstable & Hgame) & _)%reachable_invariant.
  destruct (decide (state (engine (App.world a)) = STABLE)) as [Hs|Hs].
  - destruct (Hstable Hs) as [-> ->]. set_solver.
  - destruct (Hgame Hs) as [HA HR]. intros k (i & Hi & Hk)%HA Hr.
    by apply (HR k i).
Qed.

Lemma ui_never_overlaps_witness :
  activeRebuildIndices (engine (App.world Demo.right))
  ## rejectingIndices (engine (App.world Demo.right)).
Proof.
  apply (ui_never_overlaps Sample.FLOOR_Y Sample.random Demo.Spiral
           Sample.StringToNumber Sample.ArrayToString).
  exact demo_reachable.
Defined.

(** X20. While a lesson is shown, the completed steps are the steps before
    [currentStepIndex], and [currentStepIndex] does not exceed the number
    of steps: the steps are completed from the first on, none twice, and
    the banner of victory counts them right. *)
Theorem game_progress (FLOOR_Y : number) (random : nat -> Qc)
    (Spiral : list LessonStep -> list VoxelData)
    (StringToNumber : string -> number) (ArrayToString : list value -> string)
    (a : App.State) :
  App.reachable FLOOR_Y random Spiral StringToNumber ArrayToString a ->
  (0 < length (App.lessonSteps a))%nat ->
  progressIsPrefix a.
Proof.
  intros (_ & _ & Hprog)%reachable_invariant. exact Hprog.
Qed.

Lemma game_progress_witness : progressIsPrefix Demo.right.
Proof.
  apply (game_progress Sample.FLOOR_Y Sample.random Demo.Spiral
           Sample.StringToNumber Sample.ArrayToString).
  - exact demo_reachable.
  - vm_compute. lia.
Defined.

(** X21. While the cards of a lesson are shown, the voxels that fly back are
    those of the completed steps, and no voxel of a completed step is
    shaken by a wrong answer. *)
Theorem active_blocks_are_completed_steps (FLOOR_Y : number)
    (random : nat -> Qc) (Spiral : list LessonStep -> list VoxelData)
    (StringToNumber : string -> number) (ArrayToString : list value -> string)
    (a : App.State) :
  App.reachable FLOOR_Y random Spiral StringToNumber ArrayToString a ->
  App.appState a <> STABLE ->
  activeAreCompleted a.
Proof.
  intros (((Hsync & _) & _ & Hgame) & _)%reachable_invariant Hs.
  apply Hgame. by rewrite <- Hsync.
Qed.

Lemma active_blocks_are_completed_steps_witness :
  activeAreCompleted Demo.right.
Proof.
  apply (active_blocks_are_completed_steps Sample.FLOOR_Y Sample.random
           Demo.Spiral Sample.StringToNumber Sample.ArrayToString).
  - exact demo_reachable.
  - discriminate.
Defined.

(** * What [handleJsonImport] accepts *)

Section JsonImport.

Variable StringToNumber : string -> number.
Variable ArrayToString : list value -> string.




(** An entry of the array that is a number, a string, a boolean or an
    array is imported as the gray voxel at the origin that belongs to no
    step. *)
Lemma import_of_plain_entry (j : json) :
  plainEntry j ->
  importVoxel StringToNumber ArrayToString (JSON_parse j) = Some defaultVoxel.
Proof. destruct j; done. Qed.

End JsonImport.

(** * [findJsonPayload] *)

Lemma indexOfBrace_Some (text : list ascii) (n : nat) :
  indexOfBrace text = Some n ->
  exists rest,
    text = take n text ++ "{"%char :: rest /\ ("{"%char ∉ take n text) /\
    drop n text = "{"%char :: rest.
Proof.
  revert n. induction text as [|c text IH]; intros n; [done|].
  cbn [indexOfBrace]. destruct (bool_decide (c = "{"%char)) eqn:Hc.
  - intros [= <-]. apply bool_decide_eq_true_1 in Hc as ->.
    exists text. split; [done|]. split; [|done]. apply not_elem_of_nil.
  - apply bool_decide_eq_false_1 in Hc.
    destruct (indexOfBrace text) as [m|]; [|done]. intros [= <-].
    destruct (IH m eq_refl) as (rest & Htext & Hpre & Hdrop).
    exists rest. cbn [take drop]. split; [|split; [|done]].
    + cbn [app]. by rewrite <- Htext.
    + apply not_elem_of_cons. split; [congruence|done].
Qed.

Lemma scanBraces_Some (text : list ascii) (i : nat) (d : Z) (e : nat) :
  scanBraces text i d = Some e ->
  exists k,
    e = (i + k)%nat /\ (k < length text)%nat /\
    foldl countBrace d (take (S k) text) = 0%Z /\
    forall m, (0 < m <= k)%nat -> foldl countBrace d (take m text) <> 0%Z.
Proof.
  revert i d. induction text as [|c text IH]; intros i d; [done|].
  cbn [scanBraces]. cbv zeta.
  destruct (bool_decide (countBrace d c = 0%Z)) eqn:Hc.
  - intros [= <-]. apply bool_decide_eq_true_1 in Hc. exists 0%nat.
    split; [lia|]. split; [cbn; lia|]. split; [done|]. intros m Hm. lia.
  - apply bool_decide_eq_false_1 in Hc. intros He.
    destruct (IH _ _ He) as (k & -> & Hk & Hzero & Hpos).
    exists (S k). split; [lia|]. split; [cbn; lia|]. split; [done|].
    intros [|m] Hm; [lia|]. cbn [take foldl].
    destruct m as [|m]; [done|]. apply Hpos. lia.
Qed.

(** X23. When [JSON.parse] accepts the whole text, [findJsonPayload] returns
    what it returns.  When it does not and the payload is not [null], the
    payload is what [JSON.parse] returns for the piece of the text from
    its first [{] to the [}] that balances it. *)
Theorem findJsonPayload_segment (parseText : list ascii -> option value)
    (text : list ascii) :
  match parseText text with
  | Some parsed => findJsonPayload parseText text = parsed
  | None =>
      findJsonPayload parseText text = VNull \/
      exists cand,
        payloadText text cand /\
        parseText cand = Some (findJsonPayload parseText text)
  end.
Proof.
  unfold findJsonPayload. destruct (parseText text) as [v|]; [done|].
  destruct (indexOfBrace text) as [n|] eqn:Hn; [|by left].
  destruct (indexOfBrace_Some _ _ Hn) as (rest & Htext & Hpre & Hdrop).
  destruct (scanBraces (drop n text) n 0) as [e|] eqn:He; [|by left].
  destruct (scanBraces_Some _ _ _ _ He) as (k & -> & Hk & Hzero & Hpos).
  cbv zeta. replace (n + k + 1 - n)%nat with (S k) by lia.
  destruct (parseText (take (S k) (drop n text))) as [v|] eqn:Hv; [|by left].
  right. exists (take (S k) (drop n text)). split; [|done].
  exists (take n text), (drop (S k) (drop n text)). split; [|split; [done|]].
  - by rewrite take_drop, take_drop.
  - split; [by rewrite Hdrop|]. split; [done|].
    intros p q Hpq Hp Hq.
    assert (length p <= k)%nat as Hlen.
    { apply (f_equal length) in Hpq.
      rewrite length_take, length_app in Hpq.
      destruct q; [done|]. cbn [length] in Hpq.
      rewrite Nat.min_l in Hpq by lia. lia. }
    assert (take (length p) (drop n text) = p) as Htake.
    { apply (f_equal (take (length p))) in Hpq.
      rewrite take_take, take_app_length in Hpq.
      rewrite Nat.min_l in Hpq by lia. done. }
    rewrite <- Htake. apply Hpos. destruct p; [done|]. cbn [length] in *.
    lia.
Qed.

Lemma indexOfBrace_first (pre rest : list ascii) :
  "{"%char ∉ pre ->
  indexOfBrace (pre ++ "{"%char :: rest) = Some (length pre).
Proof.
  induction pre as [|c pre IH]; intros Hpre.
  - cbn [app indexOfBrace]. by rewrite bool_decide_eq_true_2.
  - apply not_elem_of_cons in Hpre as [Hc Hpre]. cbn [app indexOfBrace].
    rewrite bool_decide_eq_false_2 by congruence. by rewrite IH.
Qed.

Lemma scanBraces_first (s post : list ascii) (i : nat) (d : Z) :
  s <> [] ->
  foldl countBrace d s = 0%Z ->
  (forall m, (0 < m < length s)%nat -> foldl countBrace d (take m s) <> 0%Z) ->
  scanBraces (s ++ post) i d = Some (i + length s - 1)%nat.
Proof.
  revert i d. induction s as [|c s IH]; intros i d Hne Hzero Hpos; [done|].
  cbn [app scanBraces]. cbv zeta. destruct s as [|c' s].
  - cbn [foldl] in Hzero. rewrite bool_decide_eq_true_2 by done.
    cbn [length]. f_equal. lia.
  - rewrite bool_decide_eq_false_2.
    + rewrite IH; [cbn [length]; f_equal; lia|done|done|].
      intros m Hm. apply (Hpos (S m)). cbn [length] in *. lia.
    + apply (Hpos 1%nat). cbn [length]. lia.
Qed.

(** X24. When [JSON.parse] rejects the whole text but accepts the piece from
    the first [{] to the [}] that balances it, [findJsonPayload] returns
    what [JSON.parse] returns for that piece, whatever stands before and
    after it. *)
Theorem findJsonPayload_finds (parseText : list ascii -> option value)
    (text cand : list ascii) (parsed : value) :
  parseText text = None ->
  payloadText text cand ->
  parseText cand = Some parsed ->
  findJsonPayload parseText text = parsed.
Proof.
  intros Htext (pre & post & -> & Hpre & Hhead & Hzero & Hpos) Hcand.
  unfold findJsonPayload. rewrite Htext.
  destruct cand as [|c cand]; [done|]. injection Hhead as ->.
  assert (indexOfBrace (pre ++ ("{"%char :: cand) ++ post)
          = Some (length pre)) as ->
    by exact (indexOfBrace_first pre (cand ++ post) Hpre).
  rewrite drop_app_length.
  rewrite (scanBraces_first ("{"%char :: cand) post); [|done|done|].
  - cbv zeta.
    replace (length pre + length ("{"%char :: cand) - 1 + 1 - length pre)%nat
      with (length ("{"%char :: cand)) by (cbn [length]; lia).
    by rewrite take_app_length, Hcand.
  - intros m Hm.
    apply (Hpos (take m ("{"%char :: cand)) (drop m ("{"%char :: cand))).
    + by rewrite take_drop.
    + intros H%(f_equal length). rewrite length_take in H.
      cbn [length] in *. lia.
    + intros H%(f_equal length). rewrite length_drop in H.
      cbn [length] in *. lia.
Qed.

Lemma findJsonPayload_finds_witness :
  findJsonPayload parseEmptyObject ["O"; "K"; ":"; "{"; "}"; "."]%char
  = VObject [].
Proof.
  apply (findJsonPayload_finds parseEmptyObject
           ["O"; "K"; ":"; "{"; "}"; "."]%char ["{"; "}"]%char).
  - reflexivity.
  - exists ["O"; "K"; ":"]%char, ["."]%char. split; [reflexivity|].
    split; [by apply (bool_decide_unpack _)|].
    split; [reflexivity|]. split; [reflexivity|].
    intros [|a [|b p]] q Hpq Hp Hq; [done| |].
    + injection Hpq as <- _. by vm_compute.
    + destruct p; [|discriminate Hpq].
      injection Hpq as _ _ <-. done.
  - reflexivity.
Defined.
